(** * Model.tsx: the schema search filter of the Model panel

    A shallow embedding of [filterSchema] / [filterProperties] and of the
    effect that drives them in
    [packages/elements-core/src/components/Docs/Model/Model.tsx], with the
    properties stated about them, followed by the conditions under which
    [ModelComponent] and [ModelExamples] render their parts.

    The filter works on the value produced by
    [JSON.parse(JSON.stringify(...))], i.e. on a JSON tree.  It is embedded
    once, over an abstract type of nodes observed through [view], so that the
    same definition runs on JSON trees ([json]) and on object graphs with
    sharing and cycles ([Graph]).  JavaScript strings are modelled by
    [string], one character per code unit. *)

From Stdlib Require Import List String Ascii ZArith NArith Bool Arith Lia.
From Stdlib Require Import DecimalString DecimalN.
Import ListNotations.
Local Open Scope string_scope.
Local Open Scope list_scope.

Set Implicit Arguments.

(** ** Outcomes of a JavaScript evaluation *)

Inductive error : Type := TypeError.

(** [OutOfFuel] stands for a call stack that is still growing when the
    fuel of the evaluator is spent. *)
Inductive outcome (A : Type) : Type :=
| Return (a : A)
| Throw (e : error)
| OutOfFuel.

Arguments Return {A} a.
Arguments Throw {A} e.
Arguments OutOfFuel {A}.

Definition bind {A B : Type} (m : outcome A) (k : A -> outcome B) : outcome B :=
  match m with
  | Return a => k a
  | Throw e => Throw e
  | OutOfFuel => OutOfFuel
  end.

Notation "x <- m ;; k" := (bind m (fun x => k))
  (at level 61, m at next level, right associativity).
Notation "' p <- m ;; k" := (bind m (fun x => match x with p => k end))
  (at level 61, p pattern, m at next level, right associativity).

(** [for (const e of es) body], with the loop-carried variables in [st]. *)
Fixpoint for_of {A S : Type} (es : list A) (body : S -> A -> outcome S) (st : S)
  : outcome S :=
  match es with
  | [] => Return st
  | e :: es' => st' <- body st e ;; for_of es' body st'
  end.

(** ** Strings *)

(** [s.includes(q)]: [q] occurs in [s] as a contiguous run of code units. *)
Fixpoint includes (s q : string) : bool :=
  String.prefix q s ||
  match s with
  | EmptyString => false
  | String _ s' => includes s' q
  end.

Definition string_of_nat (n : nat) : string :=
  NilEmpty.string_of_uint (N.to_uint (N.of_nat n)).

(** An array index is the canonical decimal form of an integer below
    [2^32 - 1]; such keys are enumerated first, in numeric order. *)
Definition array_index (k : string) : option N :=
  match NilEmpty.uint_of_string k with
  | Some d =>
      let n := N.of_uint d in
      if (NilEmpty.string_of_uint (N.to_uint n) =? k) && (n <? 4294967295)%N
      then Some n else None
  | None => None
  end.

(** ** Ordinary objects as property lists

    An object is the list of its own enumerable string-keyed properties in
    the order in which [Object.entries], [Object.keys] and the spread
    operator enumerate them: array indices in ascending order, then the other
    keys in order of creation. *)

Section PropertyList.
Variable A : Type.

Definition props : Type := list (string * A).

Definition keys (o : props) : list string := map fst o.

Definition has_own (k : string) (o : props) : bool :=
  existsb (fun kv => fst kv =? k) o.

Fixpoint lookup (k : string) (o : props) : option A :=
  match o with
  | [] => None
  | (k', v) :: o' => if k' =? k then Some v else lookup k o'
  end.

Fixpoint obj_replace (k : string) (v : A) (o : props) : props :=
  match o with
  | [] => []
  | (k', v') :: o' =>
      if k' =? k then (k, v) :: o' else (k', v') :: obj_replace k v o'
  end.

Fixpoint obj_insert_index (n : N) (k : string) (v : A) (o : props) : props :=
  match o with
  | [] => [(k, v)]
  | (k', v') :: o' =>
      match array_index k' with
      | Some m =>
          if (m <? n)%N then (k', v') :: obj_insert_index n k v o'
          else (k, v) :: o
      | None => (k, v) :: o
      end
  end.

(** [CreateDataProperty]: an existing property keeps its place, a new one
    goes where the enumeration order puts it. *)
Definition obj_set (o : props) (k : string) (v : A) : props :=
  if has_own k o then obj_replace k v o
  else match array_index k with
       | Some n => obj_insert_index n k v o
       | None => o ++ [(k, v)]
       end.

(** [key_before k1 k2]: a property [k1] that exists when [k2] is created is
    enumerated before it. *)
Definition key_before (k1 k2 : string) : bool :=
  match array_index k1, array_index k2 with
  | Some m, Some n => (m <? n)%N
  | Some _, None => true
  | None, Some _ => false
  | None, None => true
  end.

Fixpoint ordered_keys (ks : list string) : bool :=
  match ks with
  | [] => true
  | k :: ks' => forallb (key_before k) ks' && ordered_keys ks'
  end.

Fixpoint nodup_keys (ks : list string) : bool :=
  match ks with
  | [] => true
  | k :: ks' => negb (existsb (String.eqb k) ks') && nodup_keys ks'
  end.

(** The lists that represent an object. *)
Definition object_repr (o : props) : bool :=
  nodup_keys (keys o) && ordered_keys (keys o).
End PropertyList.

Arguments keys {A} o.
Arguments has_own {A} k o.
Arguments lookup {A} k o.
Arguments obj_replace {A} k v o.
Arguments obj_insert_index {A} n k v o.
Arguments obj_set {A} o k v.
Arguments object_repr {A} o.

(** ** Values as the filter observes them *)

(** What one look at a value shows.  Numbers are only ever tested for
    truthiness, so an integer stands for them. *)
Inductive shape (node : Type) : Type :=
| SNull
| SBool (b : bool)
| SNum (z : Z)
| SStr (s : string)
| SArr (elems : list node)
| SObj (fields : props node).

Arguments SNull {node}.
Arguments SBool {node} b.
Arguments SNum {node} z.
Arguments SStr {node} s.
Arguments SArr {node} elems.
Arguments SObj {node} fields.

(** The prototype of the object under construction: [Object.prototype]
    unless an assignment to [__proto__] replaced it. *)
Inductive proto_slot (node : Type) : Type :=
| ObjectPrototype
| NullPrototype
| NodePrototype (x : node).

Arguments ObjectPrototype {node}.
Arguments NullPrototype {node}.
Arguments NodePrototype {node} x.

(** [const filtered = {}] and what the loop makes of it. *)
Record object (node : Type) : Type := MkObject {
  own : props node;
  proto : proto_slot node
}.

Arguments MkObject {node} own proto.
Arguments own {node} o.
Arguments proto {node} o.

Section Filter.
Variable node : Type.
(** [view x] is what the program sees at [x]; [alloc s] is a fresh value
    of shape [s] (an object literal, or the one-character string that
    indexing a string yields). *)
Variable view : node -> shape node.
Variable alloc : shape node -> node.

(** A JavaScript value: a node or [undefined]. *)
Definition jsval : Type := option node.

(** [!!v] *)
Definition truthy (v : jsval) : bool :=
  match v with
  | None => false
  | Some x =>
      match view x with
      | SNull => false
      | SBool b => b
      | SNum z => negb (z =? 0)%Z
      | SStr s => negb (s =? "")
      | SArr _ | SObj _ => true
      end
  end.

(** [typeof x === 'object'] *)
Definition typeof_object (x : node) : bool :=
  match view x with
  | SNull | SArr _ | SObj _ => true
  | _ => false
  end.

(** [v === s] for a string literal [s] *)
Definition strict_eq_string (v : jsval) (s : string) : bool :=
  match v with
  | Some x => match view x with SStr t => t =? s | _ => false end
  | None => false
  end.

Fixpoint index_entries (i : nat) (elems : list node) : props node :=
  match elems with
  | [] => []
  | e :: elems' => (string_of_nat i, e) :: index_entries (S i) elems'
  end.

Fixpoint chars (s : string) : list node :=
  match s with
  | EmptyString => []
  | String c s' => alloc (SStr (String c EmptyString)) :: chars s'
  end.

(** The own enumerable properties of [x] after [ToObject]: what
    [Object.entries(x)] lists and what [{...x}] copies. *)
Definition own_entries (x : node) : props node :=
  match view x with
  | SObj fields => fields
  | SArr elems => index_entries 0 elems
  | SStr s => index_entries 0 (chars s)
  | SNull | SBool _ | SNum _ => []
  end.

(** [x.name] for the names the filter reads ([description], [type],
    [properties], [items]), none of which a built-in prototype defines:
    an own property of an object, [undefined] on any other value, and a
    [TypeError] on [null]. *)
Definition get (x : node) (name : string) : outcome jsval :=
  match view x with
  | SNull => Throw TypeError
  | SObj fields => Return (lookup name fields)
  | _ => Return None
  end.

(** [d.includes(searchString)] for a truthy [d]: [String.prototype.includes]
    on a string, [Array.prototype.includes] on an array, and a [TypeError]
    (not a function) on anything else. *)
Definition call_includes (d : node) (searchString : string) : outcome bool :=
  match view d with
  | SStr s => Return (includes s searchString)
  | SArr elems =>
      Return (existsb (fun e => match view e with
                                | SStr t => t =? searchString
                                | _ => false
                                end) elems)
  | _ => Throw TypeError
  end.

(** Whether [x], installed as a prototype, has an own property [k]. *)
Definition has_own_property (x : node) (k : string) : bool :=
  match view x with
  | SObj fields => has_own k fields
  | SArr elems => has_own k (index_entries 0 elems) || (k =? "length")
  | _ => false
  end.

(** [filtered.hasOwnProperty(key)]: the method is found on
    [Object.prototype] unless an own property or the replaced prototype
    shadows it with a value that cannot be called. *)
Definition call_hasOwnProperty (filtered : object node) (key : string)
  : outcome bool :=
  let callable :=
    negb (has_own "hasOwnProperty" (own filtered)) &&
    match proto filtered with
    | ObjectPrototype => true
    | NullPrototype => false
    | NodePrototype x => negb (has_own_property x "hasOwnProperty")
    end in
  if callable then Return (has_own key (own filtered)) else Throw TypeError.

(** The setter of [Object.prototype.__proto__]. *)
Definition set_prototype (filtered : object node) (v : node) : object node :=
  match view v with
  | SObj _ | SArr _ => MkObject (own filtered) (NodePrototype v)
  | SNull => MkObject (own filtered) NullPrototype
  | _ => filtered
  end.

(** [filtered[key] = v].  Every key but [__proto__] defines or updates an
    own property.  [__proto__] does so only when it is already an own
    property or when the prototype chain no longer reaches the accessor
    of [Object.prototype]; otherwise the accessor replaces the prototype
    and no own property appears. *)
Definition assign (filtered : object node) (key : string) (v : node)
  : object node :=
  if negb (key =? "__proto__") then
    MkObject (obj_set (own filtered) key v) (proto filtered)
  else if has_own key (own filtered) then
    MkObject (obj_set (own filtered) key v) (proto filtered)
  else
    match proto filtered with
    | ObjectPrototype => set_prototype filtered v
    | NullPrototype => MkObject (obj_set (own filtered) key v) (proto filtered)
    | NodePrototype x =>
        if has_own_property x key
        then MkObject (obj_set (own filtered) key v) (proto filtered)
        else set_prototype filtered v
    end.

(** [{ ...x }] *)
Definition spread (x : node) : props node :=
  fold_left (fun o kv => obj_set o (fst kv) (snd kv)) (own_entries x) [].

(** An object under construction, once it is stored as a value. *)
Definition as_node (o : object node) : node := alloc (SObj (own o)).

Definition empty_object : object node := MkObject [] ObjectPrototype.

(** *** The pieces of the loop body, named for the proofs *)

(** A property read on a value known not to be [null]. *)
Definition field (x : node) (name : string) : jsval :=
  match view x with
  | SObj fields => lookup name fields
  | _ => None
  end.

(** Line 66, the direct match:
    [key.includes(s) || (value.description && value.description.includes(s))]. *)
Definition include_of (searchString key : string) (value : node) : outcome bool :=
  if includes key searchString then Return true
  else description <- get value "description" ;;
       if truthy description
       then match description with
            | Some d => call_includes d searchString
            | None => Return false
            end
       else Return false.

(** Lines 67-69. *)
Definition raise_depth (include : bool) (currentDepth maxDepth : nat) : nat :=
  if include && (maxDepth <? currentDepth)%nat then currentDepth else maxDepth.

(** The argument of the recursive call made for [value], if one is made:
    [value.properties] of an object (line 71), [value.items.properties] of
    an array (line 78). *)
Definition child_map (value : node) : option jsval :=
  if strict_eq_string (field value "type") "object" &&
     truthy (field value "properties")
  then Some (field value "properties")
  else if strict_eq_string (field value "type") "array" &&
          truthy (field value "items") &&
          match field value "items" with
          | Some i => typeof_object i
          | None => false
          end
  then match field value "items" with
       | Some i => Some (field i "properties")
       | None => None
       end
  else None.

(** The copy of [value] around its filtered children (lines 75 and
    82-85). *)
Definition with_children (value : node) (filteredChild : node) : node :=
  if strict_eq_string (field value "type") "object" &&
     truthy (field value "properties")
  then alloc (SObj (obj_set (spread value) "properties" filteredChild))
  else match field value "items" with
       | Some i =>
           alloc (SObj (obj_set (spread value) "items"
                    (alloc (SObj (obj_set (spread i) "properties"
                                    filteredChild)))))
       | None => value
       end.

(** Lines 90-93. *)
Definition place_direct (filtered : object node) (key : string) (value : node)
    (include : bool) : outcome (object node) :=
  if include then
    present <- call_hasOwnProperty filtered key ;;
    if negb present then Return (assign filtered key value)
    else Return filtered
  else Return filtered.

(** The body of the [for] loop of [filterProperties] (lines 65-94), with
    the recursive call left open in [filterProperties] and the captured
    [maxDepth] carried next to [filtered]. *)
Definition filterEntry
    (filterProperties : jsval -> nat -> nat -> outcome (object node * nat))
    (searchString : string) (currentDepth : nat)
    (st : object node * nat) (entry : string * node)
  : outcome (object node * nat) :=
  let '(filtered, maxDepth) := st in
  let '(key, value) := entry in
  include <- (if includes key searchString then Return true
              else description <- get value "description" ;;
                   if truthy description
                   then match description with
                        | Some d => call_includes d searchString
                        | None => Return false
                        end
                   else Return false) ;;
  let maxDepth :=
    if include && (maxDepth <? currentDepth)%nat then currentDepth else maxDepth in
  (* [value.type] throws on [null]; the reads that follow it are of a
     value that is not [null] and cannot throw *)
  type <- get value "type" ;;
  properties <- get value "properties" ;;
  items <- get value "items" ;;
  '(filtered, include, maxDepth) <-
    (if strict_eq_string type "object" && truthy properties then
       '(filteredChild, maxDepth) <-
          filterProperties properties (currentDepth + 1) maxDepth ;;
       if (0 <? List.length (keys (own filteredChild)))%nat then
         Return (assign filtered key
                   (alloc (SObj (obj_set (spread value) "properties"
                                   (as_node filteredChild)))),
                 true, maxDepth)
       else Return (filtered, include, maxDepth)
     else if strict_eq_string type "array" && truthy items &&
             match items with Some i => typeof_object i | None => false end
     then
       match items with
       | Some i =>
           itemsProperties <- get i "properties" ;;
           '(filteredChildItems, maxDepth) <-
              filterProperties itemsProperties (currentDepth + 1) maxDepth ;;
           if (0 <? List.length (keys (own filteredChildItems)))%nat then
             Return (assign filtered key
                       (alloc (SObj (obj_set (spread value) "items"
                          (alloc (SObj (obj_set (spread i) "properties"
                                          (as_node filteredChildItems))))))),
                     true, maxDepth)
           else Return (filtered, include, maxDepth)
       | None => Return (filtered, include, maxDepth)
       end
     else Return (filtered, include, maxDepth)) ;;
  if include then
    present <- call_hasOwnProperty filtered key ;;
    if negb present then Return (assign filtered key value, maxDepth)
    else Return (filtered, maxDepth)
  else Return (filtered, maxDepth).

(** [filterProperties(properties, currentDepth)] (lines 62-96).  The
    variable [maxDepth] of the enclosing [filterSchema] is an argument and
    a result.  One unit of fuel is one stack frame. *)
Fixpoint filterProperties (fuel : nat) (searchString : string)
    (properties : jsval) (currentDepth maxDepth : nat)
  : outcome (object node * nat) :=
  match fuel with
  | O => OutOfFuel
  | S fuel' =>
      let filtered := empty_object in
      if negb (truthy properties) then Return (filtered, maxDepth)
      else
        match properties with
        | Some p =>
            for_of (own_entries p)
              (filterEntry (filterProperties fuel' searchString)
                 searchString currentDepth)
              (filtered, maxDepth)
        | None => Return (filtered, maxDepth)
        end
  end.

(** [filterSchema(schema, searchString)] (lines 58-101). *)
Definition filterSchema (fuel : nat) (schema : jsval) (searchString : string)
  : outcome (object node * nat) :=
  let maxDepth := 0 in
  '(filteredSchema, maxDepth) <-
     filterProperties fuel searchString schema 0 maxDepth ;;
  Return (filteredSchema, maxDepth).

(** The state cells of [ModelComponent] that the effect writes. *)
Record ModelState : Type := MkModelState {
  filteredModel : props node;
  expandDepth : nat
}.

(** The effect of lines 103-112, run on [originalData], the deep copy of
    the schema, which [JSONSchema7] types as an object.  It returns the
    values given to [setFilteredModel] and [setExpandDepth]; when
    [filterSchema] throws, neither setter is reached. *)
Definition filterEffect (fuel : nat) (originalData : props node)
    (searchValue : string) : outcome ModelState :=
  if negb (searchValue =? "") && (1 <? String.length searchValue)%nat then
    '(filteredSchema, maxDepth) <-
       filterSchema fuel (lookup "properties" originalData) searchValue ;;
    let originalData :=
      obj_set originalData "properties" (as_node filteredSchema) in
    Return (MkModelState originalData maxDepth)
  else
    Return (MkModelState originalData 2).
End Filter.

Arguments filteredModel {node} m.
Arguments expandDepth {node} m.
Arguments MkModelState {node} filteredModel expandDepth.

(** ** JSON trees: what [JSON.parse] returns *)

#[local] Unset Elimination Schemes.
Inductive json : Type :=
| JNull
| JBool (b : bool)
| JNum (z : Z)
| JStr (s : string)
| JArr (elems : list json)
| JObj (fields : props json).
#[local] Set Elimination Schemes.

Definition jview (v : json) : shape json :=
  match v with
  | JNull => SNull
  | JBool b => SBool b
  | JNum z => SNum z
  | JStr s => SStr s
  | JArr elems => SArr elems
  | JObj fields => SObj fields
  end.

Definition jalloc (s : shape json) : json :=
  match s with
  | SNull => JNull
  | SBool b => JBool b
  | SNum z => JNum z
  | SStr s => JStr s
  | SArr elems => JArr elems
  | SObj fields => JObj fields
  end.

(** The number of levels of a tree. *)
Fixpoint height (v : json) : nat :=
  match v with
  | JArr elems => S (fold_right (fun e h => Nat.max (height e) h) 0 elems)
  | JObj fields => S (fold_right (fun kv h => Nat.max (height (snd kv)) h) 0 fields)
  | _ => 1
  end.

Definition height_opt (v : option json) : nat :=
  match v with
  | Some x => height x
  | None => 0
  end.

(** The filter on JSON trees. *)
Definition filterPropertiesJ := filterProperties jview jalloc.
Definition filterSchemaJ := filterSchema jview jalloc.
Definition filterEffectJ := filterEffect jview jalloc.

(** [JSON.parse(JSON.stringify(v))] on a JSON tree: a fresh tree with the
    same content. *)
Fixpoint deep_copy (v : json) : json :=
  match v with
  | JArr elems => JArr (map deep_copy elems)
  | JObj fields => JObj (map (fun kv => (fst kv, deep_copy (snd kv))) fields)
  | _ => v
  end.

(** The effect of [ModelComponent] (lines 57-113) on the schema [data], an
    object, and the search value. *)
Definition modelEffect (fuel : nat) (data : props json) (searchValue : string)
  : outcome (ModelState json) :=
  match deep_copy (JObj data) with
  | JObj originalData => filterEffectJ fuel originalData searchValue
  | _ => Throw TypeError
  end.

Definition truthyJ := truthy jview.
Definition fieldJ := field jview.

(** What [filterProperties] iterates over: nothing when [properties] is
    falsy (line 64), its enumerable own properties otherwise (line 65). *)
Definition entries_of (properties : option json) : props json :=
  if truthyJ properties
  then match properties with
       | Some p => own_entries jview jalloc p
       | None => []
       end
  else [].

(** ** The schema tree the filter walks *)

(** The child properties of a node, those the recursive call made for it
    iterates over: the [properties] of a node of type ["object"], the
    [properties] of the [items] of a node of type ["array"]. *)
Definition children (v : json) : props json :=
  match child_map jview v with
  | Some p => entries_of p
  | None => []
  end.

Definition height_props (es : props json) : nat :=
  fold_right (fun kv h => Nat.max (height (snd kv)) h) 0 es.

(** The nodes of the tree under [es], each with the path of keys that leads
    to it; a node at depth [d] has a path of [d + 1] keys. *)
Fixpoint nodes_from (fuel : nat) (es : props json) : list (list string * json) :=
  match fuel with
  | O => []
  | S fuel' =>
      flat_map (fun kv =>
                  ([fst kv], snd kv) ::
                  map (fun n => (fst kv :: fst n, snd n))
                      (nodes_from fuel' (children (snd kv)))) es
  end.

Definition nodes (es : props json) : list (list string * json) :=
  nodes_from (height_props es) es.

Definition node_key (n : list string * json) : string := last (fst n) "".
Definition node_depth (n : list string * json) : nat := pred (List.length (fst n)).

(** The same tree as a relation, without fuel. *)
Inductive node_at : props json -> list string -> json -> Prop :=
| node_here es k v :
    In (k, v) es -> node_at es [k] v
| node_below es k v path x :
    In (k, v) es -> node_at (children v) path x -> node_at es (k :: path) x.

(** A direct match: the name contains the query, or the description is a
    string that contains it. *)
Definition direct_match (q key : string) (v : json) : bool :=
  includes key q ||
  match fieldJ v "description" with
  | Some (JStr s) => includes s q
  | _ => false
  end.

(** What line 66 computes, [false] where it throws. *)
Definition js_direct (q key : string) (v : json) : bool :=
  match include_of jview q key v with
  | Return b => b
  | _ => false
  end.

(** The greatest depth of a direct match, [0] when there is none. *)
Definition max_direct_depth (q : string) (es : props json) : nat :=
  list_max
    (map node_depth
       (filter (fun n => direct_match q (node_key n) (snd n)) (nodes es))).

(** A node as the data model has it: not [null], with a description that
    is a string when there is one. *)
Definition node_ok (v : json) : bool :=
  match v with
  | JNull => false
  | _ => match fieldJ v "description" with
         | Some (JStr _) | None => true
         | Some _ => false
         end
  end.

Definition schema_ok (es : props json) : bool :=
  forallb (fun n => node_ok (snd n)) (nodes es).

(** Property names that do not collide with a member of
    [Object.prototype] that the filter relies on. *)
Definition plain_key (k : string) : bool :=
  negb (k =? "__proto__") && negb (k =? "hasOwnProperty").

Definition plain_keys (es : props json) : bool :=
  forallb (fun n => plain_key (node_key n)) (nodes es).

(** A node at which the loop body throws: the value is [null] (lines 66
    and 71 read its properties), or the name does not contain the query
    and the description is truthy without being a string or an array, so
    that [value.description.includes] is not a function. *)
Definition faulty (q key : string) (v : json) : bool :=
  match v with
  | JNull => true
  | _ =>
      negb (includes key q) &&
      match fieldJ v "description" with
      | Some d =>
          truthyJ (Some d) &&
          match d with
          | JStr _ | JArr _ => false
          | _ => true
          end
      | None => false
      end
  end.

Definition faultless (q : string) (es : props json) : bool :=
  forallb (fun n => negb (faulty q (node_key n) (snd n))) (nodes es).

(** The representation invariant of parsed JSON: every object in the tree
    is a property list without duplicates in enumeration order. *)
Fixpoint js_repr (v : json) : bool :=
  match v with
  | JArr elems => forallb js_repr elems
  | JObj fields =>
      object_repr fields && forallb (fun kv => js_repr (snd kv)) fields
  | _ => true
  end.

Definition js_repr_opt (v : option json) : bool :=
  match v with
  | Some x => js_repr x
  | None => true
  end.

(** ** The result in closed form *)

(** What the loop leaves in [filtered] for one entry, given the filtered
    children [sub] of its value. *)
Definition kept (q : string) (sub : props json) (kv : string * json)
  : props json :=
  let '(k, v) := kv in
  let copy := with_children jview jalloc v (JObj sub) in
  if k =? "__proto__" then
    if (0 <? List.length sub)%nat && has_own_property jview copy "__proto__"
    then [(k, v)] else []
  else if (0 <? List.length sub)%nat then [(k, copy)]
  else if js_direct q k v then [(k, v)]
  else [].

Fixpoint filtered_entries (fuel : nat) (q : string) (es : props json)
  : props json :=
  match fuel with
  | O => []
  | S fuel' =>
      flat_map (fun kv => kept q (filtered_entries fuel' q (children (snd kv))) kv) es
  end.

(** ** Object graphs: values that can be shared or cyclic

    Before the deep copy a schema is an object graph.  A [GRef] points to an
    object of the heap, so that an object can be reached from itself. *)

Module Graph.
#[local] Unset Elimination Schemes.
Inductive gnode : Type :=
| GNull
| GBool (b : bool)
| GNum (z : Z)
| GStr (s : string)
| GArr (elems : list gnode)
| GObj (fields : props gnode)
| GRef (address : nat).
#[local] Set Elimination Schemes.

Definition heap : Type := nat -> props gnode.

Definition gview (h : heap) (x : gnode) : shape gnode :=
  match x with
  | GNull => SNull
  | GBool b => SBool b
  | GNum z => SNum z
  | GStr s => SStr s
  | GArr elems => SArr elems
  | GObj fields => SObj fields
  | GRef a => SObj (h a)
  end.

Definition galloc (s : shape gnode) : gnode :=
  match s with
  | SNull => GNull
  | SBool b => GBool b
  | SNum z => GNum z
  | SStr s => GStr s
  | SArr elems => GArr elems
  | SObj fields => GObj fields
  end.

(** [const node = { type: 'object' }; node.properties = { self: node }] *)
Definition self_referential : heap :=
  fun _ => [("type", GStr "object"); ("properties", GObj [("self", GRef 0)])].

(** [const node = {}; node.properties = { self: node }]: an object that is
    reachable from itself, but not as a container with child properties. *)
Definition untyped_cycle : heap :=
  fun _ => [("properties", GObj [("self", GRef 0)])].

Definition filterPropertiesG (h : heap) := filterProperties (gview h) galloc.
End Graph.

(** ** Where the recursion leads

    [calls view alloc p p']: while [filterProperties] iterates over the
    properties map [p], it makes a recursive call on [p'] (lines 72 and
    79), if it gets that far. *)
Definition calls {node : Type} (view : node -> shape node)
    (alloc : shape node -> node) (p p' : jsval node) : Prop :=
  truthy view p = true /\
  exists x k v,
    p = Some x /\ In (k, v) (own_entries view alloc x) /\
    child_map view v = Some p'.

(** The same when the call is made for the first property of [p] and line
    66 does not throw at it: nothing comes between the call on [p] and the
    call on [p']. *)
Definition calls_first {node : Type} (view : node -> shape node)
    (alloc : shape node -> node) (q : string) (p p' : jsval node) : Prop :=
  truthy view p = true /\
  exists x k v rest inc,
    p = Some x /\ own_entries view alloc x = (k, v) :: rest /\
    include_of view q k v = Return inc /\
    child_map view v = Some p'.

(** A set of properties maps that the recursion does not leave: from each
    of them a call leads to one of them, as for the maps on a cycle that
    runs through containers and their child properties. *)
Definition never_left {node : Type}
    (call_to : jsval node -> jsval node -> Prop) (C : jsval node -> Prop)
  : Prop :=
  forall p, C p -> exists p', call_to p p' /\ C p'.

(** ** The layout of [ModelComponent] (lines 52-55 and 115-190)

    The props and the values of the hooks that the conditions of the
    render function read, typed as [DocsComponentProps<JSONSchema7>] has
    them; an optional field is an [option], [undefined] being [None]. *)

Module ModelComponent.

Record LayoutOptions : Type := MkLayoutOptions {
  noHeading : option bool;
  hideExport : option bool;
  hideModelExamples : option bool
}.

Record Props : Type := MkProps {
  data_title : option string;        (* data.title *)
  data_deprecated : option json;     (* data['deprecated'] *)
  data_x_internal : option json;     (* data['x-internal'] *)
  nodeTitle : option string;
  layoutOptions : option LayoutOptions;
  exportProps : bool;                (* whether the prop is given *)
  isCompact : bool                   (* from useIsCompact(layoutOptions) *)
}.

(** [!!layoutOptions?.f] *)
Definition flag (o : option LayoutOptions) (f : LayoutOptions -> option bool)
  : bool :=
  match o with
  | Some l => match f l with Some b => b | None => false end
  | None => false
  end.

(** Line 53: [data.title ?? nodeTitle]. *)
Definition title (p : Props) : option string :=
  match data_title p with
  | Some t => Some t
  | None => nodeTitle p
  end.

(** Lines 54-55. *)
Definition isDeprecated (p : Props) : bool := truthyJ (data_deprecated p).
Definition isInternal (p : Props) : bool := truthyJ (data_x_internal p).

(** Lines 115-116. *)
Definition shouldDisplayHeader (p : Props) : bool :=
  negb (flag (layoutOptions p) noHeading) &&
  (match title p with Some _ => true | None => false end
   || (exportProps p && negb (flag (layoutOptions p) hideExport))).

(** Which elements the render function puts on the page. *)
Record View : Type := MkView {
  header : bool;             (* the [Flex] row of lines 120-139 *)
  heading : bool;            (* [Heading] with the title *)
  deprecatedBadge : bool;
  internalBadge : bool;
  exportButton : bool;
  examplesLeft : bool;       (* [ModelExamples] under the description *)
  examplesRight : bool       (* [ModelExamples] in the right column *)
}.

Definition render (p : Props) : View :=
  let header := shouldDisplayHeader p || isInternal p || isDeprecated p in
  let modelExamples := negb (flag (layoutOptions p) hideModelExamples) in
  MkView
    header
    (header && match title p with Some t => negb (t =? "") | None => false end)
    (header && isDeprecated p)
    (header && isInternal p)
    (header && exportProps p && negb (flag (layoutOptions p) hideExport)
            && negb (isCompact p))
    (isCompact p && modelExamples)
    (negb (isCompact p) && modelExamples).

End ModelComponent.

(** ** [ModelExamples] (lines 193-244)

    The three state cells of the component, the handlers that write them
    and the conditions of its render function.  [exceedsSize] is imported
    from [utils/exampleGeneration]; the examples are what
    [generateExamplesFromJsonSchema] returned for the current [data]. *)

Module ModelExamples.

(** The numbers an index can be: an integer, or [NaN] from [parseInt]. *)
Inductive number : Type :=
| NaN
| Int (z : Z).

(** [String(n)], for integers written without an exponent (below [10^21]). *)
Definition string_of_number (n : number) : string :=
  match n with
  | NaN => "NaN"
  | Int z =>
      if (z <? 0)%Z then "-" ++ string_of_nat (Z.to_nat (- z))
      else string_of_nat (Z.to_nat z)
  end.

(** The white space that [parseInt] skips, among the characters below 256. *)
Definition is_white_space (c : ascii) : bool :=
  match nat_of_ascii c with
  | 9 | 10 | 11 | 12 | 13 | 32 | 160 => true
  | _ => false
  end.

Fixpoint trim_start (s : string) : string :=
  match s with
  | String c s' => if is_white_space c then trim_start s' else s
  | EmptyString => s
  end.

Definition digit_of (c : ascii) : option N :=
  let n := N_of_ascii c in
  if (48 <=? n)%N && (n <=? 57)%N then Some (n - 48)%N else None.

(** The value of the longest run of decimal digits at the start of [s],
    [None] when there is no digit. *)
Fixpoint digits (s : string) (acc : N) (seen : bool) : option N :=
  match s with
  | String c s' =>
      match digit_of c with
      | Some d => digits s' (10 * acc + d)%N true
      | None => if seen then Some acc else None
      end
  | EmptyString => if seen then Some acc else None
  end.

(** [parseInt(s, 10)], exact up to [2^53]. *)
Definition parseInt (s : string) : number :=
  let s := trim_start s in
  let '(negative, s) :=
    match s with
    | String "-" s' => (true, s')
    | String "+" s' => (false, s')
    | _ => (false, s)
    end in
  match digits s 0 false with
  | Some n => Int (if negative then - Z.of_N n else Z.of_N n)
  | None => NaN
  end.

Record Example : Type := MkExample {
  label : string;
  data : string
}.

(** What [Select] hands to [onChange]: the value of an option, a number,
    or its string form. *)
Inductive select_value : Type :=
| VNum (n : number)
| VStr (s : string).

Definition String_ (v : select_value) : string :=
  match v with
  | VNum n => string_of_number n
  | VStr s => s
  end.

(** The state cells (lines 194-196) and the timers that
    [handleLoadMorePress] has started and that have not fired yet. *)
Record State : Type := MkState {
  chosenExampleIndex : number;
  show : bool;
  loading : bool;
  timers : nat
}.

Definition initial : State := MkState (Int 0) false false 0.

Inductive event : Type :=
| LoadMorePress                    (* [handleLoadMorePress], lines 202-205 *)
| TimerFires                       (* the callback of [setTimeout] *)
| SelectChange (value : select_value).  (* [onChange] of line 212 *)

(** One event.  A timer fires only if [handleLoadMorePress] has started
    one that is still pending. *)
Definition step (st : State) (e : event) : State :=
  match e with
  | LoadMorePress =>
      MkState (chosenExampleIndex st) (show st) true (S (timers st))
  | TimerFires =>
      match timers st with
      | O => st
      | S n => MkState (chosenExampleIndex st) true (loading st) n
      end
  | SelectChange value =>
      MkState (parseInt (String_ value)) (show st) (loading st) (timers st)
  end.

Definition run (st : State) (trace : list event) : State :=
  fold_left step trace st.

(** [examples[n]]: an element for an integer within bounds, [undefined]
    otherwise. *)
Definition at_index {A : Type} (l : list A) (n : number) : option A :=
  match n with
  | Int z => if (z <? 0)%Z then None else nth_error l (Z.to_nat z)
  | NaN => None
  end.

(** Line 200: [examples[chosenExampleIndex]?.data]. *)
Definition selectedExample (examples : list Example) (st : State)
  : option string :=
  option_map data (at_index examples (chosenExampleIndex st)).

(** The options of the select (line 211). *)
Fixpoint options_from (i : nat) (examples : list Example)
  : list (select_value * string) :=
  match examples with
  | [] => []
  | e :: examples' =>
      (VNum (Int (Z.of_nat i)), label e) :: options_from (S i) examples'
  end.

Inductive content : Type :=
| CodeViewer (value : option string)
| LoadMore (loading : bool).

Record View : Type := MkView {
  copyButton : option string;      (* [copyValue] of the button, if shown *)
  examplesSelect : option (string * list (select_value * string));
  panelContent : content
}.

Section Render.
Variable exceedsSize : option string -> bool.

Definition render (examples : list Example) (st : State) : View :=
  let selected := selectedExample examples st in
  MkView
    (match selected with
     | Some s => if negb (s =? "") then Some s else None
     | None => None
     end)
    (if (1 <? List.length examples)%nat
     then Some (string_of_number (chosenExampleIndex st), options_from 0 examples)
     else None)
    (if show st || negb (exceedsSize selected)
     then CodeViewer selected
     else LoadMore (loading st)).
End Render.

End ModelExamples.

(** ** Notions used in the proofs *)

(** The type of the recursive call of [filterProperties]. *)
Definition call (node : Type) : Type :=
  jsval node -> nat -> nat -> outcome (object node * nat).

(** [self2] returns what [self1] returns wherever [self1] has fuel enough. *)
Definition extends {node : Type} (self1 self2 : call node) : Prop :=
  forall p d md, self1 p d md <> OutOfFuel -> self2 p d md = self1 p d md.

(** [filterProperties] with [fuel] returns what [filtered_entries] lists. *)
Definition refines_at (fuel : nat) (q : string) : Prop :=
  forall p d m fc m2,
    js_repr_opt p = true ->
    filterPropertiesJ fuel q p d m = Return (fc, m2) ->
    own fc = filtered_entries fuel q (entries_of p).

(** The state of [filtered] while no property name has collided with a
    member of [Object.prototype]. *)
Definition pristine (t : object json) : Prop :=
  proto t = ObjectPrototype /\ has_own "hasOwnProperty" (own t) = false.

(** The greatest depth of a direct match under [es], counted from depth [d]
    for the entries of [es] themselves. *)
Definition deepest_match (q : string) (d : nat) (es : props json) : nat :=
  list_max
    (map (fun n => d + node_depth n)
       (filter (fun n => direct_match q (node_key n) (snd n)) (nodes es))).

(** [filterProperties] with [fuel] raises the counter to the deepest direct
    match of a well-typed schema. *)
Definition counts_at (fuel : nat) (q : string) : Prop :=
  forall p d m F m',
    schema_ok (entries_of p) = true ->
    filterPropertiesJ fuel q p d m = Return (F, m') ->
    m' = Nat.max m (deepest_match q d (entries_of p)).


(** [filterProperties] with [fuel] raises the counter at least to the
    deepest direct match. *)
Definition reaches_at (fuel : nat) (q : string) : Prop :=
  forall p d m F m',
    filterPropertiesJ fuel q p d m = Return (F, m') ->
    Nat.max m (deepest_match q d (entries_of p)) <= m'.

(** The two shapes of a container whose children are filtered: the value,
    its child properties and the copy made around filtered children. *)
Inductive container : json -> json -> (json -> json) -> Prop :=
| container_object fields pp :
    lookup "type" fields = Some (JStr "object") ->
    lookup "properties" fields = Some pp ->
    container (JObj fields) pp
      (fun c => JObj (obj_set fields "properties" c))
| container_array fields ifields pp :
    lookup "type" fields = Some (JStr "array") ->
    lookup "items" fields = Some (JObj ifields) ->
    lookup "properties" ifields = Some pp ->
    container (JObj fields) pp
      (fun c => JObj (obj_set fields "items"
                        (JObj (obj_set ifields "properties" c)))).


(** Filtering the result of [filterProperties] with [fuel] again returns
    the same entries. *)
Definition idem_at (fuel : nat) (q : string) : Prop :=
  forall p d m F m',
    js_repr_opt p = true ->
    filterPropertiesJ fuel q p d m = Return (F, m') ->
    forall d2 m2, exists F2 m2',
      filterPropertiesJ fuel q (Some (JObj (own F))) d2 m2 = Return (F2, m2') /\
      own F2 = own F.

(** Some node under [es] directly matches. *)
Definition any_match (q : string) (es : props json) : bool :=
  existsb (fun n => direct_match q (node_key n) (snd n)) (nodes es).

(** The property [k] with value [v] directly matches, or a descendant of it
    does, at any depth. *)
Definition subtree_matches (q k : string) (v : json) : bool :=
  direct_match q k v || any_match q (children v).

(** ** Schemas used in the examples *)

(** [{ a: {description: "x"},
       b: {type: "object", properties: { c: {description: "x"} }} }] *)
Definition example_schema : json :=
  JObj [("a", JObj [("description", JStr "x")]);
        ("b", JObj [("type", JStr "object");
                    ("properties",
                     JObj [("c", JObj [("description", JStr "x")])])])].

(** A schema with nested objects and an array of objects. *)
Definition sample_schema : json :=
  JObj [("id", JObj [("type", JStr "string");
                     ("description", JStr "the identifier")]);
        ("address",
         JObj [("type", JStr "object");
               ("properties",
                JObj [("street", JObj [("type", JStr "string")]);
                      ("geo",
                       JObj [("type", JStr "object");
                             ("properties",
                              JObj [("lat", JObj [("type", JStr "number")]);
                                    ("grid_id", JObj [("type", JStr "string")])])])])]);
        ("tags",
         JObj [("type", JStr "array");
               ("items",
                JObj [("type", JStr "object");
                      ("properties",
                       JObj [("name", JObj [("description", JStr "tag identity")])])])]);
        ("note", JObj [("type", JStr "string")])].

(** [{ "__proto__": {description: "xx"} }] *)
Definition proto_schema : json :=
  JObj [("__proto__", JObj [("description", JStr "xx")])].

(** [{ "__proto__": { type: "object", "__proto__": 1,
                      properties: { xx: {}, yy: {} } } }] *)
Definition nested_proto_node : json :=
  JObj [("type", JStr "object"); ("__proto__", JNum 1);
        ("properties", JObj [("xx", JObj []); ("yy", JObj [])])].

Definition nested_proto_schema : json := JObj [("__proto__", nested_proto_node)].

(** [{ "hasOwnProperty": {description: "xx"}, "axx": {} }] *)
Definition shadowing_schema : json :=
  JObj [("hasOwnProperty", JObj [("description", JStr "xx")]);
        ("axx", JObj [])].

(** [{ a: null }] *)
Definition null_schema : json := JObj [("a", JNull)].

(** Nodes with missing and odd-shaped [properties] and [items]. *)
Definition odd_schema : json :=
  JObj [("flag", JBool true);
        ("count", JNum 3);
        ("empty_object", JObj [("type", JStr "object")]);
        ("null_properties", JObj [("type", JStr "object"); ("properties", JNull)]);
        ("zero_items", JObj [("type", JStr "array"); ("items", JNum 0)]);
        ("text_items", JObj [("type", JStr "array"); ("items", JStr "odd")]);
        ("list_items", JObj [("type", JStr "array"); ("items", JArr [JNum 1])]);
        ("odd_name", JObj [("type", JStr "array");
                           ("items", JObj [("properties", JBool false)])])].

(** A schema with a numeric description two levels down and a description
    that is a list of strings. *)
Definition faulty_schema : json :=
  JObj [("id", JObj [("description", JArr [JStr "id"; JStr "key"])]);
        ("address",
         JObj [("type", JStr "object");
               ("properties",
                JObj [("zip", JObj [("description", JNum 5)])])])].

(** [{ id: {description: ["primary key", "key"]},
       name: {description: "the key holder"} }] *)
Definition listed_schema : json :=
  JObj [("id", JObj [("description", JArr [JStr "primary key"; JStr "key"])]);
        ("name", JObj [("description", JStr "the key holder")])].

(** The property [address] of [sample_schema] and its child properties. *)
Definition address_properties : json :=
  JObj [("street", JObj [("type", JStr "string")]);
        ("geo",
         JObj [("type", JStr "object");
               ("properties",
                JObj [("lat", JObj [("type", JStr "number")]);
                      ("grid_id", JObj [("type", JStr "string")])])])].

Definition address_node : json :=
  JObj [("type", JStr "object"); ("properties", address_properties)].

(** [{ abc: { type: "object", properties: { ab: {}, zz: {} } } }] *)
Definition nested_names_schema : json :=
  JObj [("abc", JObj [("type", JStr "object");
                      ("properties", JObj [("ab", JObj []); ("zz", JObj [])])])].

(** * Properties *)

Unset Implicit Arguments.

(** ** Property lists *)

Section PropertyListFacts.
Variable A : Type.
Implicit Types (o : props A) (k : string) (v : A).

Lemma has_own_In o k : has_own k o = true <-> In k (keys o).
Proof.
  unfold has_own, keys. rewrite existsb_exists, in_map_iff. split.
  - intros [kv [Hin Heq]]. apply String.eqb_eq in Heq. now exists kv.
  - intros [kv [Heq Hin]]. exists kv. split; [exact Hin|]. now apply String.eqb_eq.
Qed.

Lemma has_own_false o k : has_own k o = false <-> ~ In k (keys o).
Proof.
  rewrite <- has_own_In. destruct (has_own k o); split; congruence.
Qed.

Lemma has_own_app o1 o2 k :
  has_own k (o1 ++ o2) = has_own k o1 || has_own k o2.
Proof. unfold has_own. apply existsb_app. Qed.

Lemma keys_app o1 o2 : keys (o1 ++ o2) = keys o1 ++ keys o2.
Proof. unfold keys. apply map_app. Qed.

Lemma lookup_In o k v : lookup k o = Some v -> In (k, v) o.
Proof.
  induction o as [|[k' v'] o IH]; simpl; [discriminate|].
  destruct (String.eqb_spec k' k) as [->|Hne].
  - intros [= ->]. now left.
  - intros H. right. now apply IH.
Qed.

Lemma lookup_has_own o k : has_own k o = match lookup k o with Some _ => true | None => false end.
Proof.
  induction o as [|[k' v'] o IH]; simpl; [reflexivity|].
  destruct (k' =? k); simpl; [reflexivity|exact IH].
Qed.

Lemma keys_obj_replace o k v : has_own k o = true -> keys (obj_replace k v o) = keys o.
Proof.
  induction o as [|[k' v'] o IH]; simpl; [discriminate|].
  destruct (String.eqb_spec k' k) as [->|Hne]; simpl; [reflexivity|].
  intros H. now rewrite IH.
Qed.

Lemma obj_replace_same o k v : lookup k o = Some v -> obj_replace k v o = o.
Proof.
  induction o as [|[k' v'] o IH]; simpl; [reflexivity|].
  destruct (String.eqb_spec k' k) as [->|Hne].
  - now intros [= ->].
  - intros H. now rewrite IH.
Qed.

Lemma lookup_obj_replace o k v :
  has_own k o = true -> lookup k (obj_replace k v o) = Some v.
Proof.
  induction o as [|[k' v'] o IH]; simpl; [discriminate|].
  destruct (String.eqb_spec k' k) as [->|Hne]; simpl.
  - now rewrite String.eqb_refl.
  - intros H. destruct (String.eqb_spec k' k); [contradiction|]. now apply IH.
Qed.

Lemma lookup_obj_replace_other o k k' v :
  k' <> k -> lookup k' (obj_replace k v o) = lookup k' o.
Proof.
  intros Hne. induction o as [|[k0 v0] o IH]; simpl; [reflexivity|].
  destruct (String.eqb_spec k0 k) as [->|Hne0]; simpl.
  - destruct (String.eqb_spec k k'); [congruence|reflexivity].
  - destruct (k0 =? k'); [reflexivity|exact IH].
Qed.

Lemma obj_insert_index_last o n k v :
  array_index k = Some n ->
  forallb (fun k' => key_before k' k) (keys o) = true ->
  obj_insert_index n k v o = o ++ [(k, v)].
Proof.
  intros Hk. induction o as [|[k' v'] o IH]; simpl; [reflexivity|].
  intros H. apply andb_prop in H as [Hb Hrest].
  unfold key_before in Hb. rewrite Hk in Hb.
  destruct (array_index k') as [m|]; [|discriminate].
  rewrite Hb. now rewrite IH.
Qed.

(** A key that is new and comes after the keys already there is added at
    the end. *)
Lemma obj_set_last o k v :
  has_own k o = false ->
  forallb (fun k' => key_before k' k) (keys o) = true ->
  obj_set o k v = o ++ [(k, v)].
Proof.
  intros Hfresh Hord. unfold obj_set. rewrite Hfresh.
  destruct (array_index k) as [n|] eqn:Hk; [|reflexivity].
  now apply obj_insert_index_last.
Qed.

Lemma obj_set_present_keys o k v :
  has_own k o = true -> keys (obj_set o k v) = keys o.
Proof.
  intros H. unfold obj_set. rewrite H. now apply keys_obj_replace.
Qed.

Lemma lookup_obj_set_present o k v :
  has_own k o = true -> lookup k (obj_set o k v) = Some v.
Proof.
  intros H. unfold obj_set. rewrite H. now apply lookup_obj_replace.
Qed.

Lemma lookup_obj_set_present_other o k k' v :
  has_own k o = true -> k' <> k -> lookup k' (obj_set o k v) = lookup k' o.
Proof.
  intros H Hne. unfold obj_set. rewrite H. now apply lookup_obj_replace_other.
Qed.
End PropertyListFacts.

Lemma forallb_key_before_prefix (pre post : list string) (k : string) :
  ordered_keys (pre ++ k :: post) = true ->
  forallb (fun k' => key_before k' k) pre = true.
Proof.
  induction pre as [|k0 pre IH]; simpl; [reflexivity|].
  intros H. apply andb_prop in H as [H0 Hrest].
  rewrite forallb_app in H0. apply andb_prop in H0 as [_ H0].
  simpl in H0. apply andb_prop in H0 as [H0 _].
  rewrite H0. simpl. now apply IH.
Qed.

Lemma nodup_keys_prefix (pre post : list string) (k : string) :
  nodup_keys (pre ++ k :: post) = true -> ~ In k pre.
Proof.
  induction pre as [|k0 pre IH]; simpl; [tauto|].
  intros H. apply andb_prop in H as [H0 Hrest].
  intros [->|Hin]; [|now apply IH].
  apply negb_true_iff in H0.
  assert (Hex : existsb (String.eqb k) (pre ++ k :: post) = true).
  { apply existsb_exists. exists k. split; [|apply String.eqb_refl].
    apply in_or_app. right. now left. }
  congruence.
Qed.

Lemma nodup_keys_NoDup (ks : list string) : nodup_keys ks = true <-> NoDup ks.
Proof.
  induction ks as [|k ks IH]; simpl.
  - split; [constructor|reflexivity].
  - rewrite andb_true_iff, negb_true_iff, IH. split.
    + intros [Hn Hd]. constructor; [|exact Hd].
      intros Hin. assert (existsb (String.eqb k) ks = true); [|congruence].
      apply existsb_exists. exists k. split; [exact Hin|apply String.eqb_refl].
    + intros H. inversion H as [|? ? Hn Hd]; subst. split; [|exact Hd].
      destruct (existsb (String.eqb k) ks) eqn:E; [|reflexivity].
      apply existsb_exists in E as [k' [Hin Heq]]. apply String.eqb_eq in Heq.
      subst. contradiction.
Qed.

Lemma object_repr_app_cons {A : Type} (pre post : props A) (k : string) (v : A) :
  object_repr (pre ++ (k, v) :: post) = true ->
  has_own k pre = false /\
  forallb (fun k' => key_before k' k) (keys pre) = true.
Proof.
  unfold object_repr. rewrite keys_app. simpl.
  intros H. apply andb_prop in H as [Hd Ho]. split.
  - apply has_own_false. eapply nodup_keys_prefix. exact Hd.
  - eapply forallb_key_before_prefix. exact Ho.
Qed.

(** Copying the properties of an object one by one gives the same list. *)
Lemma fold_obj_set_app {A : Type} (l acc : props A) :
  object_repr (acc ++ l) = true ->
  fold_left (fun o kv => obj_set o (fst kv) (snd kv)) l acc = acc ++ l.
Proof.
  revert acc. induction l as [|[k v] l IH]; intros acc H; simpl.
  - now rewrite app_nil_r.
  - destruct (object_repr_app_cons _ _ _ _ H) as [Hfresh Hord].
    rewrite obj_set_last by assumption.
    rewrite IH; rewrite <- app_assoc; simpl; [reflexivity|exact H].
Qed.


(** ** The loop body in stages *)

Ltac place_cases :=
  simpl; try reflexivity;
  repeat match goal with
         | |- context [call_hasOwnProperty ?vw ?o ?k] =>
             destruct (call_hasOwnProperty vw o k) as [[|]| |]; simpl;
             try reflexivity
         end.

Section FilterFacts.
Variable node : Type.
Variable view : node -> shape node.
Variable alloc : shape node -> node.
Lemma filterEntry_eq self q d t md k v :
  filterEntry view alloc self q d (t, md) (k, v) =
    include <- include_of view q k v ;;
    _ <- get view v "type" ;;
    let md1 := raise_depth include d md in
    match child_map view v with
    | Some p =>
        '(fc, md2) <- self p (d + 1) md1 ;;
        if (0 <? List.length (keys (own fc)))%nat then
          t' <- place_direct view
                  (assign view t k (with_children view alloc v (as_node alloc fc)))
                  k v true ;;
          Return (t', md2)
        else t' <- place_direct view t k v include ;; Return (t', md2)
    | None => t' <- place_direct view t k v include ;; Return (t', md1)
    end.
Proof.
  unfold filterEntry, include_of, child_map, with_children, place_direct,
    get, field, raise_depth.
  destruct (view v) as [ | b | z | s | elems | fields] eqn:Ev; simpl.
  all: destruct (includes k q); simpl; try reflexivity.
  all: try (destruct (call_hasOwnProperty view t k) as [[|]| |]; reflexivity).
  all: try (destruct (truthy view (lookup "description" fields)) eqn:Ed; simpl;
            [destruct (lookup "description" fields) as [dn|] eqn:Edn; simpl;
             [destruct (call_includes view dn q) as [inc| |]; simpl;
              try reflexivity | discriminate] | ]).
  all: destruct (strict_eq_string view (lookup "type" fields) "object"
                 && truthy view (lookup "properties" fields)) eqn:E1; simpl.
  all: try solve [destruct (self _ _ _) as [[fc md2]| |]; simpl; try reflexivity;
            destruct (0 <? List.length (keys (own fc)))%nat; simpl;
            try (destruct inc; simpl); place_cases].
  all: destruct (strict_eq_string view (lookup "type" fields) "array"
                 && truthy view (lookup "items" fields)) eqn:E2; simpl.
  all: try solve [try (destruct inc; simpl); place_cases].
  all: destruct (lookup "items" fields) as [i|] eqn:Ei; simpl.
  all: try solve [try (destruct inc; simpl); place_cases].
  all: destruct (typeof_object view i) eqn:Et; simpl.
  all: try solve [try (destruct inc; simpl); place_cases].
  all: assert (Hi : view i <> SNull)
    by (intros Hn; rewrite andb_true_iff in E2; destruct E2 as [_ E2];
        simpl in E2; now rewrite Hn in E2).
  all: destruct (view i) eqn:Evi; try congruence; simpl.
  all: destruct (self _ _ _) as [[fc md2]| |]; simpl; try reflexivity.
  all: destruct (0 <? List.length (keys (own fc)))%nat; simpl.
  all: try (destruct inc; simpl); place_cases.
Qed.
End FilterFacts.

(** ** Fuel *)

Section FuelFacts.
Variable node : Type.
Variable view : node -> shape node.
Variable alloc : shape node -> node.

Lemma filterEntry_extends (self1 self2 : call node) q d st e :
  extends self1 self2 ->
  filterEntry view alloc self1 q d st e <> OutOfFuel ->
  filterEntry view alloc self2 q d st e = filterEntry view alloc self1 q d st e.
Proof.
  intros Hext. destruct st as [t md], e as [k v].
  rewrite !filterEntry_eq.
  destruct (include_of view q k v) as [inc| |]; simpl; try reflexivity.
  destruct (get view v "type") as [ty| |]; simpl; try reflexivity.
  destruct (child_map view v) as [p|]; [|reflexivity].
  intros H. rewrite Hext; [reflexivity|].
  intros Hout. rewrite Hout in H. now apply H.
Qed.

Lemma for_of_extends (self1 self2 : call node) q d es st :
  extends self1 self2 ->
  for_of es (filterEntry view alloc self1 q d) st <> OutOfFuel ->
  for_of es (filterEntry view alloc self2 q d) st =
  for_of es (filterEntry view alloc self1 q d) st.
Proof.
  intros Hext. revert st. induction es as [|e es IH]; intros st;
    cbn [for_of]; [reflexivity|].
  intros H.
  rewrite filterEntry_extends with (self1 := self1); [|exact Hext|].
  - destruct (filterEntry view alloc self1 q d st e) as [st'| |];
      cbn [bind] in *; try reflexivity. now apply IH.
  - intros Hout. rewrite Hout in H. now apply H.
Qed.

(** More fuel does not change a result that was reached. *)
Lemma filterProperties_S fuel q :
  extends (filterProperties view alloc fuel q)
          (filterProperties view alloc (S fuel) q).
Proof.
  induction fuel as [|fuel IH]; intros p d md H; [now contradiction H|].
  change (filterProperties view alloc (S (S fuel)) q p d md)
    with (if negb (truthy view p) then Return (empty_object node, md)
          else match p with
               | Some x =>
                   for_of (own_entries view alloc x)
                     (filterEntry view alloc
                        (filterProperties view alloc (S fuel) q) q d)
                     (empty_object node, md)
               | None => Return (empty_object node, md)
               end).
  change (filterProperties view alloc (S fuel) q p d md)
    with (if negb (truthy view p) then Return (empty_object node, md)
          else match p with
               | Some x =>
                   for_of (own_entries view alloc x)
                     (filterEntry view alloc
                        (filterProperties view alloc fuel q) q d)
                     (empty_object node, md)
               | None => Return (empty_object node, md)
               end) in *.
  destruct (negb (truthy view p)); [reflexivity|].
  destruct p as [x|]; [|reflexivity].
  now apply for_of_extends.
Qed.

Lemma filterProperties_le fuel fuel' q :
  fuel <= fuel' ->
  extends (filterProperties view alloc fuel q)
          (filterProperties view alloc fuel' q).
Proof.
  induction 1 as [|fuel' Hle IH]; intros p d md H; [reflexivity|].
  rewrite <- (IH p d md H). apply filterProperties_S.
  now rewrite (IH p d md H).
Qed.
End FuelFacts.

(** ** JSON trees: heights and termination *)

Lemma height_field (fields : props json) (k : string) (v : json) :
  In (k, v) fields -> height v < height (JObj fields).
Proof.
  simpl. induction fields as [|[k' v'] fields IH]; simpl; [tauto|].
  intros [[= -> ->]|Hin]; [lia|]. specialize (IH Hin). lia.
Qed.

Lemma height_elem (elems : list json) (e : json) :
  In e elems -> height e < height (JArr elems).
Proof.
  simpl. induction elems as [|e' elems IH]; simpl; [tauto|].
  intros [->|Hin]; [lia|]. specialize (IH Hin). lia.
Qed.

Lemma height_pos (v : json) : 1 <= height v.
Proof. destruct v; simpl; lia. Qed.

Lemma In_index_entries (elems : list json) (i : nat) (k : string) (v : json) :
  In (k, v) (index_entries i elems) -> In v elems.
Proof.
  revert i. induction elems as [|e elems IH]; intros i; simpl; [tauto|].
  intros [[= _ ->]|Hin]; [now left|]. right. now apply (IH (S i)).
Qed.

Lemma In_chars (s : string) (v : json) :
  In v (chars jalloc s) -> exists c, v = JStr (String c EmptyString).
Proof.
  induction s as [|c s IH]; simpl; [tauto|].
  intros [<-|Hin]; [now exists c|]. now apply IH.
Qed.

Lemma lookup_field_height (fields : props json) (name : string) (x : json) :
  lookup name fields = Some x -> height x < height (JObj fields).
Proof.
  intros H. apply lookup_In in H. eapply height_field. exact H.
Qed.

Lemma fieldJ_height (v : json) (name : string) (x : json) :
  fieldJ v name = Some x -> height x < height v.
Proof.
  unfold fieldJ, field. destruct v; simpl; try discriminate.
  apply lookup_field_height.
Qed.

(** The values [filterProperties] iterates over are no higher than its
    argument. *)
Lemma entries_of_height (p : option json) (k : string) (v : json) :
  In (k, v) (entries_of p) -> height v <= height_opt p.
Proof.
  unfold entries_of. destruct (truthyJ p); [|simpl; tauto].
  destruct p as [x|]; [|simpl; tauto].
  unfold own_entries. destruct x; simpl jview; cbn iota; try (simpl; tauto).
  - intros H. apply In_index_entries in H. apply In_chars in H as [c ->].
    cbn. apply le_n.
  - intros H. apply In_index_entries in H. apply height_elem in H.
    unfold height_opt. now apply Nat.lt_le_incl.
  - intros H. apply height_field in H. unfold height_opt.
    now apply Nat.lt_le_incl.
Qed.

(** The argument of the recursive call made for a value is lower than the
    value. *)
Lemma child_map_height (v : json) (p : option json) :
  child_map jview v = Some p -> height_opt p < height v.
Proof.
  unfold child_map. fold fieldJ.
  destruct (strict_eq_string jview (fieldJ v "type") "object"
            && truthy jview (fieldJ v "properties")).
  - intros [= <-]. destruct (fieldJ v "properties") as [x|] eqn:E; simpl.
    + now apply fieldJ_height in E.
    + pose proof (height_pos v). lia.
  - destruct (strict_eq_string jview (fieldJ v "type") "array"
              && truthy jview (fieldJ v "items")
              && match fieldJ v "items" with
                 | Some i => typeof_object jview i
                 | None => false
                 end); [|discriminate].
    destruct (fieldJ v "items") as [i|] eqn:Ei; [|discriminate].
    intros [= <-]. apply fieldJ_height in Ei.
    fold (fieldJ i "properties").
    destruct (fieldJ i "properties") as [x|] eqn:E; simpl.
    + apply fieldJ_height in E. lia.
    + lia.
Qed.

Lemma include_of_fuel {node : Type} (view : node -> shape node) q k v :
  include_of view q k v <> OutOfFuel.
Proof.
  unfold include_of, get, call_includes.
  destruct (includes k q); [discriminate|].
  destruct (view v); simpl; try discriminate.
  destruct (truthy view (lookup "description" fields)); [|discriminate].
  destruct (lookup "description" fields) as [d|]; [|discriminate].
  destruct (view d); discriminate.
Qed.

Lemma place_direct_fuel {node : Type} (view : node -> shape node) t k v inc :
  place_direct view t k v inc <> OutOfFuel.
Proof.
  unfold place_direct, call_hasOwnProperty.
  destruct inc; [|discriminate].
  match goal with |- context [if ?c then _ else _] => destruct c end;
    simpl; [|discriminate].
  destruct (negb (has_own k (own t))); discriminate.
Qed.

Lemma for_of_fuel {A S : Type} (es : list A) (body : S -> A -> outcome S) st :
  (forall e s, In e es -> body s e <> OutOfFuel) ->
  for_of es body st <> OutOfFuel.
Proof.
  revert st. induction es as [|e es IH]; intros st H; cbn [for_of];
    [discriminate|].
  destruct (body st e) as [st'| |] eqn:E; cbn [bind].
  - apply IH. intros e' s Hin. apply H. now right.
  - discriminate.
  - exfalso. eapply H; [left; reflexivity|exact E].
Qed.

(** On a tree the recursion ends: fuel beyond the height of the argument
    is never used up. *)
Lemma filterPropertiesJ_terminates q fuel p d md :
  height_opt p < fuel -> filterPropertiesJ fuel q p d md <> OutOfFuel.
Proof.
  unfold filterPropertiesJ.
  revert p d md. induction fuel as [|fuel IH]; intros p d md Hh; [lia|].
  cbn [filterProperties].
  destruct (negb (truthy jview p)) eqn:Et; [discriminate|].
  destruct p as [x|]; [|discriminate].
  apply for_of_fuel. intros [k v] [t m] Hin.
  assert (Hv : height v <= height x).
  { apply (entries_of_height (Some x) k). unfold entries_of, truthyJ.
    apply negb_false_iff in Et. now rewrite Et. }
  rewrite filterEntry_eq.
  destruct (include_of jview q k v) as [inc| |] eqn:Ei; cbn [bind];
    [|discriminate|now apply include_of_fuel in Ei].
  destruct (get jview v "type") as [ty| |] eqn:Eg; cbn [bind];
    [|discriminate|destruct v; discriminate].
  cbv zeta.
  destruct (child_map jview v) as [p'|] eqn:Ec.
  - apply child_map_height in Ec.
    destruct (filterProperties jview jalloc fuel q p' (d + 1)
                (raise_depth inc d m)) as [[fc m2]| |] eqn:Er; cbn [bind].
    + destruct (0 <? List.length (keys (own fc)))%nat.
      * match goal with
        | |- context [place_direct jview ?o k v true] =>
            destruct (place_direct jview o k v true) eqn:Ep
        end; cbn [bind]; try discriminate.
        now apply place_direct_fuel in Ep.
      * destruct (place_direct jview t k v inc) eqn:Ep; cbn [bind];
          try discriminate. now apply place_direct_fuel in Ep.
    + discriminate.
    + exfalso. eapply IH; [|exact Er]. simpl in Hh. lia.
  - destruct (place_direct jview t k v inc) eqn:Ep; cbn [bind];
      try discriminate. now apply place_direct_fuel in Ep.
Qed.

(** ** Cycles that the recursion follows *)

Section Cycles.
Variable node : Type.
Variable view : node -> shape node.
Variable alloc : shape node -> node.

Lemma for_of_never_returns {A S : Type} (es : list A)
    (body : S -> A -> outcome S) (e : A) :
  In e es -> (forall s r, body s e <> Return r) ->
  forall st r, for_of es body st <> Return r.
Proof.
  intros Hin Hbody. induction es as [|e0 es IH]; [destruct Hin|].
  intros st r. cbn [for_of].
  destruct (body st e0) as [st'| |] eqn:Eb; cbn [bind]; try discriminate.
  destruct Hin as [->|Hin]; [now apply Hbody in Eb|now apply IH].
Qed.

(** An entry whose recursive call does not return does not return. *)
Lemma filterEntry_never_returns (self : call node) q d k v p' :
  child_map view v = Some p' ->
  (forall d m r, self p' d m <> Return r) ->
  forall st r, filterEntry view alloc self q d st (k, v) <> Return r.
Proof.
  intros Ec Hself [t m] r. rewrite filterEntry_eq, Ec.
  destruct (include_of view q k v) as [inc| |]; cbn [bind]; try discriminate.
  destruct (get view v "type"); cbn [bind]; try discriminate. cbv zeta.
  destruct (self p' (d + 1) (raise_depth inc d m)) as [[fc m2]| |] eqn:Er;
    cbn [bind]; try discriminate.
  now apply Hself in Er.
Qed.

Lemma filterProperties_never_returns (C : jsval node -> Prop) :
  never_left (calls view alloc) C ->
  forall fuel p, C p ->
  forall q d md r, filterProperties view alloc fuel q p d md <> Return r.
Proof.
  intros HC. induction fuel as [|fuel IH]; intros p Hp q d md r; [discriminate|].
  destruct (HC p Hp) as [p' [[Ht [x [k [v [-> [Hin Ec]]]]]] Hp']].
  cbn [filterProperties]. rewrite Ht. cbn [negb].
  apply (for_of_never_returns _ _ (k, v) Hin).
  apply (filterEntry_never_returns _ q d k v p' Ec).
  intros d' m' r'. now apply IH.
Qed.

(** A value with child properties is an object. *)
Lemma child_map_get v p' :
  child_map view v = Some p' ->
  exists ty, get view v "type" = Return ty.
Proof.
  unfold child_map, field, get. destruct (view v); try discriminate.
  intros _. now eexists.
Qed.

Lemma filterProperties_exhausts_fuel q (C : jsval node -> Prop) :
  never_left (calls_first view alloc q) C ->
  forall fuel p, C p ->
  forall d md, filterProperties view alloc fuel q p d md = OutOfFuel.
Proof.
  intros HC. induction fuel as [|fuel IH]; intros p Hp d md; [reflexivity|].
  destruct (HC p Hp)
    as [p' [[Ht [x [k [v [rest [inc [-> [He [Hi Ec]]]]]]]]] Hp']].
  cbn [filterProperties]. rewrite Ht, He. cbn [negb for_of].
  rewrite filterEntry_eq, Hi, Ec. cbn [bind].
  destruct (child_map_get v p' Ec) as [ty Hg]. rewrite Hg. cbn [bind]. cbv zeta.
  now rewrite (IH p' Hp').
Qed.
End Cycles.

(** The object that is its own child property is such a cycle. *)
Lemma self_referential_never_left q :
  never_left (calls_first (Graph.gview Graph.self_referential) Graph.galloc q)
    (fun p => p = Some (Graph.GObj [("self", Graph.GRef 0)])).
Proof.
  intros p ->. exists (Some (Graph.GObj [("self", Graph.GRef 0)])).
  split; [|reflexivity]. split; [reflexivity|].
  exists (Graph.GObj [("self", Graph.GRef 0)]), "self", (Graph.GRef 0), [],
    (includes "self" q).
  repeat split. unfold include_of. destruct (includes "self" q); reflexivity.
Qed.

Lemma calls_first_calls {node : Type} (view : node -> shape node)
    (alloc : shape node -> node) q p p' :
  calls_first view alloc q p p' -> calls view alloc p p'.
Proof.
  intros [Ht [x [k [v [rest [inc [-> [He [_ Ec]]]]]]]]]. split; [exact Ht|].
  exists x, k, v. split; [reflexivity|]. split; [|exact Ec].
  rewrite He. now left.
Qed.

(** ** Index keys *)

Lemma array_index_string_of_nat (i : nat) :
  array_index (string_of_nat i) =
  if (N.of_nat i <? 4294967295)%N then Some (N.of_nat i) else None.
Proof.
  unfold array_index, string_of_nat.
  rewrite NilEmpty.usu. cbv zeta.
  rewrite DecimalN.Unsigned.of_to, String.eqb_refl. reflexivity.
Qed.

Lemma string_of_nat_inj (i j : nat) : string_of_nat i = string_of_nat j -> i = j.
Proof.
  unfold string_of_nat. intros H.
  apply (f_equal NilEmpty.uint_of_string) in H. rewrite !NilEmpty.usu in H.
  injection H as H. apply (f_equal N.of_uint) in H.
  rewrite !DecimalN.Unsigned.of_to in H. now apply Nat2N.inj.
Qed.

Lemma key_before_string_of_nat (i j : nat) :
  i < j -> key_before (string_of_nat i) (string_of_nat j) = true.
Proof.
  intros Hlt. unfold key_before. rewrite !array_index_string_of_nat.
  destruct (N.ltb_spec (N.of_nat i) 4294967295),
           (N.ltb_spec (N.of_nat j) 4294967295); try reflexivity.
  - apply N.ltb_lt. lia.
  - lia.
Qed.

Lemma keys_index_entries {node : Type} (elems : list node) (i : nat) (k : string) :
  In k (keys (index_entries i elems)) -> exists j, i <= j /\ k = string_of_nat j.
Proof.
  revert i. induction elems as [|e elems IH]; intros i; simpl; [tauto|].
  intros [<-|Hin]; [exists i; split; [lia|reflexivity]|].
  apply IH in Hin as [j [Hle ->]]. exists j. split; [lia|reflexivity].
Qed.

(** The indices of an array or a string are enumerated in order. *)
Lemma object_repr_index_entries {node : Type} (elems : list node) (i : nat) :
  object_repr (index_entries i elems) = true.
Proof.
  unfold object_repr. revert i.
  induction elems as [|e elems IH]; intros i; [reflexivity|].
  specialize (IH (S i)). apply andb_prop in IH as [Hd Ho].
  simpl. rewrite Hd, Ho, !andb_true_r. apply andb_true_intro. split.
  - apply negb_true_iff.
    destruct (existsb (String.eqb (string_of_nat i))
                (keys (index_entries (S i) elems))) eqn:E; [|reflexivity].
    apply existsb_exists in E as [k [Hin Heq]]. apply String.eqb_eq in Heq.
    subst k. apply keys_index_entries in Hin as [j [Hle Hj]].
    apply string_of_nat_inj in Hj. lia.
  - apply forallb_forall. intros k Hin.
    apply keys_index_entries in Hin as [j [Hle ->]].
    apply key_before_string_of_nat. lia.
Qed.

(** ** The representation invariant *)

Lemma js_repr_field (fields : props json) (k : string) (v : json) :
  js_repr (JObj fields) = true -> In (k, v) fields -> js_repr v = true.
Proof.
  simpl. intros H Hin. apply andb_prop in H as [_ H].
  rewrite forallb_forall in H. now apply (H (k, v)).
Qed.

Lemma js_repr_fieldJ (v : json) (name : string) (x : json) :
  js_repr v = true -> fieldJ v name = Some x -> js_repr x = true.
Proof.
  unfold fieldJ, field. destruct v; simpl jview; cbn iota; try discriminate.
  intros H Hl. apply lookup_In in Hl. eapply js_repr_field; eassumption.
Qed.

Lemma object_repr_own_entries (x : json) :
  js_repr x = true -> object_repr (own_entries jview jalloc x) = true.
Proof.
  unfold own_entries. destruct x; simpl jview; cbn iota; try reflexivity.
  - intros _. apply object_repr_index_entries.
  - intros _. apply object_repr_index_entries.
  - simpl. intros H. now apply andb_prop in H as [H _].
Qed.

Lemma object_repr_entries_of (p : option json) :
  js_repr_opt p = true -> object_repr (entries_of p) = true.
Proof.
  unfold entries_of. destruct (truthyJ p); [|reflexivity].
  destruct p as [x|]; [|reflexivity]. apply object_repr_own_entries.
Qed.

Lemma js_repr_entries_of (p : option json) (k : string) (v : json) :
  js_repr_opt p = true -> In (k, v) (entries_of p) -> js_repr v = true.
Proof.
  unfold entries_of. destruct (truthyJ p); [|simpl; tauto].
  destruct p as [x|]; [|simpl; tauto].
  unfold own_entries. destruct x; simpl jview; cbn iota; try (simpl; tauto).
  - intros _ H. apply In_index_entries in H. apply In_chars in H as [c ->].
    reflexivity.
  - simpl. intros H Hin. apply In_index_entries in Hin.
    rewrite forallb_forall in H. now apply H.
  - intros H Hin. eapply js_repr_field; eassumption.
Qed.

Lemma js_repr_child_map (v : json) (p : option json) :
  js_repr v = true -> child_map jview v = Some p -> js_repr_opt p = true.
Proof.
  intros Hv. unfold child_map. fold fieldJ.
  destruct (strict_eq_string jview (fieldJ v "type") "object"
            && truthy jview (fieldJ v "properties")).
  - intros [= <-]. destruct (fieldJ v "properties") as [x|] eqn:E; simpl;
      [|reflexivity]. eapply js_repr_fieldJ; eassumption.
  - destruct (strict_eq_string jview (fieldJ v "type") "array"
              && truthy jview (fieldJ v "items")
              && match fieldJ v "items" with
                 | Some i => typeof_object jview i
                 | None => false
                 end); [|discriminate].
    destruct (fieldJ v "items") as [i|] eqn:Ei; [|discriminate].
    intros [= <-]. fold (fieldJ i "properties").
    destruct (fieldJ i "properties") as [x|] eqn:E; simpl; [|reflexivity].
    eapply js_repr_fieldJ; [|exact E]. eapply js_repr_fieldJ; eassumption.
Qed.

(** ** What one iteration leaves in [filtered] *)

Lemma own_set_prototype (t : object json) (v : json) :
  own (set_prototype jview t v) = own t.
Proof. unfold set_prototype. now destruct (jview v). Qed.

(** Lines 90-93 when no copy was placed. *)
Lemma place_direct_exact (t : object json) (k : string) (v : json) inc t' :
  has_own k (own t) = false ->
  forallb (fun k' => key_before k' k) (keys (own t)) = true ->
  (k = "__proto__" -> proto t = ObjectPrototype) ->
  place_direct jview t k v inc = Return t' ->
  own t' = own t ++ (if k =? "__proto__" then []
                     else if inc then [(k, v)] else []) /\
  (k <> "__proto__" -> proto t' = proto t).
Proof.
  intros Hfresh Hlast Hproto. unfold place_direct. destruct inc.
  2:{ intros [= <-]. split; [|reflexivity].
      destruct (k =? "__proto__"); now rewrite app_nil_r. }
  unfold call_hasOwnProperty.
  match goal with |- context [if ?c then _ else _] => destruct c end;
    [|discriminate].
  cbn [bind]. rewrite Hfresh. cbn [negb]. intros [= <-].
  unfold assign. destruct (String.eqb_spec k "__proto__") as [Hk|Hk]; cbn [negb].
  - rewrite Hfresh, (Hproto Hk). split; [|congruence].
    rewrite own_set_prototype. now rewrite app_nil_r.
  - simpl. split; [|reflexivity]. now apply obj_set_last.
Qed.

(** Lines 75/82 followed by lines 90-93, when a copy [c] is placed. *)
Lemma place_copy_exact (t : object json) (k : string) (v : json) cf t' :
  has_own k (own t) = false ->
  forallb (fun k' => key_before k' k) (keys (own t)) = true ->
  (k = "__proto__" -> proto t = ObjectPrototype) ->
  place_direct jview (assign jview t k (JObj cf)) k v true = Return t' ->
  own t' = own t ++ (if k =? "__proto__"
                     then if has_own "__proto__" cf then [(k, v)] else []
                     else [(k, JObj cf)]) /\
  (k <> "__proto__" -> proto t' = proto t).
Proof.
  intros Hfresh Hlast Hproto.
  destruct (String.eqb_spec k "__proto__") as [Hk|Hk].
  - subst k. specialize (Hproto eq_refl).
    unfold place_direct, call_hasOwnProperty, assign.
    change ("__proto__" =? "__proto__") with true. cbn [negb].
    rewrite Hfresh, Hproto. cbn [set_prototype jview own proto].
    unfold has_own_property. cbn [jview].
    match goal with |- context [if ?c then _ else _] => destruct c end;
      [|discriminate].
    cbn [bind]. rewrite Hfresh. cbn [negb].
    destruct (has_own "__proto__" cf); intros [= <-]; (split; [|congruence]).
    + cbn [own]. now apply obj_set_last.
    + rewrite own_set_prototype. cbn [own]. now rewrite app_nil_r.
  - unfold place_direct, call_hasOwnProperty, assign.
    apply String.eqb_neq in Hk. rewrite Hk. cbn [negb own proto].
    rewrite obj_set_last by assumption.
    match goal with |- context [if ?c then _ else _] => destruct c end;
      [|discriminate].
    cbn [bind]. rewrite has_own_app. simpl has_own at 2.
    rewrite String.eqb_refl, orb_true_r. cbn [negb].
    intros [= <-]. split; reflexivity.
Qed.

(** ** The loop computes [filtered_entries] *)

Lemma filtered_entries_nil fuel q : filtered_entries fuel q [] = [].
Proof. now destruct fuel. Qed.

Lemma children_some (v : json) (p : option json) :
  child_map jview v = Some p -> children v = entries_of p.
Proof. unfold children. now intros ->. Qed.

Lemma children_none (v : json) : child_map jview v = None -> children v = [].
Proof. unfold children. now intros ->. Qed.

Lemma with_children_object (v : json) (p : option json) (c : json) :
  child_map jview v = Some p ->
  exists cf, with_children jview jalloc v c = JObj cf.
Proof.
  unfold child_map, with_children.
  destruct (strict_eq_string jview (field jview v "type") "object"
            && truthy jview (field jview v "properties")).
  - intros _. eexists. reflexivity.
  - destruct (strict_eq_string jview (field jview v "type") "array"
              && truthy jview (field jview v "items")
              && match field jview v "items" with
                 | Some i => typeof_object jview i
                 | None => false
                 end); [|discriminate].
    destruct (field jview v "items") as [i|]; [|discriminate].
    intros _. eexists. reflexivity.
Qed.

Lemma js_direct_include q k v inc :
  include_of jview q k v = Return inc -> js_direct q k v = inc.
Proof. unfold js_direct. now intros ->. Qed.

Lemma filterEntry_refines fuel q d t m k v t' m' :
  refines_at fuel q ->
  js_repr v = true ->
  has_own k (own t) = false ->
  forallb (fun k' => key_before k' k) (keys (own t)) = true ->
  (k = "__proto__" -> proto t = ObjectPrototype) ->
  filterEntry jview jalloc (filterPropertiesJ fuel q) q d (t, m) (k, v)
    = Return (t', m') ->
  own t' = own t ++ kept q (filtered_entries fuel q (children v)) (k, v) /\
  (k <> "__proto__" -> proto t' = proto t).
Proof.
  intros IHf Hv Hfresh Hlast Hproto. rewrite filterEntry_eq.
  destruct (include_of jview q k v) as [inc| |] eqn:Ei; cbn [bind];
    try discriminate.
  apply js_direct_include in Ei.
  destruct (get jview v "type") as [ty| |]; cbn [bind]; try discriminate.
  cbv zeta. unfold kept.
  destruct (child_map jview v) as [p|] eqn:Ec.
  - rewrite (children_some _ _ Ec).
    destruct (filterPropertiesJ fuel q p (d + 1) (raise_depth inc d m))
      as [[fc m2]| |] eqn:Er; cbn [bind]; try discriminate.
    rewrite <- (IHf _ _ _ _ _ (js_repr_child_map _ _ Hv Ec) Er).
    unfold keys. rewrite length_map.
    destruct (0 <? List.length (own fc))%nat eqn:En.
    + destruct (with_children_object v p (as_node jalloc fc) Ec) as [cf Hcf].
      unfold as_node in Hcf. cbn [jalloc] in Hcf. unfold as_node. cbn [jalloc].
      rewrite Hcf.
      match goal with
      | |- context [place_direct jview ?o k v true] =>
          destruct (place_direct jview o k v true) as [t1| |] eqn:Ep
      end; cbn [bind]; try discriminate.
      intros [= <- <-].
      unfold has_own_property. cbn [jview andb].
      now apply place_copy_exact.
    + destruct (place_direct jview t k v inc) as [t1| |] eqn:Ep; cbn [bind];
        try discriminate.
      intros [= <- <-]. cbn [andb]. rewrite Ei.
      now apply place_direct_exact.
  - rewrite (children_none _ Ec), filtered_entries_nil. cbn [List.length].
    change (0 <? 0)%nat with false. cbn [andb].
    destruct (place_direct jview t k v inc) as [t1| |] eqn:Ep; cbn [bind];
      try discriminate.
    intros [= <- <-]. rewrite Ei. now apply place_direct_exact.
Qed.

Lemma kept_keys q sub k v k' :
  In k' (keys (kept q sub (k, v))) -> k' = k.
Proof.
  unfold kept.
  repeat match goal with
         | |- context [if ?c then _ else _] => destruct c
         end; simpl; intuition.
Qed.

Lemma for_of_refines fuel q d post :
  refines_at fuel q ->
  forall pre t m t' m',
    object_repr (pre ++ post) = true ->
    (forall kv, In kv post -> js_repr (snd kv) = true) ->
    (forall k, In k (keys (own t)) -> In k (keys pre)) ->
    (In "__proto__" (keys post) -> proto t = ObjectPrototype) ->
    for_of post (filterEntry jview jalloc (filterPropertiesJ fuel q) q d) (t, m)
      = Return (t', m') ->
    own t' = own t ++
             flat_map (fun kv => kept q (filtered_entries fuel q (children (snd kv))) kv)
                      post.
Proof.
  intros IHf. induction post as [|[k v] post IH];
    intros pre t m t' m' Hrepr Hvals Hkeys Hproto; cbn [for_of flat_map].
  - intros [= <- <-]. now rewrite app_nil_r.
  - destruct (filterEntry jview jalloc (filterPropertiesJ fuel q) q d (t, m) (k, v))
      as [[t1 m1]| |] eqn:Ee; cbn [bind]; try discriminate.
    destruct (object_repr_app_cons _ _ _ _ Hrepr) as [Hfresh Hlast].
    assert (Hfresh' : has_own k (own t) = false).
    { apply has_own_false. intros Hin. apply Hkeys in Hin.
      apply has_own_false in Hfresh. contradiction. }
    assert (Hlast' : forallb (fun k' => key_before k' k) (keys (own t)) = true).
    { apply forallb_forall. intros k' Hin. apply Hkeys in Hin.
      rewrite forallb_forall in Hlast. now apply Hlast. }
    apply filterEntry_refines in Ee; try assumption.
    + destruct Ee as [Hown Hp]. intros Hrest.
      apply (IH (pre ++ [(k, v)]) t1 m1 t' m') in Hrest.
      * rewrite Hrest, Hown, <- app_assoc. reflexivity.
      * now rewrite <- app_assoc.
      * intros kv Hin. apply Hvals. now right.
      * intros k' Hin. rewrite Hown, keys_app in Hin. rewrite keys_app.
        apply in_app_or in Hin as [Hin|Hin]; apply in_or_app.
        -- left. now apply Hkeys.
        -- right. apply kept_keys in Hin. subst. now left.
      * intros Hin. rewrite Hp.
        -- apply Hproto. now right.
        -- intros ->. unfold object_repr in Hrepr. rewrite keys_app in Hrepr.
           apply andb_prop in Hrepr as [Hd _]. apply nodup_keys_NoDup in Hd.
           apply NoDup_remove_2 in Hd. apply Hd. apply in_or_app. now right.
    + apply (Hvals (k, v)). now left.
    + intros ->. apply Hproto. now left.
Qed.

(** [filterProperties] returns the entries that [filtered_entries] lists. *)
Lemma filterProperties_refines fuel q : refines_at fuel q.
Proof.
  induction fuel as [|fuel IH]; intros p d m fc m2 Hp; [discriminate|].
  unfold filterPropertiesJ. cbn [filterProperties].
  unfold entries_of, truthyJ.
  destruct (truthy jview p) eqn:Et; cbn [negb].
  - destruct p as [x|]; [|discriminate]. intros Hr.
    assert (He : own_entries jview jalloc x = entries_of (Some x))
      by (unfold entries_of, truthyJ; now rewrite Et).
    apply (@for_of_refines fuel q d (own_entries jview jalloc x) IH []
             (empty_object json) m fc m2); try exact Hr.
    + simpl. rewrite He. now apply object_repr_entries_of.
    + intros [k v] Hin. apply (js_repr_entries_of (Some x) k); [exact Hp|].
      now rewrite <- He.
    + simpl. tauto.
    + reflexivity.
  - intros [= <- <-]. reflexivity.
Qed.

(** ** The nodes of a tree *)

Lemma flat_map_ext_In {A B : Type} (f g : A -> list B) (l : list A) :
  (forall a, In a l -> f a = g a) -> flat_map f l = flat_map g l.
Proof.
  induction l as [|a l IH]; intros H; simpl; [reflexivity|].
  rewrite (H a) by now left. rewrite IH; [reflexivity|].
  intros a' Hin. apply H. now right.
Qed.

Lemma forallb_map_In {A B : Type} (f : B -> bool) (g : A -> bool) (h : A -> B)
    (l : list A) :
  (forall a, In a l -> f (h a) = g a) -> forallb f (map h l) = forallb g l.
Proof.
  induction l as [|a l IH]; intros H; simpl; [reflexivity|].
  rewrite (H a) by now left. rewrite IH; [reflexivity|].
  intros a' Hin. apply H. now right.
Qed.

Lemma height_props_le (es : props json) (h : nat) :
  height_props es <= h <-> (forall k v, In (k, v) es -> height v <= h).
Proof.
  unfold height_props. induction es as [|[k v] es IH]; simpl.
  - split; [tauto|lia].
  - split.
    + intros H k' v' [[= <- <-]|Hin]; [lia|]. apply IH in Hin; lia.
    + intros H. apply Nat.max_lub.
      * apply (H k v). now left.
      * apply IH. intros k' v' Hin. apply (H k' v'). now right.
Qed.

Lemma height_props_entries_of (p : option json) :
  height_props (entries_of p) <= height_opt p.
Proof. apply height_props_le. intros k v. apply entries_of_height. Qed.

Lemma children_height (v : json) : height_props (children v) < height v.
Proof.
  unfold children. destruct (child_map jview v) as [p|] eqn:E.
  - apply child_map_height in E. pose proof (height_props_entries_of p). lia.
  - simpl. pose proof (height_pos v). lia.
Qed.

Lemma nodes_from_stable (f1 f2 : nat) (es : props json) :
  height_props es <= f1 -> height_props es <= f2 ->
  nodes_from f1 es = nodes_from f2 es.
Proof.
  revert f2 es. induction f1 as [|f1 IH]; intros f2 es H1 H2.
  - destruct es as [|[k v] es]; [now destruct f2|].
    simpl in H1. pose proof (height_pos v). lia.
  - destruct f2 as [|f2].
    + destruct es as [|[k v] es]; [reflexivity|].
      simpl in H2. pose proof (height_pos v). lia.
    + simpl. apply flat_map_ext_In. intros [k v] Hin. simpl. f_equal. f_equal.
      rewrite height_props_le in H1, H2.
      pose proof (children_height v).
      specialize (H1 _ _ Hin). specialize (H2 _ _ Hin).
      apply IH; lia.
Qed.

Lemma nodes_nil : nodes [] = [].
Proof. reflexivity. Qed.

(** The nodes under a list of entries: each entry, then the nodes under
    its children, one key deeper. *)
Lemma nodes_cons (k : string) (v : json) (es : props json) :
  nodes ((k, v) :: es) =
  ([k], v) :: map (fun n => (k :: fst n, snd n)) (nodes (children v)) ++ nodes es.
Proof.
  unfold nodes at 1.
  pose proof (height_pos v) as Hv. pose proof (children_height v) as Hc.
  assert (Hh : height_props ((k, v) :: es) = Nat.max (height v) (height_props es))
    by reflexivity.
  destruct (height_props ((k, v) :: es)) as [|f] eqn:E; [lia|].
  cbn [nodes_from flat_map fst snd].
  change (flat_map _ es) with (nodes_from (S f) es).
  rewrite <- app_comm_cons. f_equal. f_equal.
  - f_equal. unfold nodes. apply nodes_from_stable; lia.
  - unfold nodes. apply nodes_from_stable; lia.
Qed.

Lemma nodes_app (es1 es2 : props json) : nodes (es1 ++ es2) = nodes es1 ++ nodes es2.
Proof.
  induction es1 as [|[k v] es1 IH]; [reflexivity|].
  simpl app. rewrite !nodes_cons, IH. simpl. now rewrite app_assoc.
Qed.

Lemma nodes_path_nonempty (es : props json) (n : list string * json) :
  In n (nodes es) -> fst n <> [].
Proof.
  induction es as [|[k v] es IH]; [simpl; tauto|].
  rewrite nodes_cons. intros [<-|Hin]; [discriminate|].
  apply in_app_or in Hin as [Hin|Hin]; [|now apply IH].
  apply in_map_iff in Hin as [n' [<- _]]. discriminate.
Qed.

(** [nodes] lists the tree that [node_at] describes. *)
Lemma nodes_node_at (es : props json) (path : list string) (x : json) :
  In (path, x) (nodes es) <-> node_at es path x.
Proof.
  remember (height_props es) as h eqn:Hh.
  assert (Hle : height_props es <= h) by lia. clear Hh.
  revert es path x Hle. induction h as [|h IH]; intros es path x Hle.
  - destruct es as [|[k v] es].
    + split; [simpl; tauto|]. inversion 1; subst; simpl in *; tauto.
    + simpl in Hle. pose proof (height_pos v). lia.
  - induction es as [|[k v] es IHes].
    + split; [simpl; tauto|]. inversion 1; subst; simpl in *; tauto.
    + assert (Hes : height_props es <= S h) by (simpl in Hle; lia).
      assert (Hc : height_props (children v) <= h).
      { pose proof (children_height v). simpl in Hle. lia. }
      specialize (IHes Hes). rewrite nodes_cons. split.
      * intros [[= <- <-]|Hin]; [constructor; now left|].
        apply in_app_or in Hin as [Hin|Hin].
        -- apply in_map_iff in Hin as [[p y] [[= <- <-] Hin]].
           apply (IH _ _ _ Hc) in Hin.
           eapply node_below; [left; reflexivity|exact Hin].
        -- apply IHes in Hin. inversion Hin; subst.
           ++ constructor. now right.
           ++ eapply node_below; [right; eassumption|assumption].
      * intros Hn. inversion Hn as [? k' v' Hin|? k' v' path' x' Hin Hsub]; subst.
        -- destruct Hin as [[= <- <-]|Hin]; [now left|].
           right. apply in_or_app. right. apply IHes. now constructor.
        -- destruct Hin as [[= <- <-]|Hin].
           ++ right. apply in_or_app. left.
              apply in_map_iff. exists (path', x). split; [reflexivity|].
              now apply (IH _ _ _ Hc).
           ++ right. apply in_or_app. right. apply IHes.
              eapply node_below; eassumption.
Qed.

Lemma node_key_cons (k : string) (n : list string * json) :
  fst n <> [] -> node_key (k :: fst n, snd n) = node_key n.
Proof.
  unfold node_key. simpl. destruct (fst n); [congruence|reflexivity].
Qed.

Lemma node_depth_cons (k : string) (n : list string * json) :
  fst n <> [] -> node_depth (k :: fst n, snd n) = S (node_depth n).
Proof.
  unfold node_depth. simpl. destruct (fst n); [congruence|reflexivity].
Qed.

(** A predicate on keys and values holds of all nodes of a list of entries
    when it holds of each entry and of the nodes under it. *)
Lemma forallb_nodes_cons (f : string -> json -> bool) k v es :
  forallb (fun n => f (node_key n) (snd n)) (nodes ((k, v) :: es)) =
  f k v && forallb (fun n => f (node_key n) (snd n)) (nodes (children v))
        && forallb (fun n => f (node_key n) (snd n)) (nodes es).
Proof.
  rewrite nodes_cons. cbn [forallb]. rewrite forallb_app.
  change (node_key ([k], v)) with k. cbn [snd]. rewrite <- andb_assoc.
  f_equal. f_equal.
  apply forallb_map_In.
  intros n Hin. apply nodes_path_nonempty in Hin.
  now rewrite node_key_cons.
Qed.

(** ** When the filter returns *)

Lemma forallb_nodes_In (f : string -> json -> bool) es k v :
  forallb (fun n => f (node_key n) (snd n)) (nodes es) = true ->
  In (k, v) es ->
  f k v = true /\
  forallb (fun n => f (node_key n) (snd n)) (nodes (children v)) = true.
Proof.
  induction es as [|[k' v'] es IH]; [simpl; tauto|].
  rewrite forallb_nodes_cons, !andb_true_iff.
  intros [[Hf Hc] Hes] [[= <- <-]|Hin]; [now split|now apply IH].
Qed.

Lemma schema_ok_In es k v :
  schema_ok es = true -> In (k, v) es ->
  node_ok v = true /\ schema_ok (children v) = true.
Proof. apply (forallb_nodes_In (fun _ v => node_ok v)). Qed.

Lemma plain_keys_In es k v :
  plain_keys es = true -> In (k, v) es ->
  plain_key k = true /\ plain_keys (children v) = true.
Proof. apply (forallb_nodes_In (fun k _ => plain_key k)). Qed.

Lemma keys_obj_insert_index {A : Type} (o : props A) n k v k' :
  In k' (keys (obj_insert_index n k v o)) <-> k' = k \/ In k' (keys o).
Proof.
  induction o as [|[k0 v0] o IH]; simpl; [intuition|].
  destruct (array_index k0) as [m|]; [destruct (m <? n)%N|]; simpl;
    rewrite ?IH; intuition.
Qed.

Lemma keys_obj_set {A : Type} (o : props A) k v k' :
  In k' (keys (obj_set o k v)) <-> k' = k \/ In k' (keys o).
Proof.
  unfold obj_set. destruct (has_own k o) eqn:E.
  - rewrite keys_obj_replace by exact E. apply has_own_In in E.
    split; [tauto|]. intros [->|H]; assumption.
  - destruct (array_index k).
    + apply keys_obj_insert_index.
    + rewrite keys_app. simpl. rewrite in_app_iff. simpl. intuition.
Qed.

Lemma has_own_obj_set {A : Type} (o : props A) k v k' :
  k' <> k -> has_own k' (obj_set o k v) = has_own k' o.
Proof.
  intros Hne. destruct (has_own k' o) eqn:E.
  - apply has_own_In. apply keys_obj_set. right. now apply has_own_In.
  - apply has_own_false. rewrite keys_obj_set. apply has_own_false in E.
    tauto.
Qed.

Lemma includes_empty (s : string) : includes s "" = true.
Proof. destruct s; reflexivity. Qed.

Lemma get_not_null (v : json) (name : string) :
  v <> JNull -> get jview v name = Return (fieldJ v name).
Proof. unfold get, fieldJ, field. destruct v; try reflexivity. congruence. Qed.

(** On a well-typed node line 66 computes the direct match. *)
Lemma include_of_node_ok q k v :
  node_ok v = true -> include_of jview q k v = Return (direct_match q k v).
Proof.
  unfold node_ok, include_of, direct_match. intros Hok.
  destruct (includes k q) eqn:Ek; [reflexivity|]. cbn [orb].
  assert (Hq : q <> "") by (intros ->; now rewrite includes_empty in Ek).
  rewrite get_not_null by (intros ->; discriminate). cbn [bind].
  assert (Hd : match fieldJ v "description" with
               | Some (JStr _) | None => True
               | Some _ => False
               end).
  { destruct v; try discriminate;
      destruct (fieldJ _ "description") as [[ | | | | | ]|]; try discriminate;
      exact I. }
  destruct (fieldJ v "description") as [[ | | |ds| | ]|]; try contradiction;
    [|reflexivity].
  cbn [truthy jview]. destruct (String.eqb_spec ds ""); cbn [negb];
    [subst ds; destruct q; [congruence|reflexivity]|reflexivity].
Qed.

Lemma pristine_assign t k v :
  plain_key k = true -> pristine t -> pristine (assign jview t k v).
Proof.
  unfold plain_key, pristine, assign. intros Hk [Hp Hh].
  apply andb_prop in Hk as [Hk1 Hk2]. rewrite Hk1. cbn [own proto].
  split; [exact Hp|]. rewrite has_own_obj_set; [exact Hh|].
  intros <-. now rewrite String.eqb_refl in Hk2.
Qed.

Lemma place_direct_pristine t k v inc :
  plain_key k = true -> pristine t ->
  exists t', place_direct jview t k v inc = Return t' /\ pristine t'.
Proof.
  intros Hk Ht. unfold place_direct. destruct inc; [|now exists t].
  unfold call_hasOwnProperty. destruct Ht as [Hp Hh]. rewrite Hh, Hp.
  cbn [negb andb bind].
  destruct (negb (has_own k (own t))); eexists; (split; [reflexivity|]).
  - apply pristine_assign; [exact Hk|now split].
  - now split.
Qed.

Lemma filterEntry_returns q fuel d t m k v :
  (forall p d m, schema_ok (entries_of p) = true ->
                 plain_keys (entries_of p) = true ->
                 height_opt p < fuel ->
                 exists r, filterPropertiesJ fuel q p d m = Return r) ->
  plain_key k = true -> node_ok v = true ->
  schema_ok (children v) = true -> plain_keys (children v) = true ->
  height v <= fuel -> pristine t ->
  exists t' m',
    filterEntry jview jalloc (filterPropertiesJ fuel q) q d (t, m) (k, v)
      = Return (t', m') /\ pristine t'.
Proof.
  intros IH Hk Hv Hsc Hpc Hh Ht. rewrite filterEntry_eq.
  rewrite include_of_node_ok by exact Hv. cbn [bind].
  rewrite get_not_null by (intros ->; discriminate). cbn [bind]. cbv zeta.
  destruct (child_map jview v) as [p|] eqn:Ec.
  - rewrite (children_some _ _ Ec) in Hsc, Hpc.
    pose proof (child_map_height _ _ Ec) as Hlt.
    destruct (IH p (d + 1) (raise_depth (direct_match q k v) d m) Hsc Hpc)
      as [[fc m2] Hr]; [lia|].
    rewrite Hr. cbn [bind].
    destruct (0 <? List.length (keys (own fc)))%nat.
    + match goal with
      | |- context [place_direct jview ?o k v true] =>
          destruct (@place_direct_pristine o k v true Hk) as [t' [Hp Ht']]
      end; [now apply pristine_assign|].
      rewrite Hp. cbn [bind]. now exists t', m2.
    + destruct (@place_direct_pristine t k v (direct_match q k v) Hk Ht)
        as [t' [Hp Ht']].
      rewrite Hp. cbn [bind]. now exists t', m2.
  - destruct (@place_direct_pristine t k v (direct_match q k v) Hk Ht)
      as [t' [Hp Ht']].
    rewrite Hp. cbn [bind]. eexists _, _. split; [reflexivity|exact Ht'].
Qed.

Lemma for_of_returns q fuel d es :
  (forall p d m, schema_ok (entries_of p) = true ->
                 plain_keys (entries_of p) = true ->
                 height_opt p < fuel ->
                 exists r, filterPropertiesJ fuel q p d m = Return r) ->
  schema_ok es = true -> plain_keys es = true -> height_props es <= fuel ->
  forall t m, pristine t ->
    exists r, for_of es (filterEntry jview jalloc (filterPropertiesJ fuel q) q d)
                (t, m) = Return r.
Proof.
  intros IH. induction es as [|[k v] es IHes]; intros Hs Hp Hh t m Ht;
    cbn [for_of]; [now eexists|].
  destruct (schema_ok_In _ k v Hs (or_introl eq_refl)) as [Hv Hsc].
  destruct (plain_keys_In _ k v Hp (or_introl eq_refl)) as [Hk Hpc].
  unfold schema_ok, plain_keys in Hs, Hp.
  rewrite (forallb_nodes_cons (fun _ v => node_ok v)) in Hs.
  rewrite (forallb_nodes_cons (fun k _ => plain_key k)) in Hp.
  apply andb_prop in Hs as [_ Hs]. apply andb_prop in Hp as [_ Hp].
  simpl in Hh.
  destruct (@filterEntry_returns q fuel d t m k v IH Hk Hv Hsc Hpc)
    as [t' [m' [He Ht']]]; [lia|exact Ht|].
  rewrite He. cbn [bind]. apply IHes; [exact Hs|exact Hp|lia|exact Ht'].
Qed.

(** A schema of well-typed nodes with ordinary property names is filtered
    without an error. *)
Lemma filterProperties_returns q fuel p d m :
  schema_ok (entries_of p) = true -> plain_keys (entries_of p) = true ->
  height_opt p < fuel ->
  exists r, filterPropertiesJ fuel q p d m = Return r.
Proof.
  revert p d m. induction fuel as [|fuel IH]; intros p d m Hs Hp Hh; [lia|].
  unfold filterPropertiesJ. cbn [filterProperties].
  destruct (truthy jview p) eqn:Et; cbn [negb]; [|now eexists].
  destruct p as [x|]; [|now eexists].
  assert (He : own_entries jview jalloc x = entries_of (Some x))
    by (unfold entries_of, truthyJ; now rewrite Et).
  rewrite He. apply for_of_returns; try assumption.
  - pose proof (height_props_entries_of (Some x)). simpl in *. lia.
  - split; reflexivity.
Qed.

(** ** The depth counter *)

Lemma max_direct_depth_deepest q es : max_direct_depth q es = deepest_match q 0 es.
Proof. reflexivity. Qed.

Lemma deepest_match_nil q d : deepest_match q d [] = 0.
Proof. reflexivity. Qed.

Lemma deepest_match_cons q d k v es :
  deepest_match q d ((k, v) :: es) =
  Nat.max (if direct_match q k v then d else 0)
          (Nat.max (deepest_match q (S d) (children v)) (deepest_match q d es)).
Proof.
  unfold deepest_match. rewrite nodes_cons. cbn [filter].
  change (node_key ([k], v)) with k. cbn [snd].
  rewrite filter_app.
  assert (Hsub :
    map (fun n => d + node_depth n)
      (filter (fun n => direct_match q (node_key n) (snd n))
         (map (fun n => (k :: fst n, snd n)) (nodes (children v)))) =
    map (fun n => S d + node_depth n)
      (filter (fun n => direct_match q (node_key n) (snd n))
         (nodes (children v)))).
  { pose proof (nodes_path_nonempty (children v)) as Hne.
    induction (nodes (children v)) as [|n l IH]; [reflexivity|].
    cbn [map filter]. rewrite node_key_cons by (apply Hne; now left).
    cbn [snd].
    destruct (direct_match q (node_key n) (snd n)); cbn [map].
    - rewrite node_depth_cons by (apply Hne; now left).
      rewrite IH by (intros n' Hin; apply Hne; now right).
      f_equal. lia.
    - apply IH. intros n' Hin. apply Hne. now right. }
  destruct (direct_match q k v); cbn [map]; rewrite map_app, Hsub.
  - change (node_depth ([k], v)) with 0. rewrite Nat.add_0_r.
    change (list_max (d :: ?l)) with (Nat.max d (list_max l)).
    now rewrite list_max_app.
  - now rewrite list_max_app.
Qed.

Lemma raise_depth_as_max inc d m :
  raise_depth inc d m = Nat.max m (if inc then d else 0).
Proof.
  unfold raise_depth. destruct inc; cbn [andb]; [|lia].
  destruct (Nat.ltb_spec m d); lia.
Qed.

Lemma filterEntry_counts q fuel d t m k v t' m' :
  counts_at fuel q ->
  node_ok v = true -> schema_ok (children v) = true ->
  filterEntry jview jalloc (filterPropertiesJ fuel q) q d (t, m) (k, v)
    = Return (t', m') ->
  m' = Nat.max m (Nat.max (if direct_match q k v then d else 0)
                          (deepest_match q (S d) (children v))).
Proof.
  intros IH Hv Hsc. rewrite filterEntry_eq.
  rewrite include_of_node_ok by exact Hv. cbn [bind].
  rewrite get_not_null by (intros ->; discriminate). cbn [bind]. cbv zeta.
  rewrite raise_depth_as_max.
  destruct (child_map jview v) as [p|] eqn:Ec.
  - rewrite (children_some _ _ Ec) in *.
    destruct (filterPropertiesJ fuel q p (d + 1) _) as [[fc m2]| |] eqn:Er;
      cbn [bind]; try discriminate.
    apply IH in Er; [|exact Hsc]. rewrite Nat.add_1_r in Er.
    destruct (0 <? List.length (keys (own fc)))%nat.
    + match goal with
      | |- context [place_direct jview ?o k v true] =>
          destruct (place_direct jview o k v true)
      end; cbn [bind]; try discriminate. intros [= <- <-]. lia.
    + destruct (place_direct jview t k v _); cbn [bind]; try discriminate.
      intros [= <- <-]. lia.
  - rewrite (children_none _ Ec), deepest_match_nil.
    destruct (place_direct jview t k v _); cbn [bind]; try discriminate.
    intros [= <- <-]. lia.
Qed.

Lemma for_of_counts q fuel d es :
  counts_at fuel q ->
  schema_ok es = true ->
  forall t m t' m',
    for_of es (filterEntry jview jalloc (filterPropertiesJ fuel q) q d) (t, m)
      = Return (t', m') ->
    m' = Nat.max m (deepest_match q d es).
Proof.
  intros IH. induction es as [|[k v] es IHes]; intros Hs t m t' m';
    cbn [for_of].
  - intros [= <- <-]. rewrite deepest_match_nil. lia.
  - destruct (schema_ok_In _ k v Hs (or_introl eq_refl)) as [Hv Hsc].
    unfold schema_ok in Hs.
    rewrite (forallb_nodes_cons (fun _ v => node_ok v)) in Hs.
    apply andb_prop in Hs as [_ Hs].
    destruct (filterEntry jview jalloc (filterPropertiesJ fuel q) q d (t, m) (k, v))
      as [[t1 m1]| |] eqn:Ee; cbn [bind]; try discriminate.
    apply filterEntry_counts in Ee; try assumption.
    intros Hr. apply (IHes Hs) in Hr.
    rewrite deepest_match_cons. lia.
Qed.

(** [maxDepth] is raised to the depth of the deepest direct match. *)
Lemma filterProperties_counts q fuel : counts_at fuel q.
Proof.
  induction fuel as [|fuel IH]; intros p d m F m' Hs; [discriminate|].
  unfold filterPropertiesJ. cbn [filterProperties].
  destruct (truthy jview p) eqn:Et; cbn [negb].
  - destruct p as [x|]; [|discriminate].
    assert (He : own_entries jview jalloc x = entries_of (Some x))
      by (unfold entries_of, truthyJ; now rewrite Et).
    rewrite He. now apply for_of_counts.
  - assert (He : entries_of p = [])
      by (unfold entries_of, truthyJ; now rewrite Et).
    intros [= <- <-]. rewrite He, deepest_match_nil. lia.
Qed.

(** A direct match makes line 66 return [true], whatever else the node
    holds. *)
Lemma direct_match_include q k v :
  direct_match q k v = true -> include_of jview q k v = Return true.
Proof.
  unfold direct_match, include_of.
  destruct (includes k q) eqn:Ek; [reflexivity|]. cbn [orb].
  assert (Hq : q <> "") by (intros ->; now rewrite includes_empty in Ek).
  unfold fieldJ, field, get.
  destruct v; simpl jview; cbn iota; try discriminate. cbn [bind].
  destruct (lookup "description" fields) as [[ | | |ds| | ]|]; try discriminate.
  intros Hs. cbn [truthy jview].
  destruct (String.eqb_spec ds "") as [->|Hne]; cbn [negb].
  - destruct q; [congruence|discriminate].
  - unfold call_includes. cbn [jview]. now rewrite Hs.
Qed.

Lemma filterEntry_reaches q fuel d t m k v t' m' :
  reaches_at fuel q ->
  filterEntry jview jalloc (filterPropertiesJ fuel q) q d (t, m) (k, v)
    = Return (t', m') ->
  Nat.max m (Nat.max (if direct_match q k v then d else 0)
                     (deepest_match q (S d) (children v))) <= m'.
Proof.
  intros IH. rewrite filterEntry_eq.
  destruct (include_of jview q k v) as [inc| |] eqn:Ei; cbn [bind];
    try discriminate.
  assert (Hinc : (if direct_match q k v then d else 0) <= (if inc then d else 0)).
  { destruct (direct_match q k v) eqn:Ed; [|lia].
    apply direct_match_include in Ed. rewrite Ed in Ei. now injection Ei as <-. }
  destruct (get jview v "type"); cbn [bind]; try discriminate. cbv zeta.
  rewrite raise_depth_as_max.
  destruct (child_map jview v) as [p|] eqn:Ec.
  - rewrite (children_some _ _ Ec).
    destruct (filterPropertiesJ fuel q p (d + 1) _) as [[fc m2]| |] eqn:Er;
      cbn [bind]; try discriminate.
    apply IH in Er. rewrite Nat.add_1_r in Er.
    destruct (0 <? List.length (keys (own fc)))%nat.
    + match goal with
      | |- context [place_direct jview ?o k v true] =>
          destruct (place_direct jview o k v true)
      end; cbn [bind]; try discriminate. intros [= <- <-]. lia.
    + destruct (place_direct jview t k v _); cbn [bind]; try discriminate.
      intros [= <- <-]. lia.
  - rewrite (children_none _ Ec), deepest_match_nil.
    destruct (place_direct jview t k v _); cbn [bind]; try discriminate.
    intros [= <- <-]. lia.
Qed.

Lemma for_of_reaches q fuel d es :
  reaches_at fuel q ->
  forall t m t' m',
    for_of es (filterEntry jview jalloc (filterPropertiesJ fuel q) q d) (t, m)
      = Return (t', m') ->
    Nat.max m (deepest_match q d es) <= m'.
Proof.
  intros IH. induction es as [|[k v] es IHes]; intros t m t' m'; cbn [for_of].
  - intros [= <- <-]. rewrite deepest_match_nil. lia.
  - destruct (filterEntry jview jalloc (filterPropertiesJ fuel q) q d (t, m) (k, v))
      as [[t1 m1]| |] eqn:Ee; cbn [bind]; try discriminate.
    apply filterEntry_reaches in Ee; [|exact IH].
    intros Hr. apply IHes in Hr. rewrite deepest_match_cons. lia.
Qed.

(** Whatever the schema, [maxDepth] ends at or above every direct match. *)
Lemma filterProperties_reaches q fuel : reaches_at fuel q.
Proof.
  induction fuel as [|fuel IH]; intros p d m F m'; [discriminate|].
  unfold filterPropertiesJ. cbn [filterProperties].
  destruct (truthy jview p) eqn:Et; cbn [negb].
  - destruct p as [x|]; [|discriminate].
    assert (He : own_entries jview jalloc x = entries_of (Some x))
      by (unfold entries_of, truthyJ; now rewrite Et).
    rewrite He. now apply for_of_reaches.
  - assert (He : entries_of p = [])
      by (unfold entries_of, truthyJ; now rewrite Et).
    intros [= <- <-]. rewrite He, deepest_match_nil. lia.
Qed.

(** ** The result does not depend on the depth or on the counter *)

Section DepthIrrelevance.
Variable node : Type.
Variable view : node -> shape node.
Variable alloc : shape node -> node.

Lemma filterEntry_depth_irrelevant (self : call node) q d m d2 m2 t e t' m' :
  (forall p d m F m', self p d m = Return (F, m') ->
     forall d2 m2, exists m2', self p d2 m2 = Return (F, m2')) ->
  filterEntry view alloc self q d (t, m) e = Return (t', m') ->
  exists m2', filterEntry view alloc self q d2 (t, m2) e = Return (t', m2').
Proof.
  intros IH. destruct e as [k v]. rewrite !filterEntry_eq.
  destruct (include_of view q k v) as [inc| |]; cbn [bind]; try discriminate.
  destruct (get view v "type"); cbn [bind]; try discriminate. cbv zeta.
  destruct (child_map view v) as [p|].
  - destruct (self p (d + 1) _) as [[fc x]| |] eqn:Er; cbn [bind];
      try discriminate.
    destruct (IH _ _ _ _ _ Er (d2 + 1) (raise_depth inc d2 m2)) as [x2 Hr2].
    rewrite Hr2. cbn [bind].
    destruct (0 <? List.length (keys (own fc)))%nat.
    + match goal with
      | |- context [place_direct view ?o k v true] =>
          destruct (place_direct view o k v true)
      end; cbn [bind]; try discriminate.
      intros [= <- <-]. now eexists.
    + destruct (place_direct view t k v inc); cbn [bind]; try discriminate.
      intros [= <- <-]. now eexists.
  - destruct (place_direct view t k v inc); cbn [bind]; try discriminate.
    intros [= <- <-]. now eexists.
Qed.

Lemma for_of_depth_irrelevant (self : call node) q d d2 es :
  (forall p d m F m', self p d m = Return (F, m') ->
     forall d2 m2, exists m2', self p d2 m2 = Return (F, m2')) ->
  forall t m m2 t' m',
    for_of es (filterEntry view alloc self q d) (t, m) = Return (t', m') ->
    exists m2', for_of es (filterEntry view alloc self q d2) (t, m2)
                = Return (t', m2').
Proof.
  intros IH. induction es as [|e es IHes]; intros t m m2 t' m'; cbn [for_of].
  - intros [= <- <-]. now eexists.
  - destruct (filterEntry view alloc self q d (t, m) e) as [[t1 m1]| |] eqn:Ee;
      cbn [bind]; try discriminate.
    destruct (@filterEntry_depth_irrelevant self q d m d2 m2 t e t1 m1 IH Ee)
      as [x He2].
    rewrite He2. cbn [bind]. eapply IHes; eassumption.
Qed.

Lemma filterProperties_depth_irrelevant fuel q p d m F m' :
  filterProperties view alloc fuel q p d m = Return (F, m') ->
  forall d2 m2, exists m2',
    filterProperties view alloc fuel q p d2 m2 = Return (F, m2').
Proof.
  revert p d m F m'. induction fuel as [|fuel IH]; intros p d m F m';
    [discriminate|].
  cbn [filterProperties].
  destruct (negb (truthy view p)).
  - intros [= <- <-] d2 m2. now eexists.
  - destruct p as [x|].
    + intros H d2 m2. eapply for_of_depth_irrelevant; eassumption.
    + intros [= <- <-] d2 m2. now eexists.
Qed.
End DepthIrrelevance.

(** ** The copy of a container *)

Lemma obj_set_obj_set {A : Type} (o : props A) k v v' :
  has_own k o = true -> obj_set (obj_set o k v) k v' = obj_set o k v'.
Proof.
  intros H. unfold obj_set. rewrite H.
  assert (H' : has_own k (obj_replace k v o) = true).
  { apply has_own_In. rewrite keys_obj_replace by exact H. now apply has_own_In. }
  rewrite H'. clear H'.
  induction o as [|[k0 v0] o IH]; simpl in *; [reflexivity|].
  destruct (String.eqb_spec k0 k) as [->|Hne]; simpl.
  - now rewrite String.eqb_refl.
  - destruct (String.eqb_spec k0 k); [contradiction|]. simpl in H.
    now rewrite IH.
Qed.

Lemma object_repr_obj_set_present {A : Type} (o : props A) k v :
  has_own k o = true -> object_repr o = true -> object_repr (obj_set o k v) = true.
Proof.
  intros H. unfold object_repr. now rewrite obj_set_present_keys.
Qed.

Lemma lookup_some_has_own {A : Type} (o : props A) k v :
  lookup k o = Some v -> has_own k o = true.
Proof. intros H. now rewrite lookup_has_own, H. Qed.

Lemma spread_object (fields : props json) :
  object_repr fields = true -> spread jview jalloc (JObj fields) = fields.
Proof.
  intros H. unfold spread. cbn [own_entries jview].
  now rewrite fold_obj_set_app.
Qed.

Lemma strict_eq_string_inv (v : option json) (s : string) :
  strict_eq_string jview v s = true -> v = Some (JStr s).
Proof.
  unfold strict_eq_string. destruct v as [[ | | |t| | ]|]; try discriminate.
  simpl. intros H. apply String.eqb_eq in H. now subst.
Qed.

Lemma entries_of_nonempty (p : option json) :
  entries_of p <> [] -> exists x, p = Some x /\ truthyJ (Some x) = true.
Proof.
  unfold entries_of. destruct (truthyJ p) eqn:E; [|congruence].
  destruct p as [x|]; [|congruence]. intros _. now exists x.
Qed.

Lemma container_of_child_map (v : json) (p : option json) :
  js_repr v = true -> child_map jview v = Some p -> entries_of p <> [] ->
  exists pp rebuild,
    p = Some pp /\ truthyJ (Some pp) = true /\ container v pp rebuild /\
    forall c, with_children jview jalloc v c = rebuild c.
Proof.
  intros Hv Hc Hne. apply entries_of_nonempty in Hne as [pp [-> Ht]].
  unfold child_map, with_children in *.
  destruct v as [ | | | | |fields]; try discriminate.
  unfold field in *. cbn [jview] in *.
  destruct (strict_eq_string jview (lookup "type" fields) "object") eqn:E1.
  - destruct (truthy jview (lookup "properties" fields)) eqn:E2; cbn [andb] in *.
    + injection Hc as Hc. apply strict_eq_string_inv in E1.
      exists pp, (fun c => JObj (obj_set fields "properties" c)).
      repeat split; try assumption; [now constructor|].
      intros c. cbn [jalloc]. rewrite spread_object; [reflexivity|].
      simpl in Hv. now apply andb_prop in Hv as [Hv _].
    + cbn [andb] in Hc. apply strict_eq_string_inv in E1. rewrite E1 in Hc.
      discriminate.
  - cbn [andb] in *.
    destruct (strict_eq_string jview (lookup "type" fields) "array") eqn:E3;
      [|discriminate].
    destruct (lookup "items" fields) as [i|] eqn:Ei; [|discriminate].
    destruct (truthy jview (Some i) && typeof_object jview i) eqn:E4;
      [|cbn [andb] in Hc; rewrite E4 in Hc; discriminate].
    cbn [andb] in Hc. rewrite E4 in Hc. injection Hc as Hc.
    apply strict_eq_string_inv in E3.
    destruct i as [ | | | | |ifields]; cbn [jview] in Hc; try discriminate.
    exists pp, (fun c => JObj (obj_set fields "items"
                                 (JObj (obj_set ifields "properties" c)))).
    repeat split; try assumption; [now constructor|].
    intros c. cbn [jalloc jview]. simpl in Hv. apply andb_prop in Hv as [Hr Hvs].
    rewrite !spread_object; [reflexivity| |exact Hr].
    apply lookup_In in Ei. rewrite forallb_forall in Hvs.
    specialize (Hvs _ Ei). simpl in Hvs. now apply andb_prop in Hvs as [Hvs _].
Qed.

Section Container.
Variables (v pp : json) (rebuild : json -> json).
Hypothesis Hv : js_repr v = true.
Hypothesis Hcont : container v pp rebuild.

Lemma container_description c :
  fieldJ (rebuild c) "description" = fieldJ v "description".
Proof.
  destruct Hcont as [fields pp' Ht Hp|fields ifields pp' Ht Hi Hp];
    unfold fieldJ, field; cbn [jview];
    apply lookup_obj_set_present_other;
    solve [eapply lookup_some_has_own; eassumption | discriminate].
Qed.

Lemma container_not_null c : rebuild c <> JNull.
Proof. destruct Hcont; discriminate. Qed.

(** The recursive call made for the copy is made on the filtered
    children. *)
Lemma container_child_map c :
  truthyJ (Some c) = true -> child_map jview (rebuild c) = Some (Some c).
Proof.
  intros Hc. unfold truthyJ in Hc.
  destruct Hcont as [fields pp' Ht Hp|fields ifields pp' Ht Hi Hp];
    unfold child_map, field; cbn [jview].
  - rewrite lookup_obj_set_present_other
      by (solve [eapply lookup_some_has_own; eassumption | discriminate]).
    rewrite Ht. rewrite lookup_obj_set_present
      by (eapply lookup_some_has_own; eassumption).
    cbn [strict_eq_string jview]. change ("object" =? "object") with true.
    now rewrite Hc.
  - rewrite lookup_obj_set_present_other
      by (solve [eapply lookup_some_has_own; eassumption | discriminate]).
    rewrite Ht. rewrite lookup_obj_set_present
      by (eapply lookup_some_has_own; eassumption).
    cbn [strict_eq_string jview truthy typeof_object andb].
    change ("array" =? "object") with false.
    change ("array" =? "array") with true. cbn [andb].
    rewrite lookup_obj_set_present
      by (eapply lookup_some_has_own; eassumption).
    reflexivity.
Qed.

(** Rebuilding the copy around other children rebuilds the original
    around them. *)
Lemma container_rebuild c c' :
  truthyJ (Some c) = true ->
  with_children jview jalloc (rebuild c) c' = rebuild c'.
Proof.
  intros Hc. unfold truthyJ in Hc.
  destruct Hcont as [fields pp' Ht Hp|fields ifields pp' Ht Hi Hp];
    unfold with_children, field; cbn [jview jalloc];
    simpl in Hv; apply andb_prop in Hv as [Hr Hvs].
  - rewrite lookup_obj_set_present_other
      by (solve [eapply lookup_some_has_own; eassumption | discriminate]).
    rewrite Ht. rewrite lookup_obj_set_present
      by (eapply lookup_some_has_own; eassumption).
    cbn [strict_eq_string jview]. change ("object" =? "object") with true.
    rewrite Hc. cbn [andb].
    rewrite spread_object
      by (apply object_repr_obj_set_present;
          [eapply lookup_some_has_own; eassumption|exact Hr]).
    rewrite obj_set_obj_set by (eapply lookup_some_has_own; eassumption).
    reflexivity.
  - rewrite lookup_obj_set_present_other
      by (solve [eapply lookup_some_has_own; eassumption | discriminate]).
    rewrite Ht. cbn [strict_eq_string jview].
    change ("array" =? "object") with false. cbn [andb].
    rewrite lookup_obj_set_present
      by (eapply lookup_some_has_own; eassumption).
    cbn [jview].
    assert (Hir : object_repr ifields = true).
    { apply lookup_In in Hi. rewrite forallb_forall in Hvs.
      specialize (Hvs _ Hi). simpl in Hvs. now apply andb_prop in Hvs as [Hvs _]. }
    rewrite !spread_object.
    + rewrite !obj_set_obj_set by (eapply lookup_some_has_own; eassumption).
      reflexivity.
    + apply object_repr_obj_set_present;
        [eapply lookup_some_has_own; eassumption|exact Hir].
    + apply object_repr_obj_set_present;
        [eapply lookup_some_has_own; eassumption|exact Hr].
Qed.

End Container.

Lemma include_of_same_description q k v x :
  v <> JNull -> x <> JNull ->
  fieldJ x "description" = fieldJ v "description" ->
  include_of jview q k x = include_of jview q k v.
Proof.
  intros Hv Hx Hd. unfold include_of.
  rewrite !get_not_null by assumption. now rewrite Hd.
Qed.

(** ** The filtered tree inside the original tree *)

Lemma kept_cases q sub k v :
  kept q sub (k, v) = [] \/
  kept q sub (k, v) = [(k, v)] \/
  (sub <> [] /\ k <> "__proto__" /\
   kept q sub (k, v) = [(k, with_children jview jalloc v (JObj sub))]).
Proof.
  unfold kept. destruct (String.eqb_spec k "__proto__") as [Hk|Hk].
  - destruct ((0 <? List.length sub)%nat && _); auto.
  - destruct sub as [|e sub]; simpl.
    + destruct (js_direct q k v); auto.
    + right. right. repeat split; [discriminate|exact Hk].
Qed.

Lemma children_nonempty_child_map (v : json) :
  children v <> [] -> exists p, child_map jview v = Some p /\ entries_of p = children v.
Proof.
  unfold children. destruct (child_map jview v) as [p|]; [|congruence].
  intros _. now exists p.
Qed.

Lemma filtered_entries_nonempty fuel q es :
  filtered_entries fuel q es <> [] -> es <> [].
Proof. intros H ->. now rewrite filtered_entries_nil in H. Qed.

(** The copy of a container has the filtered children as its children. *)
Lemma children_with_children (v : json) (sub : props json) :
  js_repr v = true -> children v <> [] ->
  children (with_children jview jalloc v (JObj sub)) = sub /\
  fieldJ (with_children jview jalloc v (JObj sub)) "description"
    = fieldJ v "description".
Proof.
  intros Hv Hne. destruct (children_nonempty_child_map v Hne) as [p [Hc He]].
  rewrite <- He in Hne.
  destruct (container_of_child_map v p Hv Hc Hne)
    as [pp [rebuild [_ [_ [Hcont Hw]]]]].
  rewrite Hw. split.
  - unfold children.
    rewrite (container_child_map v pp rebuild Hv Hcont); reflexivity.
  - now apply (container_description v pp rebuild).
Qed.

Lemma js_repr_children (v : json) (k : string) (x : json) :
  js_repr v = true -> In (k, x) (children v) -> js_repr x = true.
Proof.
  unfold children. destruct (child_map jview v) as [p|] eqn:Ec; [|simpl; tauto].
  intros Hv. apply js_repr_entries_of. eapply js_repr_child_map; eassumption.
Qed.

Lemma nodes_single (k : string) (v : json) :
  nodes [(k, v)] = ([k], v) :: map (fun n => (k :: fst n, snd n)) (nodes (children v)).
Proof. rewrite nodes_cons, nodes_nil. now rewrite app_nil_r. Qed.

(** Every node of the filtered tree is a node of the original tree, at
    the same path and with the same description. *)
Lemma nodes_filtered_entries fuel q es path x :
  (forall kv, In kv es -> js_repr (snd kv) = true) ->
  In (path, x) (nodes (filtered_entries fuel q es)) ->
  exists v, In (path, v) (nodes es) /\
            fieldJ x "description" = fieldJ v "description".
Proof.
  revert es path x. induction fuel as [|fuel IH]; intros es path x Hes;
    [simpl; tauto|].
  cbn [filtered_entries].
  induction es as [|[k v] es IHes]; [simpl; tauto|].
  cbn [flat_map]. rewrite nodes_app, nodes_cons. intros Hin.
  apply in_app_or in Hin as [Hin|Hin].
  2:{ destruct IHes as [v' [Hv' Hd]]; [|exact Hin|].
      - intros kv Hkv. apply Hes. now right.
      - exists v'. split; [|exact Hd]. right. apply in_or_app. now right. }
  assert (Hv : js_repr v = true) by (apply (Hes (k, v)); now left).
  cbn [snd] in Hin.
  destruct (kept_cases q (filtered_entries fuel q (children v)) k v)
    as [Hk|[Hk|[Hne [_ Hk]]]]; rewrite Hk in Hin.
  - simpl in Hin. tauto.
  - rewrite nodes_single in Hin. exists x. split; [|reflexivity].
    destruct Hin as [Hin|Hin]; [now left|]. right. apply in_or_app. now left.
  - rewrite nodes_single in Hin.
    apply filtered_entries_nonempty in Hne as Hch.
    destruct (children_with_children v (filtered_entries fuel q (children v)) Hv Hch)
      as [Hsub Hdesc].
    destruct Hin as [[= <- <-]|Hin].
    + exists v. split; [now left|exact Hdesc].
    + rewrite Hsub in Hin.
      apply in_map_iff in Hin as [[p' y] [[= <- <-] Hin]].
      apply IH in Hin as [v' [Hv' Hd]].
      * exists v'. split; [|exact Hd]. right. apply in_or_app. left.
        apply in_map_iff. now exists (p', v').
      * intros [k' x'] Hkx. eapply js_repr_children; eassumption.
Qed.

(** The ancestors on the path of a node are nodes, and the node is among
    their descendants. *)
Lemma node_at_split (p1 p2 : list string) (es : props json) (x : json) :
  p1 <> [] -> p2 <> [] -> node_at es (p1 ++ p2) x ->
  exists y, node_at es p1 y /\ node_at (children y) p2 x.
Proof.
  revert es. induction p1 as [|k p1 IH]; intros es H1 H2 Hn; [congruence|].
  destruct p1 as [|k' p1].
  - simpl in Hn. inversion Hn as [|? ? v ? ? Hin Hsub]; subst; [congruence|].
    exists v. split; [now constructor|exact Hsub].
  - simpl in Hn. inversion Hn as [|? ? v ? ? Hin Hsub]; subst.
    apply IH in Hsub as [y [Hy Hx]]; [|discriminate|exact H2].
    exists y. split; [|exact Hx]. eapply node_below; eassumption.
Qed.

Lemma nodes_ancestors (es : props json) (p1 p2 : list string) (x : json) :
  p1 <> [] -> p2 <> [] -> In (p1 ++ p2, x) (nodes es) ->
  exists y, In (p1, y) (nodes es) /\ In (p2, x) (nodes (children y)).
Proof.
  intros H1 H2 Hin. apply nodes_node_at in Hin.
  apply node_at_split in Hin as [y [Hy Hx]]; try assumption.
  exists y. split; now apply nodes_node_at.
Qed.

(** A direct match in a list of nodes is no deeper than the deepest. *)
Lemma deepest_match_bound q es n :
  In n (nodes es) -> direct_match q (node_key n) (snd n) = true ->
  node_depth n <= max_direct_depth q es.
Proof.
  intros Hin Hd. unfold max_direct_depth.
  pose proof (list_max_le
    (map node_depth
       (filter (fun n => direct_match q (node_key n) (snd n)) (nodes es)))
    (list_max (map node_depth
       (filter (fun n => direct_match q (node_key n) (snd n)) (nodes es)))))
    as [H _].
  specialize (H (le_n _)). rewrite Forall_forall in H. apply H.
  apply in_map. apply filter_In. now split.
Qed.

(** ** Filtering the filtered result *)

(** [filtered.hasOwnProperty] can be called on [u] when it could on [t],
    if [u] has the own properties of [t] and either its prototype or the
    original one. *)
Lemma place_direct_transfer (t u : object json) k v v' inc t1 :
  place_direct jview t k v inc = Return t1 ->
  own u = own t -> (proto u = proto t \/ proto u = ObjectPrototype) ->
  exists u1, place_direct jview u k v' inc = Return u1.
Proof.
  unfold place_direct. destruct inc; [|intros; now eexists].
  unfold call_hasOwnProperty. intros H Ho Hp. rewrite Ho.
  destruct (negb (has_own "hasOwnProperty" (own t))) eqn:Eh; cbn [andb] in *;
    [|discriminate].
  assert (Hc : match proto u with
               | ObjectPrototype => true
               | NullPrototype => false
               | NodePrototype x => negb (has_own_property jview x "hasOwnProperty")
               end = true).
  { destruct Hp as [->| ->]; [|reflexivity].
    destruct (match proto t with
              | ObjectPrototype => true
              | NullPrototype => false
              | NodePrototype x => negb (has_own_property jview x "hasOwnProperty")
              end); [reflexivity|discriminate]. }
  rewrite Hc. cbn [bind]. destruct (negb (has_own k (own t))); now eexists.
Qed.

Lemma own_assign_plain (t u : object json) k c :
  k <> "__proto__" -> own u = own t ->
  own (assign jview u k c) = own (assign jview t k c) /\
  proto (assign jview u k c) = proto u /\
  proto (assign jview t k c) = proto t.
Proof.
  intros Hk Ho. unfold assign. apply String.eqb_neq in Hk. rewrite Hk.
  cbn [negb own proto]. now rewrite Ho.
Qed.

(** One iteration of the second pass, on what the first pass kept for an
    entry. *)
Lemma filterEntry_again fuel q d d2 t m k v t1 m1 u n :
  idem_at fuel q ->
  js_repr v = true ->
  has_own k (own t) = false ->
  forallb (fun k' => key_before k' k) (keys (own t)) = true ->
  (k = "__proto__" -> proto t = ObjectPrototype) ->
  filterEntry jview jalloc (filterPropertiesJ fuel q) q d (t, m) (k, v)
    = Return (t1, m1) ->
  own u = own t -> (proto u = proto t \/ proto u = ObjectPrototype) ->
  exists u1 n1,
    for_of (kept q (filtered_entries fuel q (children v)) (k, v))
      (filterEntry jview jalloc (filterPropertiesJ fuel q) q d2) (u, n)
      = Return (u1, n1) /\
    own u1 = own t1 /\
    (proto u1 = proto t1 \/ proto u1 = ObjectPrototype).
Proof.
  intros IHf Hv Hfresh Hlast Hproto Hstep Ho Hp.
  pose proof (filterEntry_refines fuel q d t m k v t1 m1
                (filterProperties_refines fuel q) Hv Hfresh Hlast Hproto Hstep)
    as [Hown1 Hproto1].
  assert (Hu : k = "__proto__" -> u = t).
  { intros Hk. specialize (Hproto Hk). destruct u as [uo up], t as [to tp].
    cbn [own proto] in *. subst uo. f_equal. destruct Hp; congruence. }
  assert (Hfresh_u : has_own k (own u) = false) by now rewrite Ho.
  assert (Hlast_u : forallb (fun k' => key_before k' k) (keys (own u)) = true)
    by now rewrite Ho.
  assert (Hproto_u : k = "__proto__" -> proto u = ObjectPrototype)
    by (intros Hk; rewrite (Hu Hk); now apply Hproto).
  destruct (kept_cases q (filtered_entries fuel q (children v)) k v)
    as [Hk|[Hk|[Hne [Hkp Hk]]]].
  - (* nothing was kept *)
    rewrite Hk in *. cbn [for_of]. exists u, n. rewrite app_nil_r in Hown1.
    split; [reflexivity|]. split; [congruence|].
    destruct (String.eqb_spec k "__proto__") as [Hkp|Hkp].
    + right. now apply Hproto_u.
    + rewrite (Hproto1 Hkp). exact Hp.
  - (* the original was kept *)
    rewrite Hk in *. cbn [for_of].
    destruct (String.eqb_spec k "__proto__") as [Hkp|Hkp].
    + (* [__proto__] as an own property: the same run *)
      rewrite (Hu Hkp).
      destruct (filterEntry_depth_irrelevant json jview jalloc
                  (filterPropertiesJ fuel q) q d m d2 n t (k, v) t1 m1
                  (filterProperties_depth_irrelevant json jview jalloc fuel q)
                  Hstep) as [n1 Hn1].
      rewrite Hn1. cbn [bind]. exists t1, n1. now repeat split; try left.
    + (* a direct match without filtered children *)
      revert Hstep. rewrite !filterEntry_eq.
      destruct (include_of jview q k v) as [inc| |]; cbn [bind];
        try discriminate.
      destruct (get jview v "type"); cbn [bind]; try discriminate. cbv zeta.
      destruct (child_map jview v) as [p|] eqn:Ec.
      * destruct (filterPropertiesJ fuel q p (d + 1) _) as [[fc m2]| |] eqn:Er;
          cbn [bind]; try discriminate.
        destruct (filterProperties_depth_irrelevant json jview jalloc fuel q
                    p _ _ fc m2 Er (d2 + 1) (raise_depth inc d2 n)) as [x Hx].
        fold (filterPropertiesJ fuel q) in Hx. rewrite Hx. cbn [bind].
        destruct (0 <? List.length (keys (own fc)))%nat.
        -- destruct (place_direct jview (assign jview t k _) k v true)
             as [t'| |] eqn:Ept; cbn [bind]; try discriminate.
           intros [= -> ->].
           destruct (own_assign_plain t u k
                       (with_children jview jalloc v (as_node jalloc fc)) Hkp Ho)
             as [Hoa [Hpu Hpt]].
           destruct (place_direct_transfer _ (assign jview u k
                        (with_children jview jalloc v (as_node jalloc fc)))
                       k v v true t1 Ept Hoa) as [u1 Hu1];
             [rewrite Hpu, Hpt; exact Hp|].
           rewrite Hu1. cbn [bind]. exists u1, x. split; [reflexivity|].
           destruct (with_children_object v p (as_node jalloc fc) Ec) as [cf Hcf].
           rewrite Hcf in *.
           destruct (place_copy_exact u k v cf u1 Hfresh_u Hlast_u Hproto_u Hu1)
             as [Hou Hpu1].
           destruct (place_copy_exact t k v cf t1 Hfresh Hlast Hproto Ept)
             as [Hot Hpt1].
           split; [now rewrite Hou, Hot, Ho|].
           rewrite (Hpu1 Hkp), (Hpt1 Hkp). exact Hp.
        -- destruct (place_direct jview t k v inc) as [t'| |] eqn:Ept;
             cbn [bind]; try discriminate.
           intros [= -> ->].
           destruct (place_direct_transfer t u k v v inc t1 Ept Ho Hp)
             as [u1 Hu1].
           rewrite Hu1. cbn [bind]. exists u1, x. split; [reflexivity|].
           destruct (place_direct_exact u k v inc u1 Hfresh_u Hlast_u Hproto_u Hu1)
             as [Hou Hpu1].
           destruct (place_direct_exact t k v inc t1 Hfresh Hlast Hproto Ept)
             as [Hot Hpt1].
           split; [now rewrite Hou, Hot, Ho|].
           rewrite (Hpu1 Hkp), (Hpt1 Hkp). exact Hp.
      * destruct (place_direct jview t k v inc) as [t'| |] eqn:Ept;
          cbn [bind]; try discriminate.
        intros [= -> <-].
        destruct (place_direct_transfer t u k v v inc t1 Ept Ho Hp)
          as [u1 Hu1].
        rewrite Hu1. cbn [bind]. eexists u1, _. split; [reflexivity|].
        destruct (place_direct_exact u k v inc u1 Hfresh_u Hlast_u Hproto_u Hu1)
          as [Hou Hpu1].
        destruct (place_direct_exact t k v inc t1 Hfresh Hlast Hproto Ept)
          as [Hot Hpt1].
        split; [now rewrite Hou, Hot, Ho|].
        rewrite (Hpu1 Hkp), (Hpt1 Hkp). exact Hp.
  - (* the copy was kept *)
    rewrite Hk in *. cbn [for_of].
    apply filtered_entries_nonempty in Hne as Hch.
    destruct (children_nonempty_child_map v Hch) as [p [Ec He]].
    assert (Hpe : entries_of p <> []) by now rewrite He.
    destruct (container_of_child_map v p Hv Ec Hpe)
      as [pp [rebuild [Hpp [Htr [Hcont Hw]]]]].
    revert Hstep. rewrite !filterEntry_eq. rewrite Ec.
    destruct (include_of jview q k v) as [inc| |] eqn:Ei; cbn [bind];
      try discriminate.
    destruct (get jview v "type") eqn:Eg; cbn [bind]; try discriminate.
    cbv zeta.
    destruct (filterPropertiesJ fuel q p (d + 1) _) as [[fc m2]| |] eqn:Er;
      cbn [bind]; try discriminate.
    pose proof (filterProperties_refines fuel q p _ _ fc m2
                  (js_repr_child_map v p Hv Ec) Er) as Hfc.
    rewrite He in Hfc.
    assert (Hnz : (0 <? List.length (keys (own fc)))%nat = true).
    { rewrite Hfc. unfold keys. rewrite length_map.
      destruct (filtered_entries fuel q (children v)); [congruence|reflexivity]. }
    rewrite Hnz.
    unfold as_node. cbn [jalloc]. rewrite Hfc, !Hw.
    set (sub := filtered_entries fuel q (children v)) in *.
    destruct (place_direct jview (assign jview t k (rebuild (JObj sub))) k v true)
      as [t'| |] eqn:Ept; cbn [bind]; try discriminate.
    intros [= -> <-].
    (* the second pass on the copy *)
    assert (Hvn : v <> JNull) by (intros ->; discriminate).
    rewrite (include_of_same_description q k v (rebuild (JObj sub)) Hvn
               (container_not_null v pp rebuild Hv Hcont (JObj sub))
               (container_description v pp rebuild Hv Hcont (JObj sub))).
    rewrite Ei. cbn [bind].
    rewrite (get_not_null (rebuild (JObj sub)) "type"
               (container_not_null v pp rebuild Hv Hcont (JObj sub))).
    cbn [bind].
    rewrite (container_child_map v pp rebuild Hv Hcont (JObj sub) eq_refl).
    destruct (IHf p _ _ fc m2 (js_repr_child_map v p Hv Ec) Er
                (d2 + 1) (raise_depth inc d2 n)) as [F2 [x [Hr2 Ho2]]].
    rewrite Hfc in Hr2, Ho2. fold sub in Hr2, Ho2.
    rewrite Hr2. cbn [bind]. rewrite Ho2.
    assert (Hnz2 : (0 <? List.length (keys sub))%nat = true).
    { unfold keys. rewrite length_map.
      destruct sub; [congruence|reflexivity]. }
    rewrite Hnz2.
    rewrite (container_rebuild v pp rebuild Hv Hcont (JObj sub) (JObj sub) eq_refl).
    destruct (own_assign_plain t u k (rebuild (JObj sub)) Hkp Ho)
      as [Hoa [Hpu Hpt]].
    destruct (place_direct_transfer _ (assign jview u k (rebuild (JObj sub)))
                k v (rebuild (JObj sub)) true t1 Ept Hoa) as [u1 Hu1];
      [rewrite Hpu, Hpt; exact Hp|].
    rewrite Hu1. cbn [bind]. exists u1, x. split; [reflexivity|].
    assert (Hcf : exists cf, rebuild (JObj sub) = JObj cf)
      by (destruct Hcont; eexists; reflexivity).
    destruct Hcf as [cf Hcf]. rewrite Hcf in *.
    destruct (place_copy_exact u k (JObj cf) cf u1 Hfresh_u Hlast_u Hproto_u Hu1)
      as [Hou Hpu1].
    destruct (place_copy_exact t k v cf t1 Hfresh Hlast Hproto Ept)
      as [Hot Hpt1].
    apply String.eqb_neq in Hkp as Hkb. rewrite Hkb in Hou, Hot.
    split; [now rewrite Hou, Hot, Ho|].
    rewrite (Hpu1 Hkp), (Hpt1 Hkp). exact Hp.
Qed.

Lemma for_of_app {A S : Type} (l1 l2 : list A) (body : S -> A -> outcome S) st :
  for_of (l1 ++ l2) body st = st' <- for_of l1 body st ;; for_of l2 body st'.
Proof.
  revert st. induction l1 as [|a l1 IH]; intros st; cbn [for_of app bind];
    [reflexivity|].
  destruct (body st a); cbn [bind]; [apply IH|reflexivity|reflexivity].
Qed.

Lemma for_of_again fuel q d d2 post :
  idem_at fuel q ->
  forall pre t m t' m' u n,
    object_repr (pre ++ post) = true ->
    (forall kv, In kv post -> js_repr (snd kv) = true) ->
    (forall k, In k (keys (own t)) -> In k (keys pre)) ->
    (In "__proto__" (keys post) -> proto t = ObjectPrototype) ->
    for_of post (filterEntry jview jalloc (filterPropertiesJ fuel q) q d) (t, m)
      = Return (t', m') ->
    own u = own t -> (proto u = proto t \/ proto u = ObjectPrototype) ->
    exists u' n',
      for_of (flat_map
                (fun kv => kept q (filtered_entries fuel q (children (snd kv))) kv)
                post)
        (filterEntry jview jalloc (filterPropertiesJ fuel q) q d2) (u, n)
        = Return (u', n') /\
      own u' = own t'.
Proof.
  intros IHf. induction post as [|[k v] post IH];
    intros pre t m t' m' u n Hrepr Hvals Hkeys Hproto; cbn [for_of flat_map].
  - intros [= <- <-] Ho _. now exists u, n.
  - destruct (filterEntry jview jalloc (filterPropertiesJ fuel q) q d (t, m) (k, v))
      as [[t1 m1]| |] eqn:Ee; cbn [bind]; try discriminate.
    intros Hrest Ho Hp.
    destruct (object_repr_app_cons _ _ _ _ Hrepr) as [Hfresh Hlast].
    assert (Hfresh' : has_own k (own t) = false).
    { apply has_own_false. intros Hin. apply Hkeys in Hin.
      apply has_own_false in Hfresh. contradiction. }
    assert (Hlast' : forallb (fun k' => key_before k' k) (keys (own t)) = true).
    { apply forallb_forall. intros k' Hin. apply Hkeys in Hin.
      rewrite forallb_forall in Hlast. now apply Hlast. }
    assert (Hv : js_repr v = true) by (apply (Hvals (k, v)); now left).
    assert (Hproto' : k = "__proto__" -> proto t = ObjectPrototype)
      by (intros ->; apply Hproto; now left).
    destruct (filterEntry_again fuel q d d2 t m k v t1 m1 u n IHf Hv Hfresh'
                Hlast' Hproto' Ee Ho Hp) as [u1 [n1 [Hu1 [Ho1 Hp1]]]].
    destruct (filterEntry_refines fuel q d t m k v t1 m1
                (filterProperties_refines fuel q) Hv Hfresh' Hlast' Hproto' Ee)
      as [Hown Hpt].
    rewrite for_of_app. cbn [snd]. rewrite Hu1. cbn [bind].
    apply (IH (pre ++ [(k, v)]) t1 m1 t' m' u1 n1); try assumption.
    + now rewrite <- app_assoc.
    + intros kv Hin. apply Hvals. now right.
    + intros k' Hin. rewrite Hown, keys_app in Hin. rewrite keys_app.
      apply in_app_or in Hin as [Hin|Hin]; apply in_or_app.
      * left. now apply Hkeys.
      * right. apply kept_keys in Hin. subst. now left.
    + intros Hin. rewrite Hpt.
      * apply Hproto. now right.
      * intros ->. unfold object_repr in Hrepr. rewrite keys_app in Hrepr.
        apply andb_prop in Hrepr as [Hd _]. apply nodup_keys_NoDup in Hd.
        apply NoDup_remove_2 in Hd. apply Hd. apply in_or_app. now right.
Qed.

(** Filtering what the filter returned returns the same entries. *)
Lemma filterProperties_idem fuel q : idem_at fuel q.
Proof.
  induction fuel as [|fuel IH]; intros p d m F m' Hp; [discriminate|].
  unfold filterPropertiesJ. cbn [filterProperties truthy jview negb own_entries].
  destruct (truthy jview p) eqn:Et; cbn [negb].
  - destruct p as [x|]; [|discriminate]. intros Hr d2 m2.
    assert (He : own_entries jview jalloc x = entries_of (Some x))
      by (unfold entries_of, truthyJ; now rewrite Et).
    assert (Hrepr : object_repr ([] ++ own_entries jview jalloc x) = true)
      by (simpl; rewrite He; now apply object_repr_entries_of).
    assert (Hvals : forall kv, In kv (own_entries jview jalloc x) ->
                               js_repr (snd kv) = true).
    { intros [k v] Hin. apply (js_repr_entries_of (Some x) k); [exact Hp|].
      now rewrite <- He. }
    pose proof (for_of_refines fuel q d (own_entries jview jalloc x)
                  (filterProperties_refines fuel q) [] (empty_object json) m F m'
                  Hrepr Hvals (fun k H => H) (fun _ => eq_refl) Hr) as Hown.
    cbn [own empty_object app] in Hown. rewrite Hown.
    destruct (for_of_again fuel q d d2 (own_entries jview jalloc x) IH []
                (empty_object json) m F m' (empty_object json) m2
                Hrepr Hvals (fun k H => H) (fun _ => eq_refl) Hr eq_refl
                (or_introl eq_refl)) as [F2 [n2 [Hr2 Ho2]]].
    exists F2, n2. split; [exact Hr2|]. now rewrite Ho2, Hown.
  - intros [= <- <-] d2 m2. cbn [own empty_object for_of].
    now exists (empty_object json), m2.
Qed.

(** ** The order of the retained keys *)

Lemma keys_flat_map_kept (f : string * json -> props json) (es : props json) :
  nodup_keys (keys es) = true ->
  (forall k v, f (k, v) = [] \/ exists x, f (k, v) = [(k, x)]) ->
  keys (flat_map f es) =
  filter (fun k => has_own k (flat_map f es)) (keys es).
Proof.
  intros Hd Hf. induction es as [|[k v] es IH]; [reflexivity|].
  simpl in Hd. apply andb_prop in Hd as [Hk Hd]. apply negb_true_iff in Hk.
  assert (Hnot : ~ In k (keys es)).
  { intros Hin. assert (existsb (String.eqb k) (keys es) = true); [|congruence].
    apply existsb_exists. exists k. split; [exact Hin|apply String.eqb_refl]. }
  assert (Hsub : forall k', In k' (keys (flat_map f es)) -> In k' (keys es)).
  { intros k' Hin. unfold keys in Hin. apply in_map_iff in Hin as [[k1 x1] [<- Hin]].
    apply in_flat_map in Hin as [[k2 v2] [Hin2 Hin]].
    destruct (Hf k2 v2) as [He|[x He]]; rewrite He in Hin; simpl in Hin;
      [tauto|]. destruct Hin as [[= <- <-]|[]].
    unfold keys. apply in_map_iff. now exists (k2, v2). }
  assert (Hrest : forall l,
    (forall k', In k' l -> k' <> k) ->
    filter (fun k' => has_own k' (f (k, v) ++ flat_map f es)) l =
    filter (fun k' => has_own k' (flat_map f es)) l).
  { intros l Hl. apply filter_ext_in. intros k' Hin. rewrite has_own_app.
    destruct (Hf k v) as [He|[x He]]; rewrite He; [reflexivity|].
    simpl. destruct (String.eqb_spec k k'); [|reflexivity].
    exfalso. now apply (Hl k'). }
  cbn [flat_map keys map fst filter]. fold (keys es).
  change (map fst (f (k, v) ++ flat_map f es)) with (keys (f (k, v) ++ flat_map f es)).
  rewrite keys_app, Hrest by (intros k' Hin ->; contradiction).
  rewrite <- (IH Hd). rewrite has_own_app.
  destruct (Hf k v) as [He|[x He]]; rewrite He; simpl.
  - destruct (has_own k (flat_map f es)) eqn:E; [|reflexivity].
    apply has_own_In in E. apply Hsub in E. contradiction.
  - now rewrite String.eqb_refl.
Qed.

Lemma kept_one q sub k v :
  kept q sub (k, v) = [] \/ exists x, kept q sub (k, v) = [(k, x)].
Proof.
  destruct (kept_cases q sub k v) as [H|[H|[_ [_ H]]]]; eauto.
Qed.

(** The keys of the result are the retained keys of the input, in the
    order of the input. *)
Lemma keys_filtered_entries fuel q es :
  object_repr es = true ->
  keys (filtered_entries (S fuel) q es) =
  filter (fun k => has_own k (filtered_entries (S fuel) q es)) (keys es).
Proof.
  intros Hr. cbn [filtered_entries]. apply keys_flat_map_kept.
  - unfold object_repr in Hr. now apply andb_prop in Hr as [Hr _].
  - intros k v. apply kept_one.
Qed.

(** ** The outcomes of [filterSchema] on a tree *)

Lemma filterSchemaJ_eq fuel P q :
  filterSchemaJ fuel P q = filterPropertiesJ fuel q P 0 0.
Proof.
  unfold filterSchemaJ, filterSchema, filterPropertiesJ.
  now destruct (filterProperties jview jalloc fuel q P 0 0) as [[F m]| |].
Qed.

(** With fuel beyond the height of its argument, [filterSchema] returns or
    throws; it throws only on a schema that is ill-typed or that names a
    property [__proto__] or [hasOwnProperty]. *)
Lemma filterSchemaJ_outcome fuel P q :
  height_opt P < fuel ->
  match filterSchemaJ fuel P q with
  | Return _ => True
  | Throw _ => schema_ok (entries_of P) && plain_keys (entries_of P) = false
  | OutOfFuel => False
  end.
Proof.
  intros Hh. rewrite filterSchemaJ_eq.
  destruct (filterPropertiesJ fuel q P 0 0) as [r|e|] eqn:E; [exact I| |].
  - destruct (schema_ok (entries_of P)) eqn:Es; [|reflexivity].
    destruct (plain_keys (entries_of P)) eqn:Ep; [|reflexivity].
    destruct (filterProperties_returns q fuel P 0 0 Es Ep Hh) as [r Hr].
    congruence.
  - now apply filterPropertiesJ_terminates in E.
Qed.

Lemma filterSchemaJ_entries fuel P q F md :
  js_repr_opt P = true ->
  filterSchemaJ fuel P q = Return (F, md) ->
  exists fuel', fuel = S fuel' /\
                own F = filtered_entries (S fuel') q (entries_of P).
Proof.
  intros Hp. rewrite filterSchemaJ_eq. intros Hr.
  destruct fuel as [|fuel']; [discriminate|]. exists fuel'. split; [reflexivity|].
  now apply (filterProperties_refines (S fuel') q P 0 0 F md).
Qed.

(** ** Which properties are retained, for ordinary property names *)

Lemma any_match_cons q k v es :
  any_match q ((k, v) :: es) = subtree_matches q k v || any_match q es.
Proof.
  unfold subtree_matches, any_match. rewrite nodes_cons. cbn [existsb].
  change (node_key ([k], v)) with k. cbn [snd].
  rewrite existsb_app, orb_assoc. f_equal. f_equal.
  pose proof (nodes_path_nonempty (children v)) as Hne.
  induction (nodes (children v)) as [|n l IH]; [reflexivity|].
  cbn [map existsb]. rewrite node_key_cons by (apply Hne; now left).
  cbn [snd]. f_equal. apply IH. intros n' Hin. apply Hne. now right.
Qed.

Lemma js_direct_node_ok q k v : node_ok v = true -> js_direct q k v = direct_match q k v.
Proof. intros H. unfold js_direct. now rewrite include_of_node_ok. Qed.

Lemma kept_plain q sub k v :
  plain_key k = true -> node_ok v = true ->
  kept q sub (k, v) =
  if (0 <? List.length sub)%nat then [(k, with_children jview jalloc v (JObj sub))]
  else if direct_match q k v then [(k, v)] else [].
Proof.
  intros Hk Hv. unfold kept, plain_key in *.
  apply andb_prop in Hk as [Hk _]. apply negb_true_iff in Hk. rewrite Hk.
  now rewrite js_direct_node_ok.
Qed.

(** The filtered children of a value are empty exactly when nothing below
    it matches. *)
Lemma filtered_entries_any_match fuel q es :
  height_props es <= fuel -> schema_ok es = true -> plain_keys es = true ->
  (0 <? List.length (filtered_entries fuel q es))%nat = any_match q es.
Proof.
  revert es. induction fuel as [|fuel IH]; intros es Hh Hs Hp.
  - destruct es as [|[k v] es]; [reflexivity|].
    simpl in Hh. pose proof (height_pos v). lia.
  - cbn [filtered_entries].
    induction es as [|[k v] es IHes]; [reflexivity|].
    destruct (schema_ok_In _ k v Hs (or_introl eq_refl)) as [Hv Hsc].
    destruct (plain_keys_In _ k v Hp (or_introl eq_refl)) as [Hk Hpc].
    unfold schema_ok, plain_keys in Hs, Hp.
    rewrite (forallb_nodes_cons (fun _ v => node_ok v)) in Hs.
    rewrite (forallb_nodes_cons (fun k _ => plain_key k)) in Hp.
    apply andb_prop in Hs as [_ Hs]. apply andb_prop in Hp as [_ Hp].
    simpl in Hh. pose proof (children_height v) as Hc.
    cbn [flat_map snd]. rewrite any_match_cons, length_app.
    rewrite <- IHes by (try assumption; lia).
    rewrite kept_plain by assumption. unfold subtree_matches.
    rewrite <- (IH (children v)) by (try assumption; lia).
    destruct (0 <? List.length (filtered_entries fuel q (children v)))%nat;
      [now rewrite orb_true_r|].
    rewrite orb_false_r. destruct (direct_match q k v); reflexivity.
Qed.

Lemma kept_plain_matches fuel q k v :
  height v <= S fuel -> plain_key k = true -> node_ok v = true ->
  schema_ok (children v) = true -> plain_keys (children v) = true ->
  kept q (filtered_entries fuel q (children v)) (k, v) =
  if any_match q (children v)
  then [(k, with_children jview jalloc v
              (JObj (filtered_entries fuel q (children v))))]
  else if direct_match q k v then [(k, v)] else [].
Proof.
  intros Hh Hk Hv Hsc Hpc. rewrite kept_plain by assumption.
  rewrite filtered_entries_any_match; try assumption; [reflexivity|].
  pose proof (children_height v). lia.
Qed.

(** For ordinary property names the loop keeps the entries whose subtree
    matches: the copy around the filtered children when a descendant
    matches, the original otherwise. *)
Lemma filtered_entries_plain fuel q es kx :
  height_props es <= S fuel -> schema_ok es = true -> plain_keys es = true ->
  In kx (filtered_entries (S fuel) q es) <->
  exists v, In (fst kx, v) es /\
    ((any_match q (children v) = true /\
      snd kx = with_children jview jalloc v
                 (JObj (filtered_entries fuel q (children v)))) \/
     (any_match q (children v) = false /\ direct_match q (fst kx) v = true /\
      snd kx = v)).
Proof.
  intros Hh Hs Hp. cbn [filtered_entries]. rewrite in_flat_map. split.
  - intros [[k v] [Hin Hk]]. cbn [snd] in Hk.
    destruct (schema_ok_In _ k v Hs Hin) as [Hv Hsc].
    destruct (plain_keys_In _ k v Hp Hin) as [Hpk Hpc].
    rewrite height_props_le in Hh. specialize (Hh k v Hin).
    rewrite kept_plain_matches in Hk by assumption.
    destruct (any_match q (children v)) eqn:Ea.
    + destruct Hk as [<-|[]]. exists v. split; [exact Hin|]. left. now split.
    + destruct (direct_match q k v) eqn:Ed; [|contradiction].
      destruct Hk as [<-|[]]. exists v. split; [exact Hin|]. right. now repeat split.
  - intros [v [Hin Hcase]]. destruct kx as [k x]. cbn [fst snd] in *.
    exists (k, v). split; [exact Hin|]. cbn [snd].
    destruct (schema_ok_In _ k v Hs Hin) as [Hv Hsc].
    destruct (plain_keys_In _ k v Hp Hin) as [Hpk Hpc].
    rewrite height_props_le in Hh. specialize (Hh k v Hin).
    rewrite kept_plain_matches by assumption.
    destruct Hcase as [[Ha ->]|[Ha [Hd ->]]]; rewrite Ha; [now left|].
    rewrite Hd. now left.
Qed.

(** A key is retained exactly when its subtree matches. *)
Lemma keys_filtered_entries_plain fuel q es k :
  height_props es <= S fuel -> schema_ok es = true -> plain_keys es = true ->
  In k (keys (filtered_entries (S fuel) q es)) <->
  exists v, In (k, v) es /\ subtree_matches q k v = true.
Proof.
  intros Hh Hs Hp. unfold keys. rewrite in_map_iff. split.
  - intros [[k' x] [<- Hin]].
    apply (filtered_entries_plain fuel q es (k', x) Hh Hs Hp) in Hin
      as [v [Hin Hcase]].
    exists v. split; [exact Hin|]. unfold subtree_matches. cbn [fst] in *.
    destruct Hcase as [[Ha _]|[_ [Hd _]]]; [now rewrite Ha, orb_true_r|].
    now rewrite Hd.
  - intros [v [Hin Hm]]. unfold subtree_matches in Hm.
    destruct (any_match q (children v)) eqn:Ea.
    + exists (k, with_children jview jalloc v
                   (JObj (filtered_entries fuel q (children v)))).
      split; [reflexivity|].
      apply (filtered_entries_plain fuel q es _ Hh Hs Hp). exists v.
      split; [exact Hin|]. left. now split.
    + rewrite orb_false_r in Hm. exists (k, v). split; [reflexivity|].
      apply (filtered_entries_plain fuel q es _ Hh Hs Hp). exists v.
      split; [exact Hin|]. right. now repeat split.
Qed.

(** The copy keeps every field of the original but the one that leads to
    the children. *)
Lemma container_field v pp rebuild c name :
  js_repr v = true -> container v pp rebuild ->
  name <> "properties" -> name <> "items" ->
  fieldJ (rebuild c) name = fieldJ v name.
Proof.
  intros Hv Hcont Hn1 Hn2.
  destruct Hcont as [fields pp' Ht Hp|fields ifields pp' Ht Hi Hp];
    unfold fieldJ, field; cbn [jview];
    apply lookup_obj_set_present_other;
    solve [eapply lookup_some_has_own; eassumption | assumption].
Qed.

(** ** Fuel beyond the need *)

Lemma filterSchemaJ_more_fuel fuel0 fuel P q :
  filterSchemaJ fuel0 P q <> OutOfFuel -> fuel0 <= fuel ->
  filterSchemaJ fuel P q = filterSchemaJ fuel0 P q.
Proof.
  rewrite !filterSchemaJ_eq. intros H Hle.
  now apply (filterProperties_le json jview jalloc fuel0 fuel q Hle).
Qed.

Lemma list_max_attained (l : list nat) : list_max l = 0 \/ In (list_max l) l.
Proof.
  induction l as [|a l IH]; [now left|].
  change (list_max (a :: l)) with (Nat.max a (list_max l)).
  destruct (Nat.max_spec a (list_max l)) as [[Hlt ->]|[Hle ->]].
  - destruct IH as [IH|IH]; [lia|]. right. now right.
  - right. now left.
Qed.

(** [max_direct_depth] is the depth of a direct match unless it is [0]. *)
Lemma max_direct_depth_attained q es :
  max_direct_depth q es = 0 \/
  exists n, In n (nodes es) /\ direct_match q (node_key n) (snd n) = true /\
            node_depth n = max_direct_depth q es.
Proof.
  unfold max_direct_depth.
  destruct (list_max_attained
              (map node_depth
                 (filter (fun n => direct_match q (node_key n) (snd n)) (nodes es))))
    as [H|H]; [now left|].
  right. apply in_map_iff in H as [n [Hd Hin]]. apply filter_In in Hin as [Hin Hm].
  now exists n.
Qed.

(** * The claims *)

(** C1 (defect of the code).  A property directly matches and is absent
    from the filtered output when it is named [__proto__]: the assignment
    [filtered[key] = value] of line 92 then replaces the prototype of
    [filtered] and creates no own property.  On
    [{ "__proto__": {description: "xx"} }] with the query ["xx"] the filter
    returns an object without keys. *)
Theorem proto_key_direct_match_dropped :
  direct_match "xx" "__proto__" (JObj [("description", JStr "xx")]) = true /\
  filterSchemaJ (S (height proto_schema)) (Some proto_schema) "xx" =
    Return (MkObject [] (NodePrototype (JObj [("description", JStr "xx")])), 0).
Proof. split; reflexivity. Qed.

(** The same collision with [hasOwnProperty]: once a property of that name
    is kept, the call [filtered.hasOwnProperty(key)] of line 91 throws. *)
Lemma shadowing_schema_throws :
  filterSchemaJ (S (height shadowing_schema)) (Some shadowing_schema) "xx"
    = Throw TypeError.
Proof. reflexivity. Qed.

(** C2.  With fuel beyond the height of a schema of well-typed nodes,
    [filterSchema] returns as [maxDepth] the greatest depth of a direct
    match (name or description contains the query), top-level properties
    being at depth 0: no direct match is deeper, and either [maxDepth] is 0
    or a direct match sits at that depth.  Nodes kept for a descendant only
    are not counted.  The filter throws only when a property is named
    [__proto__] or [hasOwnProperty]. *)
Theorem maxDepth_is_deepest_direct_match q P fuel :
  schema_ok (entries_of P) = true -> height_opt P < fuel ->
  match filterSchemaJ fuel P q with
  | Return (_, maxDepth) =>
      maxDepth = max_direct_depth q (entries_of P) /\
      (forall n, In n (nodes (entries_of P)) ->
                 direct_match q (node_key n) (snd n) = true ->
                 node_depth n <= maxDepth) /\
      (maxDepth = 0 \/
       exists n, In n (nodes (entries_of P)) /\
                 direct_match q (node_key n) (snd n) = true /\
                 node_depth n = maxDepth)
  | Throw _ => plain_keys (entries_of P) = false
  | OutOfFuel => False
  end.
Proof.
  intros Hs Hh. pose proof (filterSchemaJ_outcome fuel P q Hh) as Ho.
  destruct (filterSchemaJ fuel P q) as [[F md]|e|] eqn:E.
  - rewrite filterSchemaJ_eq in E.
    apply (filterProperties_counts q fuel P 0 0 F md Hs) in E.
    rewrite Nat.max_0_l, <- max_direct_depth_deepest in E. subst md.
    split; [reflexivity|]. split.
    + intros n. apply deepest_match_bound.
    + apply max_direct_depth_attained.
  - now rewrite Hs in Ho.
  - exact Ho.
Qed.

Lemma maxDepth_is_deepest_direct_match_witness :
  schema_ok (entries_of (Some sample_schema)) = true /\
  match filterSchemaJ 8 (Some sample_schema) "id" with
  | Return (_, maxDepth) =>
      maxDepth = max_direct_depth "id" (entries_of (Some sample_schema)) /\
      (forall n, In n (nodes (entries_of (Some sample_schema))) ->
                 direct_match "id" (node_key n) (snd n) = true ->
                 node_depth n <= maxDepth) /\
      (maxDepth = 0 \/
       exists n, In n (nodes (entries_of (Some sample_schema))) /\
                 direct_match "id" (node_key n) (snd n) = true /\
                 node_depth n = maxDepth)
  | Throw _ => plain_keys (entries_of (Some sample_schema)) = false
  | OutOfFuel => False
  end.
Proof.
  split; [reflexivity|].
  apply (maxDepth_is_deepest_direct_match "id" (Some sample_schema) 8);
    [reflexivity|vm_compute; lia].
Defined.

Lemma deep_copy_id : forall v, deep_copy v = v.
Proof.
  fix IH 1. intros [ | b | z | s | elems | fields]; simpl; try reflexivity.
  - f_equal. induction elems as [|e elems IHl]; simpl; [reflexivity|].
    now rewrite IH, IHl.
  - f_equal. induction fields as [|[k x] fields IHl]; simpl; [reflexivity|].
    now rewrite IH, IHl.
Qed.

(** C3.  For a query of length at most 1 the effect does not filter: the
    model it hands on is the schema as it was, and the expansion depth is
    set to 2. *)
Theorem short_query_bypasses_filter fuel data searchValue :
  String.length searchValue <= 1 ->
  modelEffect fuel data searchValue = Return (MkModelState data 2).
Proof.
  intros Hlen. unfold modelEffect. rewrite deep_copy_id.
  unfold filterEffectJ, filterEffect.
  destruct (Nat.ltb_spec 1 (String.length searchValue)); [lia|].
  now rewrite andb_false_r.
Qed.

Lemma short_query_bypasses_filter_witness :
  String.length "x" <= 1 /\
  modelEffect 8 [("type", JStr "object"); ("properties", example_schema)] "x" =
    Return (MkModelState
              [("type", JStr "object"); ("properties", example_schema)] 2).
Proof.
  split; [simpl; lia|].
  apply (short_query_bypasses_filter 8
           [("type", JStr "object"); ("properties", example_schema)] "x").
  simpl; lia.
Defined.

(** C4.  On [{ a: {description: "x"}, b: {type: "object", properties:
    { c: {description: "x"} }} }] with the query ["x"], [filterSchema]
    keeps [a], keeps [b] with its child [c], and computes [maxDepth = 1]. *)
Theorem example_schema_filtered fuel :
  height example_schema < fuel ->
  filterSchemaJ fuel (Some example_schema) "x" =
    Return (MkObject
              [("a", JObj [("description", JStr "x")]);
               ("b", JObj [("type", JStr "object");
                           ("properties",
                            JObj [("c", JObj [("description", JStr "x")])])])]
              ObjectPrototype, 1).
Proof.
  intros Hh.
  rewrite (filterSchemaJ_more_fuel (S (height example_schema)) fuel
             (Some example_schema) "x"); [reflexivity|discriminate|exact Hh].
Qed.

Lemma example_schema_filtered_witness :
  height example_schema < 6 /\
  filterSchemaJ 6 (Some example_schema) "x" =
    Return (MkObject
              [("a", JObj [("description", JStr "x")]);
               ("b", JObj [("type", JStr "object");
                           ("properties",
                            JObj [("c", JObj [("description", JStr "x")])])])]
              ObjectPrototype, 1).
Proof.
  split; [vm_compute; lia|].
  apply (example_schema_filtered 6). vm_compute; lia.
Defined.

Lemma In_same_key {A : Type} (es : props A) k v v' :
  nodup_keys (keys es) = true -> In (k, v) es -> In (k, v') es -> v = v'.
Proof.
  induction es as [|[k0 v0] es IH]; [simpl; tauto|].
  simpl. intros Hd. apply andb_prop in Hd as [Hk Hd].
  apply negb_true_iff in Hk.
  assert (Hnot : forall x, In (k0, x) es -> False).
  { intros x Hin. assert (existsb (String.eqb k0) (keys es) = true); [|congruence].
    apply existsb_exists. exists k0. split; [|apply String.eqb_refl].
    unfold keys. apply in_map_iff. now exists (k0, x). }
  intros [[= <- <-]|H1] [[= <-]|H2]; try congruence.
  - now apply Hnot in H2.
  - subst. now apply Hnot in H1.
  - now apply IH.
Qed.

(** For ordinary property names and well-typed nodes, the filter returns
    and keeps exactly the properties whose subtree matches. *)
Lemma retained_iff_subtree_matches q P fuel :
  js_repr_opt P = true -> schema_ok (entries_of P) = true ->
  plain_keys (entries_of P) = true -> height_opt P < fuel ->
  exists F md,
    filterSchemaJ fuel P q = Return (F, md) /\
    forall k, In k (keys (own F)) <->
              exists v, In (k, v) (entries_of P) /\ subtree_matches q k v = true.
Proof.
  intros Hr Hs Hp Hh.
  pose proof (filterSchemaJ_outcome fuel P q Hh) as Ho.
  destruct (filterSchemaJ fuel P q) as [[F md]|e|] eqn:E.
  - exists F, md. split; [reflexivity|]. intros k.
    destruct (filterSchemaJ_entries fuel P q F md Hr E) as [fuel' [-> Hown]].
    rewrite Hown. apply keys_filtered_entries_plain; try assumption.
    pose proof (height_props_entries_of P). lia.
  - now rewrite Hs, Hp in Ho.
  - contradiction.
Qed.

(** The emptiness checks of lines 64, 71 and 78: a node has no child
    properties unless it is an object with a truthy [properties] or an
    array whose [items] is an object with a truthy [properties]. *)
Lemma children_without_container (v : json) :
  (strict_eq_string jview (fieldJ v "type") "object" = false \/
   truthyJ (fieldJ v "properties") = false) ->
  (strict_eq_string jview (fieldJ v "type") "array" = false \/
   truthyJ (fieldJ v "items") = false \/
   match fieldJ v "items" with
   | Some i => typeof_object jview i = false \/
               truthyJ (fieldJ i "properties") = false
   | None => True
   end) ->
  children v = [].
Proof.
  unfold children, child_map, truthyJ, fieldJ. intros H1 H2.
  destruct (strict_eq_string jview (field jview v "type") "object"
            && truthy jview (field jview v "properties")) eqn:E1.
  - apply andb_prop in E1 as [Ea Eb]. destruct H1 as [H1|H1]; congruence.
  - destruct (strict_eq_string jview (field jview v "type") "array") eqn:Ea;
      cbn [andb]; [|reflexivity].
    destruct (truthy jview (field jview v "items")) eqn:Eb; cbn [andb];
      [|reflexivity].
    destruct (field jview v "items") as [i|]; [|reflexivity].
    destruct (typeof_object jview i) eqn:Ec; [|reflexivity].
    destruct H2 as [H2|[H2|[H2|H2]]]; try congruence.
    unfold entries_of, truthyJ. now rewrite H2.
Qed.

(** C5 (counterexample).  A property whose value is [null] makes the
    filter throw: [value.type] of line 71 is read from [null]. *)
Lemma null_node_value_throws :
  filterSchemaJ (S (height null_schema)) (Some null_schema) "ab" = Throw TypeError.
Proof. reflexivity. Qed.

(** C5 (amended).  On a schema whose node values are not [null], whose
    descriptions are strings and whose property names are ordinary, the
    filter returns whatever the shape of [properties] and [items]: a falsy
    [properties] gives the empty map, and a node that the emptiness checks
    leave without child properties ([children_without_container]) is kept
    exactly when it directly matches. *)
Theorem malformed_children_tolerated q P fuel :
  js_repr_opt P = true -> schema_ok (entries_of P) = true ->
  plain_keys (entries_of P) = true -> height_opt P < fuel ->
  exists F md,
    filterSchemaJ fuel P q = Return (F, md) /\
    (truthyJ P = false -> own F = []) /\
    forall k v, In (k, v) (entries_of P) -> children v = [] ->
                (In k (keys (own F)) <-> direct_match q k v = true).
Proof.
  intros Hr Hs Hp Hh.
  destruct (retained_iff_subtree_matches q P fuel Hr Hs Hp Hh) as [F [md [E Hiff]]].
  exists F, md. split; [exact E|]. split.
  - intros Ht. destruct (filterSchemaJ_entries fuel P q F md Hr E) as [f [_ Hown]].
    rewrite Hown. unfold entries_of. now rewrite Ht.
  - intros k v Hin Hc. rewrite Hiff. unfold subtree_matches, any_match. split.
    + intros [v' [Hin' Hm]].
      assert (v' = v).
      { apply (In_same_key (entries_of P) k); try assumption.
        pose proof (object_repr_entries_of P Hr) as Hrepr.
        unfold object_repr in Hrepr. now apply andb_prop in Hrepr as [Hrepr _]. }
      subst v'. rewrite Hc in Hm. now rewrite orb_false_r in Hm.
    + intros Hd. exists v. split; [exact Hin|]. now rewrite Hd.
Qed.

Lemma malformed_children_tolerated_witness :
  exists F md,
    filterSchemaJ 6 (Some odd_schema) "odd" = Return (F, md) /\
    (truthyJ (Some odd_schema) = false -> own F = []) /\
    forall k v, In (k, v) (entries_of (Some odd_schema)) -> children v = [] ->
                (In k (keys (own F)) <-> direct_match "odd" k v = true).
Proof.
  apply (malformed_children_tolerated "odd" (Some odd_schema) 6);
    [reflexivity|reflexivity|reflexivity|vm_compute; lia].
Defined.

(** C6.  With fuel beyond the height of a schema, filtering the result of
    the filter again with the same query returns the same structure.  The
    first pass throws only on a schema that is ill-typed or that names a
    property [__proto__] or [hasOwnProperty]. *)
Theorem filter_idempotent q P fuel :
  js_repr_opt P = true -> height_opt P < fuel ->
  match filterSchemaJ fuel P q with
  | Return (F, _) =>
      exists F2 md2,
        filterSchemaJ fuel (Some (as_node jalloc F)) q = Return (F2, md2) /\
        as_node jalloc F2 = as_node jalloc F
  | Throw _ => schema_ok (entries_of P) && plain_keys (entries_of P) = false
  | OutOfFuel => False
  end.
Proof.
  intros Hr Hh. pose proof (filterSchemaJ_outcome fuel P q Hh) as Ho.
  destruct (filterSchemaJ fuel P q) as [[F md]|e|] eqn:E; try exact Ho.
  rewrite filterSchemaJ_eq in E.
  destruct (filterProperties_idem fuel q P 0 0 F md Hr E 0 0)
    as [F2 [md2 [E2 Hown]]].
  exists F2, md2. rewrite filterSchemaJ_eq. split; [exact E2|].
  unfold as_node. now rewrite Hown.
Qed.

Lemma filter_idempotent_witness :
  js_repr_opt (Some sample_schema) = true /\
  match filterSchemaJ 8 (Some sample_schema) "id" with
  | Return (F, _) =>
      exists F2 md2,
        filterSchemaJ 8 (Some (as_node jalloc F)) "id" = Return (F2, md2) /\
        as_node jalloc F2 = as_node jalloc F
  | Throw _ =>
      schema_ok (entries_of (Some sample_schema))
      && plain_keys (entries_of (Some sample_schema)) = false
  | OutOfFuel => False
  end.
Proof.
  split; [reflexivity|].
  apply (filter_idempotent "id" (Some sample_schema) 8);
    [reflexivity|vm_compute; lia].
Defined.

(** C7 (defect of the code).  A container named [__proto__] that has a
    field [__proto__] of its own is included for a matching descendant with
    its [properties] unfiltered: line 75 installs the copy as the prototype
    of [filtered], and line 92 then finds [__proto__] on that prototype as
    a data property and stores the original node.  On
    [{ "__proto__": { type: "object", "__proto__": 1,
                      properties: { xx: {}, yy: {} } } }]
    with the query ["xx"] the output keeps [yy]. *)
Theorem proto_container_kept_unfiltered :
  filtered_entries (height nested_proto_node) "xx" (children nested_proto_node)
    = [("xx", JObj [])] /\
  exists F md,
    filterSchemaJ (S (height nested_proto_schema)) (Some nested_proto_schema) "xx"
      = Return (F, md) /\
    own F = [("__proto__", nested_proto_node)] /\
    In ("yy", JObj []) (children nested_proto_node) /\
    subtree_matches "xx" "yy" (JObj []) = false.
Proof.
  split; [reflexivity|]. eexists _, _.
  split; [reflexivity|]. split; [reflexivity|]. split; [|reflexivity].
  right. now left.
Qed.

(** For ordinary property names: a container with a matching descendant is
    placed as the copy whose children are the filtered children and whose
    other fields are those of the original, also when it matches
    directly. *)
Lemma container_copy_frame q P fuel k v :
  js_repr_opt P = true -> schema_ok (entries_of P) = true ->
  plain_keys (entries_of P) = true -> height_opt P < fuel ->
  In (k, v) (entries_of P) -> any_match q (children v) = true ->
  exists F md copy,
    filterSchemaJ fuel P q = Return (F, md) /\
    In (k, copy) (own F) /\
    (forall x, In (k, x) (own F) -> x = copy) /\
    children copy = filtered_entries (pred fuel) q (children v) /\
    (forall name, name <> "properties" -> name <> "items" ->
                  fieldJ copy name = fieldJ v name).
Proof.
  intros Hr Hs Hp Hh Hin Ha.
  pose proof (filterSchemaJ_outcome fuel P q Hh) as Ho.
  destruct (filterSchemaJ fuel P q) as [[F md]|e|] eqn:E;
    [|now rewrite Hs, Hp in Ho|contradiction].
  destruct (filterSchemaJ_entries fuel P q F md Hr E) as [fuel' [-> Hown]].
  assert (Hhp : height_props (entries_of P) <= S fuel')
    by (pose proof (height_props_entries_of P); lia).
  assert (Hv : js_repr v = true) by (eapply js_repr_entries_of; eassumption).
  destruct (schema_ok_In _ k v Hs Hin) as [Hnv Hsc].
  destruct (plain_keys_In _ k v Hp Hin) as [Hpk Hpc].
  assert (Hsub : filtered_entries fuel' q (children v) <> []).
  { intros Hnil.
    rewrite <- (filtered_entries_any_match fuel' q (children v)) in Ha;
      try assumption.
    - now rewrite Hnil in Ha.
    - pose proof (children_height v). rewrite height_props_le in Hhp.
      specialize (Hhp k v Hin). lia. }
  apply filtered_entries_nonempty in Hsub as Hch.
  destruct (children_nonempty_child_map v Hch) as [p [Ec He]].
  assert (Hpe : entries_of p <> []) by now rewrite He.
  destruct (container_of_child_map v p Hv Ec Hpe)
    as [pp [rebuild [_ [_ [Hcont Hw]]]]].
  exists F, md,
    (with_children jview jalloc v (JObj (filtered_entries fuel' q (children v)))).
  split; [reflexivity|]. rewrite Hown. cbn [pred]. repeat split.
  - apply (filtered_entries_plain fuel' q (entries_of P) (k, _) Hhp Hs Hp).
    exists v. split; [exact Hin|]. left. now split.
  - intros x Hx.
    apply (filtered_entries_plain fuel' q (entries_of P) (k, x) Hhp Hs Hp) in Hx
      as [v' [Hin' Hcase]]. cbn [fst snd] in *.
    assert (v' = v).
    { apply (In_same_key (entries_of P) k); try assumption.
      pose proof (object_repr_entries_of P Hr) as Hrepr.
      unfold object_repr in Hrepr. now apply andb_prop in Hrepr as [Hrepr _]. }
    subst v'. destruct Hcase as [[_ ->]|[Ha' _]]; [reflexivity|congruence].
  - now apply children_with_children.
  - intros name Hn1 Hn2. rewrite Hw.
    now apply (container_field v pp rebuild).
Qed.

(** C8.  With fuel beyond the height of a schema, the keys of the filtered
    output are the retained keys of the input in the order in which the
    input enumerates them. *)
Theorem order_preserved q P fuel :
  js_repr_opt P = true -> height_opt P < fuel ->
  match filterSchemaJ fuel P q with
  | Return (F, _) =>
      keys (own F) = filter (fun k => has_own k (own F)) (keys (entries_of P))
  | Throw _ => schema_ok (entries_of P) && plain_keys (entries_of P) = false
  | OutOfFuel => False
  end.
Proof.
  intros Hr Hh. pose proof (filterSchemaJ_outcome fuel P q Hh) as Ho.
  destruct (filterSchemaJ fuel P q) as [[F md]|e|] eqn:E; try exact Ho.
  destruct (filterSchemaJ_entries fuel P q F md Hr E) as [fuel' [_ Hown]].
  rewrite Hown. apply keys_filtered_entries. now apply object_repr_entries_of.
Qed.

Lemma order_preserved_witness :
  js_repr_opt (Some sample_schema) = true /\
  match filterSchemaJ 8 (Some sample_schema) "id" with
  | Return (F, _) =>
      keys (own F) =
      filter (fun k => has_own k (own F)) (keys (entries_of (Some sample_schema)))
  | Throw _ =>
      schema_ok (entries_of (Some sample_schema))
      && plain_keys (entries_of (Some sample_schema)) = false
  | OutOfFuel => False
  end.
Proof.
  split; [reflexivity|].
  apply (order_preserved "id" (Some sample_schema) 8);
    [reflexivity|vm_compute; lia].
Defined.

(** C9 (as stated).  A cycle in the object graph does not by itself keep
    the filter from returning: in [node = {}; node.properties = {self: node}]
    the object is reachable from itself, yet it has no [type], the filter
    makes no recursive call for it and returns. *)
Lemma untyped_cycle_returns :
  Graph.gview Graph.untyped_cycle (Graph.GRef 0)
    = SObj [("properties", Graph.GObj [("self", Graph.GRef 0)])] /\
  Graph.filterPropertiesG Graph.untyped_cycle 1 "xx"
    (Some (Graph.GObj [("self", Graph.GRef 0)])) 0 0
    = Return (MkObject [] ObjectPrototype, 0).
Proof. split; reflexivity. Qed.

(** C9 (amended).  On every JSON tree the recursion ends: with fuel beyond
    the height of its argument [filterProperties] returns or throws.
    Nothing bounds the recursion but the input.  On an object graph with a
    set of properties maps that the recursion does not leave, each of them
    holding a container whose child properties are in the set again,
    [filterProperties] never returns a result, whatever the stack allows;
    and when the container is the first property of its map and line 66
    does not throw at it, every call ends with the stack exhausted. *)
Theorem recursion_ends_on_trees_and_not_on_followed_cycles :
  (forall q fuel P d md,
     height_opt P < fuel -> filterPropertiesJ fuel q P d md <> OutOfFuel) /\
  (forall (h : Graph.heap) (C : jsval Graph.gnode -> Prop),
     never_left (calls (Graph.gview h) Graph.galloc) C ->
     forall p, C p ->
     forall fuel q d md r,
       Graph.filterPropertiesG h fuel q p d md <> Return r) /\
  (forall (h : Graph.heap) q (C : jsval Graph.gnode -> Prop),
     never_left (calls_first (Graph.gview h) Graph.galloc q) C ->
     forall p, C p ->
     forall fuel d md,
       Graph.filterPropertiesG h fuel q p d md = OutOfFuel).
Proof.
  split; [|split].
  - intros q fuel P d md. apply filterPropertiesJ_terminates.
  - intros h C HC p Hp fuel q d md r.
    now apply (filterProperties_never_returns _ (Graph.gview h) Graph.galloc C HC).
  - intros h q C HC p Hp fuel d md.
    now apply (filterProperties_exhausts_fuel _ (Graph.gview h) Graph.galloc q C HC).
Qed.

Lemma recursion_ends_on_trees_and_not_on_followed_cycles_witness :
  height_opt (Some sample_schema) < 8 /\
  filterPropertiesJ 8 "id" (Some sample_schema) 0 0 <> OutOfFuel /\
  (forall r,
     Graph.filterPropertiesG Graph.self_referential 8 "id"
       (Some (Graph.GObj [("self", Graph.GRef 0)])) 0 0 <> Return r) /\
  Graph.filterPropertiesG Graph.self_referential 8 "id"
    (Some (Graph.GObj [("self", Graph.GRef 0)])) 0 0 = OutOfFuel.
Proof.
  split; [vm_compute; lia|]. split; [|split].
  - apply (proj1 recursion_ends_on_trees_and_not_on_followed_cycles
             "id" 8 (Some sample_schema) 0 0).
    vm_compute; lia.
  - intros r.
    apply (proj1 (proj2 recursion_ends_on_trees_and_not_on_followed_cycles)
             Graph.self_referential
             (fun p => p = Some (Graph.GObj [("self", Graph.GRef 0)]))).
    + intros p Hp.
      destruct (self_referential_never_left "id" p Hp) as [p' [Hc Hp']].
      exists p'. split; [exact (calls_first_calls _ _ _ _ _ Hc)|exact Hp'].
    + reflexivity.
  - apply (proj2 (proj2 recursion_ends_on_trees_and_not_on_followed_cycles)
             Graph.self_referential "id"
             (fun p => p = Some (Graph.GObj [("self", Graph.GRef 0)]))
             (self_referential_never_left "id")).
    reflexivity.
Defined.

Lemma direct_match_same_description q k x v :
  fieldJ x "description" = fieldJ v "description" ->
  direct_match q k x = direct_match q k v.
Proof. unfold direct_match. now intros ->. Qed.

(** C10.  With fuel beyond the height of a schema, every node of the
    filtered output has its ancestors in the filtered output, is found in
    the original schema at the same path, hence at the same depth, with
    the same description, and, when it directly matches, lies no deeper
    than the returned [maxDepth]. *)
Theorem retained_nodes_keep_their_place q P fuel :
  js_repr_opt P = true -> height_opt P < fuel ->
  match filterSchemaJ fuel P q with
  | Return (F, maxDepth) =>
      forall path x, In (path, x) (nodes (own F)) ->
        (forall p1 p2, p1 <> [] -> p2 <> [] -> path = p1 ++ p2 ->
           exists y, In (p1, y) (nodes (own F)) /\
                     In (p2, x) (nodes (children y))) /\
        (exists v, In (path, v) (nodes (entries_of P)) /\
                   fieldJ x "description" = fieldJ v "description") /\
        (direct_match q (node_key (path, x)) x = true ->
         node_depth (path, x) <= maxDepth)
  | Throw _ => schema_ok (entries_of P) && plain_keys (entries_of P) = false
  | OutOfFuel => False
  end.
Proof.
  intros Hr Hh. pose proof (filterSchemaJ_outcome fuel P q Hh) as Ho.
  destruct (filterSchemaJ fuel P q) as [[F md]|e|] eqn:E; try exact Ho.
  destruct (filterSchemaJ_entries fuel P q F md Hr E) as [fuel' [_ Hown]].
  rewrite filterSchemaJ_eq in E.
  pose proof (filterProperties_reaches q fuel P 0 0 F md E) as Hreach.
  intros path x Hin.
  assert (Hsame : exists v, In (path, v) (nodes (entries_of P)) /\
                            fieldJ x "description" = fieldJ v "description").
  { rewrite Hown in Hin. apply (nodes_filtered_entries (S fuel') q); [|exact Hin].
    intros [k v] Hkv. eapply js_repr_entries_of; eassumption. }
  split; [|split; [exact Hsame|]].
  - intros p1 p2 H1 H2 ->. now apply nodes_ancestors.
  - destruct Hsame as [v [Hv Hd]]. intros Hm.
    rewrite (direct_match_same_description q _ x v Hd) in Hm.
    pose proof (deepest_match_bound q (entries_of P) (path, v) Hv Hm) as Hb.
    rewrite max_direct_depth_deepest in Hb.
    change (node_depth (path, x)) with (node_depth (path, v)). lia.
Qed.

Lemma retained_nodes_keep_their_place_witness :
  js_repr_opt (Some sample_schema) = true /\
  match filterSchemaJ 8 (Some sample_schema) "id" with
  | Return (F, maxDepth) =>
      forall path x, In (path, x) (nodes (own F)) ->
        (forall p1 p2, p1 <> [] -> p2 <> [] -> path = p1 ++ p2 ->
           exists y, In (p1, y) (nodes (own F)) /\
                     In (p2, x) (nodes (children y))) /\
        (exists v, In (path, v) (nodes (entries_of (Some sample_schema))) /\
                   fieldJ x "description" = fieldJ v "description") /\
        (direct_match "id" (node_key (path, x)) x = true ->
         node_depth (path, x) <= maxDepth)
  | Throw _ =>
      schema_ok (entries_of (Some sample_schema))
      && plain_keys (entries_of (Some sample_schema)) = false
  | OutOfFuel => False
  end.
Proof.
  split; [reflexivity|].
  apply (retained_nodes_keep_their_place "id" (Some sample_schema) 8);
    [reflexivity|vm_compute; lia].
Defined.

(** * Further properties of the filter *)

(** ** Substrings *)

Lemma prefix_append (q s : string) :
  String.prefix q s = true <-> exists b, s = (q ++ b)%string.
Proof.
  revert s. induction q as [|c q IH]; intros [|c' s]; cbn [String.prefix append].
  - split; [now exists ""|reflexivity].
  - split; [now exists (String c' s)|reflexivity].
  - split; [discriminate|intros [b Hb]; discriminate].
  - destruct (Ascii.ascii_dec c c') as [->|Hne].
    + rewrite IH. split; intros [b Hb]; exists b; [now rewrite Hb|].
      now injection Hb.
    + split; [discriminate|]. intros [b Hb]. injection Hb as Hc _. symmetry in Hc. contradiction.
Qed.

(** [s.includes(q)] holds exactly when [s] is [q] with something before
    and something after it. *)
Lemma includes_append (s q : string) :
  includes s q = true <-> exists a b, s = (a ++ q ++ b)%string.
Proof.
  induction s as [|c s IH]; cbn [includes]; rewrite orb_true_iff, prefix_append.
  - split.
    + intros [[b Hb]|H]; [|discriminate]. now exists "", b.
    + intros [a [b H]]. left. destruct a; [now exists b|discriminate].
  - rewrite IH. split.
    + intros [[b Hb]|[a [b H]]]; [now exists "", b|].
      exists (String c a), b. simpl. now rewrite H.
    + intros [a [b H]]. destruct a as [|c' a]; [left; now exists b|].
      right. exists a, b. simpl in H. now injection H.
Qed.

Lemma append_assoc (a b c : string) : ((a ++ b) ++ c = a ++ b ++ c)%string.
Proof. induction a as [|x a IH]; simpl; [reflexivity|now rewrite IH]. Qed.

(** A string that contains [q'] contains every part of [q']. *)
Lemma includes_trans (s q' q : string) :
  includes s q' = true -> includes q' q = true -> includes s q = true.
Proof.
  rewrite !includes_append. intros [a [b ->]] [c [d ->]].
  exists (a ++ c)%string, (d ++ b)%string.
  now rewrite !append_assoc.
Qed.

Lemma direct_match_narrower q q' k v :
  includes q' q = true -> direct_match q' k v = true -> direct_match q k v = true.
Proof.
  intros Hq. unfold direct_match. rewrite !orb_true_iff. intros [H|H].
  - left. eapply includes_trans; eassumption.
  - right. destruct (fieldJ v "description") as [[ | | |s| | ]|]; try discriminate.
    eapply includes_trans; eassumption.
Qed.

Lemma any_match_narrower q q' es :
  includes q' q = true -> any_match q' es = true -> any_match q es = true.
Proof.
  intros Hq. unfold any_match. rewrite !existsb_exists.
  intros [n [Hin Hm]]. exists n. split; [exact Hin|].
  eapply direct_match_narrower; eassumption.
Qed.

Lemma In_list_max (l : list nat) (n : nat) : In n l -> n <= list_max l.
Proof.
  intros Hin. pose proof (proj1 (list_max_le l (list_max l)) (le_n _)) as H.
  rewrite Forall_forall in H. now apply H.
Qed.

Lemma max_direct_depth_narrower q q' es :
  includes q' q = true -> max_direct_depth q' es <= max_direct_depth q es.
Proof.
  intros Hq. unfold max_direct_depth. apply list_max_le, Forall_forall.
  intros d Hd. apply in_map_iff in Hd as [n [<- Hn]].
  apply filter_In in Hn as [Hin Hm]. apply In_list_max, in_map, filter_In.
  split; [exact Hin|]. eapply direct_match_narrower; eassumption.
Qed.

(** X1.  Extending the query narrows the result.  When [q] occurs in [q'],
    on a schema of well-typed nodes with ordinary names every top-level
    property kept for [q'] is kept for [q], and the expansion depth found
    for [q'] is at most the one found for [q]. *)
Theorem longer_query_keeps_fewer_properties q q' P fuel :
  includes q' q = true ->
  js_repr_opt P = true -> schema_ok (entries_of P) = true ->
  plain_keys (entries_of P) = true -> height_opt P < fuel ->
  exists F md F' md',
    filterSchemaJ fuel P q = Return (F, md) /\
    filterSchemaJ fuel P q' = Return (F', md') /\
    (forall k, In k (keys (own F')) -> In k (keys (own F))) /\
    md' <= md.
Proof.
  intros Hq Hr Hs Hp Hh.
  destruct (retained_iff_subtree_matches q P fuel Hr Hs Hp Hh) as [F [md [E HF]]].
  destruct (retained_iff_subtree_matches q' P fuel Hr Hs Hp Hh)
    as [F' [md' [E' HF']]].
  exists F, md, F', md'. split; [exact E|]. split; [exact E'|]. split.
  - intros k Hk. apply HF. apply HF' in Hk as [v [Hin Hm]].
    exists v. split; [exact Hin|]. unfold subtree_matches in *.
    apply orb_true_iff in Hm as [Hm|Hm]; apply orb_true_iff.
    + left. eapply direct_match_narrower; eassumption.
    + right. eapply any_match_narrower; eassumption.
  - rewrite filterSchemaJ_eq in E, E'.
    apply (filterProperties_counts q fuel P 0 0 F md Hs) in E.
    apply (filterProperties_counts q' fuel P 0 0 F' md' Hs) in E'.
    rewrite Nat.max_0_l, <- max_direct_depth_deepest in E, E'. subst md md'.
    now apply max_direct_depth_narrower.
Qed.

Lemma longer_query_keeps_fewer_properties_witness :
  exists F md F' md',
    filterSchemaJ 8 (Some sample_schema) "id" = Return (F, md) /\
    filterSchemaJ 8 (Some sample_schema) "_id" = Return (F', md') /\
    (forall k, In k (keys (own F')) -> In k (keys (own F))) /\
    md' <= md.
Proof.
  apply (longer_query_keeps_fewer_properties "id" "_id" (Some sample_schema) 8);
    try reflexivity.
  vm_compute; lia.
Defined.

(** Below the top level a longer query can show more.  For ["abc"] the
    container matches alone and is kept whole, with its child [zz]; for
    ["ab"] its child [ab] matches as well and [zz] is filtered out. *)
Lemma longer_query_can_show_more :
  (exists F md x,
     filterSchemaJ 5 (Some nested_names_schema) "abc" = Return (F, md) /\
     In (["abc"; "zz"], x) (nodes (own F))) /\
  (exists F md,
     filterSchemaJ 5 (Some nested_names_schema) "ab" = Return (F, md) /\
     forall x, ~ In (["abc"; "zz"], x) (nodes (own F))).
Proof.
  split.
  - eexists _, _, _. split; [reflexivity|]. vm_compute. tauto.
  - eexists _, _. split; [reflexivity|]. intros x. vm_compute.
    intuition discriminate.
Qed.

(** ** Where the filter throws *)

(** The reads of lines 66 and 71 throw exactly at a faulty node. *)
Lemma faulty_false q k v :
  faulty q k v = false ->
  v <> JNull /\ exists inc, include_of jview q k v = Return inc.
Proof.
  unfold faulty, include_of. intros Hf.
  split; [intros ->; discriminate|].
  destruct (includes k q); [now eexists|]. cbn [negb andb] in Hf.
  rewrite get_not_null by (intros ->; discriminate). cbn [bind].
  destruct (fieldJ v "description") as [d|]; [|destruct v; now eexists].
  assert (Hd : truthyJ (Some d) &&
               match d with JStr _ | JArr _ => false | _ => true end = false)
    by (destruct v; first [discriminate | exact Hf]).
  change (truthy jview (Some d)) with (truthyJ (Some d)).
  destruct (truthyJ (Some d)); [|now eexists].
  unfold call_includes. destruct d; try discriminate; cbn [jview]; now eexists.
Qed.

Lemma faulty_true q k v :
  faulty q k v = true ->
  (inc <- include_of jview q k v ;; _ <- get jview v "type" ;; Return inc)
    = Throw TypeError.
Proof.
  unfold faulty, include_of. destruct v as [ | b | z | s | elems | fields];
    try (destruct (includes k q); reflexivity).
  all: destruct (includes k q); [discriminate|]; cbn [negb andb].
  all: rewrite get_not_null by discriminate; cbn [bind].
  all: destruct (fieldJ _ "description") as [d|]; [|discriminate].
  all: change (truthy jview (Some d)) with (truthyJ (Some d)).
  all: destruct (truthyJ (Some d)); [|discriminate].
  all: unfold call_includes; destruct d; try discriminate; reflexivity.
Qed.

Lemma faultless_In q es k v :
  faultless q es = true -> In (k, v) es ->
  faulty q k v = false /\ faultless q (children v) = true.
Proof.
  intros H Hin.
  destruct (forallb_nodes_In (fun k v => negb (faulty q k v)) es k v H Hin)
    as [Hf Hc].
  split; [now apply negb_true_iff|exact Hc].
Qed.

Lemma filterEntry_faultless q fuel d t m k v :
  (forall p d m, faultless q (entries_of p) = true ->
                 plain_keys (entries_of p) = true ->
                 height_opt p < fuel ->
                 exists r, filterPropertiesJ fuel q p d m = Return r) ->
  plain_key k = true -> faulty q k v = false ->
  faultless q (children v) = true -> plain_keys (children v) = true ->
  height v <= fuel -> pristine t ->
  exists t' m',
    filterEntry jview jalloc (filterPropertiesJ fuel q) q d (t, m) (k, v)
      = Return (t', m') /\ pristine t'.
Proof.
  intros IH Hk Hv Hsc Hpc Hh Ht. rewrite filterEntry_eq.
  destruct (faulty_false q k v Hv) as [Hnn [inc Hi]].
  rewrite Hi. cbn [bind].
  rewrite get_not_null by exact Hnn. cbn [bind]. cbv zeta.
  destruct (child_map jview v) as [p|] eqn:Ec.
  - rewrite (children_some _ _ Ec) in Hsc, Hpc.
    pose proof (child_map_height _ _ Ec) as Hlt.
    destruct (IH p (d + 1) (raise_depth inc d m) Hsc Hpc)
      as [[fc m2] Hr]; [lia|].
    rewrite Hr. cbn [bind].
    destruct (0 <? List.length (keys (own fc)))%nat.
    + match goal with
      | |- context [place_direct jview ?o k v true] =>
          destruct (@place_direct_pristine o k v true Hk) as [t' [Hp Ht']]
      end; [now apply pristine_assign|].
      rewrite Hp. cbn [bind]. now exists t', m2.
    + destruct (@place_direct_pristine t k v inc Hk Ht) as [t' [Hp Ht']].
      rewrite Hp. cbn [bind]. now exists t', m2.
  - destruct (@place_direct_pristine t k v inc Hk Ht) as [t' [Hp Ht']].
    rewrite Hp. cbn [bind]. eexists _, _. split; [reflexivity|exact Ht'].
Qed.

Lemma for_of_faultless q fuel d es :
  (forall p d m, faultless q (entries_of p) = true ->
                 plain_keys (entries_of p) = true ->
                 height_opt p < fuel ->
                 exists r, filterPropertiesJ fuel q p d m = Return r) ->
  faultless q es = true -> plain_keys es = true -> height_props es <= fuel ->
  forall t m, pristine t ->
    exists r, for_of es (filterEntry jview jalloc (filterPropertiesJ fuel q) q d)
                (t, m) = Return r.
Proof.
  intros IH. induction es as [|[k v] es IHes]; intros Hs Hp Hh t m Ht;
    cbn [for_of]; [now eexists|].
  destruct (faultless_In q _ k v Hs (or_introl eq_refl)) as [Hv Hsc].
  destruct (plain_keys_In _ k v Hp (or_introl eq_refl)) as [Hk Hpc].
  unfold faultless, plain_keys in Hs, Hp.
  rewrite (forallb_nodes_cons (fun k v => negb (faulty q k v))) in Hs.
  rewrite (forallb_nodes_cons (fun k _ => plain_key k)) in Hp.
  apply andb_prop in Hs as [_ Hs]. apply andb_prop in Hp as [_ Hp].
  simpl in Hh.
  destruct (@filterEntry_faultless q fuel d t m k v IH Hk Hv Hsc Hpc)
    as [t' [m' [He Ht']]]; [lia|exact Ht|].
  rewrite He. cbn [bind]. apply IHes; [exact Hs|exact Hp|lia|exact Ht'].
Qed.

(** Without a faulty node and with ordinary property names the filter
    returns. *)
Lemma filterProperties_faultless q fuel p d m :
  faultless q (entries_of p) = true -> plain_keys (entries_of p) = true ->
  height_opt p < fuel ->
  exists r, filterPropertiesJ fuel q p d m = Return r.
Proof.
  revert p d m. induction fuel as [|fuel IH]; intros p d m Hs Hp Hh; [lia|].
  unfold filterPropertiesJ. cbn [filterProperties].
  destruct (truthy jview p) eqn:Et; cbn [negb]; [|now eexists].
  destruct p as [x|]; [|now eexists].
  assert (He : own_entries jview jalloc x = entries_of (Some x))
    by (unfold entries_of, truthyJ; now rewrite Et).
  rewrite He. apply for_of_faultless; try assumption.
  - pose proof (height_props_entries_of (Some x)). simpl in *. lia.
  - split; reflexivity.
Qed.

(** A loop that throws at one of its entries throws, if it ends. *)
Lemma for_of_throws {A S : Type} (es : list A) (body : S -> A -> outcome S)
    (e : A) (st : S) :
  In e es -> (forall s, body s e = Throw TypeError) ->
  for_of es body st <> OutOfFuel ->
  for_of es body st = Throw TypeError.
Proof.
  intros Hin Hthrow. revert st.
  induction es as [|e0 es IH]; intros st Hfuel; [destruct Hin|].
  cbn [for_of] in *.
  destruct (body st e0) as [st'|[]|] eqn:Eb; cbn [bind] in *;
    [|reflexivity|congruence].
  destruct Hin as [->|Hin]; [rewrite Hthrow in Eb; discriminate|].
  now apply IH.
Qed.

Lemma node_at_nonempty es path x : node_at es path x -> es <> [] /\ path <> [].
Proof.
  intros H. destruct H as [es k v Hin|es k v path x Hin _];
    (split; [intros ->; destruct Hin|discriminate]).
Qed.

Lemma entries_of_own_entries (p : option json) :
  entries_of p <> [] ->
  exists x, p = Some x /\ truthy jview p = true /\
            own_entries jview jalloc x = entries_of p.
Proof.
  unfold entries_of, truthyJ. destruct (truthy jview p) eqn:Et; [|congruence].
  destruct p as [x|]; [|congruence]. intros _. now exists x.
Qed.

(** A faulty node anywhere in the tree makes the whole call throw. *)
Lemma filterProperties_faulty q es path x :
  node_at es path x -> faulty q (last path "") x = true ->
  forall fuel p d m,
    entries_of p = es -> height_opt p < fuel ->
    filterPropertiesJ fuel q p d m = Throw TypeError.
Proof.
  induction 1 as [es k v Hin|es k v path x Hin Hsub IH]; intros Hf fuel p d m He Hh.
  - pose proof (filterPropertiesJ_terminates q fuel p d m Hh) as Hfuel.
    destruct fuel as [|fuel]; [lia|].
    unfold filterPropertiesJ in *. cbn [filterProperties] in *.
    destruct (entries_of_own_entries p) as [x0 [-> [Ht Ho]]];
      [rewrite He; intros ->; destruct Hin|].
    rewrite Ht in *. cbn [negb] in *. rewrite Ho, He in *.
    apply (for_of_throws es _ (k, v)); [exact Hin| |exact Hfuel].
    intros [t m0]. rewrite filterEntry_eq.
    cbn [last] in Hf. pose proof (faulty_true q k v Hf) as Hthrow.
    destruct (include_of jview q k v) as [inc|[]|]; cbn [bind] in *;
      [|reflexivity|discriminate].
    destruct (get jview v "type") as [ty|[]|]; cbn [bind] in *;
      [discriminate|reflexivity|discriminate].
  - pose proof (filterPropertiesJ_terminates q fuel p d m Hh) as Hfuel.
    destruct fuel as [|fuel]; [lia|].
    unfold filterPropertiesJ in *. cbn [filterProperties] in *.
    destruct (entries_of_own_entries p) as [x0 [-> [Ht Ho]]];
      [rewrite He; intros ->; destruct Hin|].
    rewrite Ht in *. cbn [negb] in *. rewrite Ho, He in *.
    apply (for_of_throws es _ (k, v)); [exact Hin| |exact Hfuel].
    intros [t m0]. rewrite filterEntry_eq.
    destruct (include_of jview q k v) as [inc|[]|] eqn:Ei; cbn [bind];
      [|reflexivity|now apply include_of_fuel in Ei].
    destruct (get jview v "type") as [ty|[]|] eqn:Eg; cbn [bind];
      [|reflexivity|destruct v; discriminate].
    cbv zeta. destruct (node_at_nonempty _ _ _ Hsub) as [Hne Hpath].
    destruct (children_nonempty_child_map v Hne) as [p' [Ec Hep]].
    rewrite Ec.
    assert (Hlast : last (k :: path) "" = last path "")
      by (cbn [last]; destruct path; [congruence|reflexivity]).
    rewrite Hlast in Hf.
    assert (Hv : height v <= height x0).
    { apply (entries_of_height (Some x0) k). now rewrite He. }
    pose proof (child_map_height _ _ Ec) as Hlt.
    rewrite (IH Hf fuel p' (d + 1) (raise_depth inc d m0) Hep);
      [reflexivity|simpl in Hh; lia].
Qed.

Lemma forallb_false_exists {A : Type} (f : A -> bool) (l : list A) :
  forallb f l = false -> exists x, In x l /\ f x = false.
Proof.
  induction l as [|a l IH]; [discriminate|]. cbn [forallb].
  destruct (f a) eqn:Ea; cbn [andb].
  - intros H. destruct (IH H) as [x [Hin Hx]]. exists x. split; [now right|exact Hx].
  - intros _. exists a. split; [now left|exact Ea].
Qed.

Lemma filterSchemaJ_faulty q P fuel :
  faultless q (entries_of P) = false -> height_opt P < fuel ->
  filterSchemaJ fuel P q = Throw TypeError.
Proof.
  intros Hf Hh. apply forallb_false_exists in Hf as [[path x] [Hin Hx]].
  apply negb_false_iff in Hx. apply nodes_node_at in Hin.
  rewrite filterSchemaJ_eq.
  now apply (filterProperties_faulty q (entries_of P) path x Hin Hx fuel P 0 0).
Qed.

(** X2.  A faulty node anywhere in the tree makes [filterSchema] throw a
    [TypeError], whatever the other properties are: a property whose value
    is [null], or one whose name does not contain the query while its
    description is a number other than 0, [true] or an object.  No part of
    the result is returned. *)
Theorem faulty_node_makes_filter_throw q P fuel path x :
  In (path, x) (nodes (entries_of P)) -> faulty q (node_key (path, x)) x = true ->
  height_opt P < fuel ->
  filterSchemaJ fuel P q = Throw TypeError.
Proof.
  intros Hin Hx Hh. apply nodes_node_at in Hin. rewrite filterSchemaJ_eq.
  now apply (filterProperties_faulty q (entries_of P) path x Hin Hx fuel P 0 0).
Qed.

Lemma faulty_node_makes_filter_throw_witness :
  filterSchemaJ 8 (Some faulty_schema) "id" = Throw TypeError.
Proof.
  apply (faulty_node_makes_filter_throw "id" (Some faulty_schema) 8
           ["address"; "zip"] (JObj [("description", JNum 5)]));
    [vm_compute; tauto|reflexivity|vm_compute; lia].
Defined.

(** X3.  With ordinary property names the faulty nodes are the only cause
    of an error: [filterSchema] returns exactly when no node of the tree is
    faulty.  A description that is an array does not make a node faulty. *)
Theorem filter_returns_iff_no_faulty_node q P fuel :
  plain_keys (entries_of P) = true -> height_opt P < fuel ->
  (exists F md, filterSchemaJ fuel P q = Return (F, md)) <->
  faultless q (entries_of P) = true.
Proof.
  intros Hp Hh. split.
  - intros [F [md Hr]]. destruct (faultless q (entries_of P)) eqn:Ef;
      [reflexivity|].
    rewrite (filterSchemaJ_faulty q P fuel Ef Hh) in Hr. discriminate.
  - intros Ef.
    destruct (filterProperties_faultless q fuel P 0 0 Ef Hp Hh) as [[F md] Hr].
    exists F, md. now rewrite filterSchemaJ_eq.
Qed.

Lemma filter_returns_iff_no_faulty_node_witness :
  (exists F md, filterSchemaJ 8 (Some faulty_schema) "zip" = Return (F, md)) <->
  faultless "zip" (entries_of (Some faulty_schema)) = true.
Proof.
  apply (filter_returns_iff_no_faulty_node "zip" (Some faulty_schema) 8);
    [reflexivity|vm_compute; lia].
Defined.

(** ** What is kept of a property *)

(** X4.  For ordinary property names and well-typed nodes the filter keeps
    exactly the properties whose subtree matches: a property is in the
    result if and only if it, or a node below it at any depth, matches
    directly.  No key is made up: every key of the result is a key of the
    input. *)
Theorem property_kept_iff_subtree_matches q P fuel :
  js_repr_opt P = true -> schema_ok (entries_of P) = true ->
  plain_keys (entries_of P) = true -> height_opt P < fuel ->
  exists F md,
    filterSchemaJ fuel P q = Return (F, md) /\
    (forall k, In k (keys (own F)) <->
               exists v, In (k, v) (entries_of P) /\
                         subtree_matches q k v = true) /\
    (forall k, In k (keys (own F)) -> In k (keys (entries_of P))).
Proof.
  intros Hr Hs Hp Hh.
  destruct (retained_iff_subtree_matches q P fuel Hr Hs Hp Hh) as [F [md [E HF]]].
  exists F, md. split; [exact E|]. split; [exact HF|].
  intros k Hk. apply HF in Hk as [v [Hin _]].
  unfold keys. apply in_map_iff. now exists (k, v).
Qed.

Lemma property_kept_iff_subtree_matches_witness :
  exists F md,
    filterSchemaJ 8 (Some sample_schema) "id" = Return (F, md) /\
    (forall k, In k (keys (own F)) <->
               exists v, In (k, v) (entries_of (Some sample_schema)) /\
                         subtree_matches "id" k v = true) /\
    (forall k, In k (keys (own F)) ->
               In k (keys (entries_of (Some sample_schema)))).
Proof.
  apply (property_kept_iff_subtree_matches "id" (Some sample_schema) 8);
    try reflexivity.
  vm_compute; lia.
Defined.

(** X5.  On a schema of well-typed nodes with ordinary property names, a
    property that matches directly while nothing below it matches is kept
    as the original value: nothing is removed from it, so the child
    properties it has are all shown although none of them matches. *)
Theorem direct_match_keeps_whole_property q P fuel k v :
  js_repr_opt P = true -> schema_ok (entries_of P) = true ->
  plain_keys (entries_of P) = true -> height_opt P < fuel ->
  In (k, v) (entries_of P) ->
  direct_match q k v = true -> any_match q (children v) = false ->
  exists F md,
    filterSchemaJ fuel P q = Return (F, md) /\
    In (k, v) (own F) /\ forall x, In (k, x) (own F) -> x = v.
Proof.
  intros Hr Hs Hp Hh Hin Hd Ha.
  pose proof (filterSchemaJ_outcome fuel P q Hh) as Ho.
  destruct (filterSchemaJ fuel P q) as [[F md]|e|] eqn:E;
    [|now rewrite Hs, Hp in Ho|contradiction].
  destruct (filterSchemaJ_entries fuel P q F md Hr E) as [fuel' [-> Hown]].
  assert (Hhp : height_props (entries_of P) <= S fuel')
    by (pose proof (height_props_entries_of P); lia).
  exists F, md. split; [reflexivity|]. rewrite Hown. split.
  - apply (filtered_entries_plain fuel' q (entries_of P) (k, v) Hhp Hs Hp).
    exists v. split; [exact Hin|]. right. now repeat split.
  - intros x Hx.
    apply (filtered_entries_plain fuel' q (entries_of P) (k, x) Hhp Hs Hp) in Hx
      as [v' [Hin' Hcase]]. cbn [fst snd] in *.
    assert (v' = v).
    { apply (In_same_key (entries_of P) k); try assumption.
      pose proof (object_repr_entries_of P Hr) as Hrepr.
      unfold object_repr in Hrepr. now apply andb_prop in Hrepr as [Hrepr _]. }
    subst v'. destruct Hcase as [[Ha' _]|[_ [_ ->]]]; [congruence|reflexivity].
Qed.

Lemma direct_match_keeps_whole_property_witness :
  exists F md,
    filterSchemaJ 8 (Some sample_schema) "tags" = Return (F, md) /\
    In ("tags", JObj [("type", JStr "array");
                      ("items",
                       JObj [("type", JStr "object");
                             ("properties",
                              JObj [("name", JObj [("description", JStr "tag identity")])])])])
       (own F).
Proof.
  destruct (direct_match_keeps_whole_property "tags" (Some sample_schema) 8 "tags"
              (JObj [("type", JStr "array");
                     ("items",
                      JObj [("type", JStr "object");
                            ("properties",
                             JObj [("name", JObj [("description", JStr "tag identity")])])])]))
    as [F [md [E [Hin _]]]]; try reflexivity.
  - vm_compute; lia.
  - vm_compute; tauto.
  - now exists F, md.
Defined.

Lemma existsb_string_element (q : string) (elems : list json) :
  existsb (fun e => match jview e with SStr t => t =? q | _ => false end) elems
    = true <-> In (JStr q) elems.
Proof.
  rewrite existsb_exists. split.
  - intros [e [Hin He]]. destruct e; try discriminate. cbn [jview] in He.
    apply String.eqb_eq in He. now subst.
  - intros Hin. exists (JStr q). split; [exact Hin|]. cbn [jview].
    apply String.eqb_refl.
Qed.

Lemma js_direct_array_description q k v elems :
  fieldJ v "description" = Some (JArr elems) ->
  js_direct q k v = true <-> includes k q = true \/ In (JStr q) elems.
Proof.
  intros Hd. unfold js_direct, include_of.
  destruct (includes k q); [split; [now left|reflexivity]|].
  assert (Hv : v <> JNull) by (intros ->; discriminate).
  rewrite get_not_null by exact Hv. cbn [bind]. rewrite Hd.
  cbn [truthy jview call_includes]. rewrite existsb_string_element.
  split; [now right|]. now intros [H|H].
Qed.

(** X6.  A description that is an array is searched with
    [Array.prototype.includes].  On a schema with ordinary property names
    and without a faulty node, a property without child properties whose
    description is a list is kept exactly when its name contains the query
    or an element of the list is the query itself; an element that merely
    contains the query does not count. *)
Theorem array_description_matches_by_element q P fuel k v elems :
  js_repr_opt P = true -> plain_keys (entries_of P) = true ->
  faultless q (entries_of P) = true -> height_opt P < fuel ->
  In (k, v) (entries_of P) ->
  fieldJ v "description" = Some (JArr elems) -> children v = [] ->
  exists F md,
    filterSchemaJ fuel P q = Return (F, md) /\
    (In k (keys (own F)) <-> includes k q = true \/ In (JStr q) elems).
Proof.
  intros Hr Hp Hf Hh Hin Hd Hc.
  destruct (filterProperties_faultless q fuel P 0 0 Hf Hp Hh) as [[F md] E].
  rewrite <- filterSchemaJ_eq in E. exists F, md. split; [exact E|].
  destruct (filterSchemaJ_entries fuel P q F md Hr E) as [fuel' [-> Hown]].
  rewrite Hown, <- (js_direct_array_description q k v elems Hd).
  destruct (plain_keys_In _ k v Hp Hin) as [Hk _].
  assert (Hkept : kept q (filtered_entries fuel' q (children v)) (k, v) =
                  if js_direct q k v then [(k, v)] else []).
  { rewrite Hc, filtered_entries_nil. unfold kept, plain_key in *.
    apply andb_prop in Hk as [Hk _]. apply negb_true_iff in Hk. now rewrite Hk. }
  cbn [filtered_entries]. unfold keys. rewrite in_map_iff. split.
  - intros [[k' x] [Hk' Hx]]. cbn [fst] in Hk'. subst k'.
    apply in_flat_map in Hx as [[k' v'] [Hin' Hx]]. cbn [snd] in Hx.
    destruct (kept_one q (filtered_entries fuel' q (children v')) k' v')
      as [He|[y He]]; rewrite He in Hx; [destruct Hx|].
    destruct Hx as [[= -> ->]|[]].
    assert (v' = v).
    { apply (In_same_key (entries_of P) k); try assumption.
      pose proof (object_repr_entries_of P Hr) as Hrepr.
      unfold object_repr in Hrepr. now apply andb_prop in Hrepr as [Hrepr _]. }
    subst v'. rewrite Hkept in He. now destruct (js_direct q k v).
  - intros Hj. exists (k, v). split; [reflexivity|].
    apply in_flat_map. exists (k, v). split; [exact Hin|]. cbn [snd].
    rewrite Hkept, Hj. now left.
Qed.

Lemma array_description_matches_by_element_witness :
  exists F md,
    filterSchemaJ 8 (Some listed_schema) "key" = Return (F, md) /\
    (In "id" (keys (own F)) <->
     includes "id" "key" = true \/ In (JStr "key") [JStr "primary key"; JStr "key"]).
Proof.
  apply (array_description_matches_by_element "key" (Some listed_schema) 8 "id"
           (JObj [("description", JArr [JStr "primary key"; JStr "key"])]));
    try reflexivity.
  - vm_compute; lia.
  - vm_compute; tauto.
Defined.

(** X7.  What [filterProperties] keeps does not depend on the depth
    bookkeeping: called with another [currentDepth] and another value of
    [maxDepth], it returns the same filtered object. *)
Theorem filtered_object_independent_of_depth fuel q p d m d2 m2 F m' :
  filterPropertiesJ fuel q p d m = Return (F, m') ->
  exists m2', filterPropertiesJ fuel q p d2 m2 = Return (F, m2').
Proof.
  intros H.
  exact (filterProperties_depth_irrelevant json jview jalloc fuel q p d m F m' H
           d2 m2).
Qed.

Lemma filtered_object_independent_of_depth_witness :
  exists m2',
    filterPropertiesJ 4 "x" (Some example_schema) 5 9 =
    Return (MkObject
              [("a", JObj [("description", JStr "x")]);
               ("b", JObj [("type", JStr "object");
                           ("properties",
                            JObj [("c", JObj [("description", JStr "x")])])])]
              ObjectPrototype, m2').
Proof.
  apply (filtered_object_independent_of_depth 4 "x" (Some example_schema) 0 0 5 9
           _ 1).
  reflexivity.
Defined.

(** ** The effect on a query of two characters or more *)

Lemma lookup_app_other {A : Type} (o : props A) k name (v : A) :
  name <> k -> lookup name (o ++ [(k, v)]) = lookup name o.
Proof.
  intros Hne. induction o as [|[k0 v0] o IH]; simpl.
  - destruct (String.eqb_spec k name); [congruence|reflexivity].
  - now rewrite IH.
Qed.

Lemma lookup_app_fresh {A : Type} (o : props A) k (v : A) :
  has_own k o = false -> lookup k (o ++ [(k, v)]) = Some v.
Proof.
  induction o as [|[k0 v0] o IH]; simpl.
  - now rewrite String.eqb_refl.
  - destruct (k0 =? k); [discriminate|]. exact IH.
Qed.

Lemma obj_set_properties {A : Type} (o : props A) (v : A) :
  lookup "properties" (obj_set o "properties" v) = Some v /\
  (forall name, name <> "properties" ->
                lookup name (obj_set o "properties" v) = lookup name o) /\
  keys (obj_set o "properties" v) =
    if has_own "properties" o then keys o else keys o ++ ["properties"].
Proof.
  destruct (has_own "properties" o) eqn:E.
  - split; [now apply lookup_obj_set_present|]. split.
    + intros name Hne. now apply lookup_obj_set_present_other.
    + now apply obj_set_present_keys.
  - unfold obj_set. rewrite E. change (array_index "properties") with (@None N).
    split; [now apply lookup_app_fresh|]. split.
    + intros name Hne. now apply lookup_app_other.
    + now rewrite keys_app.
Qed.

Lemma long_query_filters searchValue :
  2 <= String.length searchValue ->
  negb (searchValue =? "") && (1 <? String.length searchValue)%nat = true.
Proof.
  intros Hlen. destruct searchValue as [|c s]; [simpl in Hlen; lia|].
  cbn [String.eqb negb andb]. apply Nat.ltb_lt. lia.
Qed.

Lemma modelEffect_long fuel data searchValue :
  2 <= String.length searchValue ->
  modelEffect fuel data searchValue =
    '(filteredSchema, maxDepth) <-
       filterSchemaJ fuel (lookup "properties" data) searchValue ;;
    Return (MkModelState
              (obj_set data "properties" (JObj (own filteredSchema))) maxDepth).
Proof.
  intros Hlen. unfold modelEffect. rewrite deep_copy_id.
  unfold filterEffectJ, filterEffect. now rewrite long_query_filters.
Qed.

Lemma properties_height (data : props json) :
  height_opt (lookup "properties" data) < height (JObj data).
Proof.
  destruct (lookup "properties" data) as [x|] eqn:E; cbn [height_opt].
  - now apply lookup_field_height in E.
  - apply height_pos.
Qed.

Lemma properties_js_repr (data : props json) :
  js_repr (JObj data) = true -> js_repr_opt (lookup "properties" data) = true.
Proof.
  intros H. destruct (lookup "properties" data) as [x|] eqn:E; [|reflexivity].
  apply lookup_In in E. now apply (js_repr_field data "properties" x).
Qed.

(** X8.  For a query of two characters or more, on a schema whose
    properties are well-typed nodes with ordinary names, the effect hands on
    the schema with its [properties] replaced by the filtered properties and
    nothing else changed: the other fields keep their values and the fields
    their order ([properties] is added at the end when the schema had none).
    The properties kept are those whose subtree matches, and the expansion
    depth is the depth of the deepest direct match. *)
Theorem search_replaces_properties_only fuel data searchValue :
  2 <= String.length searchValue ->
  js_repr (JObj data) = true ->
  schema_ok (entries_of (lookup "properties" data)) = true ->
  plain_keys (entries_of (lookup "properties" data)) = true ->
  height (JObj data) <= fuel ->
  exists st filtered,
    modelEffect fuel data searchValue = Return st /\
    lookup "properties" (filteredModel st) = Some (JObj filtered) /\
    (forall k, In k (keys filtered) <->
               exists v, In (k, v) (entries_of (lookup "properties" data)) /\
                         subtree_matches searchValue k v = true) /\
    (forall name, name <> "properties" ->
                  lookup name (filteredModel st) = lookup name data) /\
    keys (filteredModel st) =
      (if has_own "properties" data then keys data
       else keys data ++ ["properties"]) /\
    expandDepth st =
      max_direct_depth searchValue (entries_of (lookup "properties" data)).
Proof.
  intros Hlen Hr Hs Hp Hh.
  pose proof (properties_height data) as Hlt.
  pose proof (properties_js_repr data Hr) as Hrp.
  assert (Hfuel : height_opt (lookup "properties" data) < fuel) by lia.
  destruct (retained_iff_subtree_matches searchValue (lookup "properties" data)
              fuel Hrp Hs Hp Hfuel) as [F [md [E HF]]].
  rewrite modelEffect_long by exact Hlen. rewrite E. cbn [bind].
  destruct (obj_set_properties data (JObj (own F))) as [H1 [H2 H3]].
  eexists _, (own F). split; [reflexivity|]. cbn [filteredModel expandDepth].
  repeat split; try assumption; try apply HF.
  rewrite filterSchemaJ_eq in E.
  apply (filterProperties_counts searchValue fuel _ 0 0 F md Hs) in E.
  now rewrite Nat.max_0_l, <- max_direct_depth_deepest in E.
Qed.

Lemma search_replaces_properties_only_witness :
  exists st filtered,
    modelEffect 9 [("title", JStr "Sample"); ("type", JStr "object");
                   ("properties", sample_schema)] "id" = Return st /\
    lookup "properties" (filteredModel st) = Some (JObj filtered) /\
    (forall k, In k (keys filtered) <->
               exists v, In (k, v) (entries_of (Some sample_schema)) /\
                         subtree_matches "id" k v = true) /\
    (forall name, name <> "properties" ->
                  lookup name (filteredModel st) =
                  lookup name [("title", JStr "Sample"); ("type", JStr "object");
                               ("properties", sample_schema)]) /\
    keys (filteredModel st) = ["title"; "type"; "properties"] /\
    expandDepth st = max_direct_depth "id" (entries_of (Some sample_schema)).
Proof.
  apply (search_replaces_properties_only 9
           [("title", JStr "Sample"); ("type", JStr "object");
            ("properties", sample_schema)] "id");
    try reflexivity.
  vm_compute; lia.
Defined.

(** X9.  A schema without [properties], or with a falsy one, is not left
    alone by a query of two characters or more: the effect gives it an empty
    [properties] object and sets the expansion depth to 0. *)
Theorem search_adds_empty_properties fuel data searchValue :
  2 <= String.length searchValue ->
  truthyJ (lookup "properties" data) = false ->
  modelEffect (S fuel) data searchValue =
    Return (MkModelState (obj_set data "properties" (JObj [])) 0).
Proof.
  intros Hlen Ht. rewrite modelEffect_long by exact Hlen.
  unfold filterSchemaJ, filterSchema. cbn [filterProperties].
  unfold truthyJ in Ht. now rewrite Ht.
Qed.

Lemma search_adds_empty_properties_witness :
  modelEffect 1 [("type", JStr "string"); ("enum", JArr [JStr "on"; JStr "off"])]
    "on" =
  Return (MkModelState
            [("type", JStr "string"); ("enum", JArr [JStr "on"; JStr "off"]);
             ("properties", JObj [])] 0).
Proof.
  apply (search_adds_empty_properties 0
           [("type", JStr "string"); ("enum", JArr [JStr "on"; JStr "off"])] "on");
    [simpl; lia|reflexivity].
Defined.

(** ** How the filter composes *)

(** X10.  The filter works level by level.  On a schema of well-typed
    nodes with ordinary property names, what a kept container holds as
    child properties is what [filterSchema] returns on the child properties
    of the original, whenever that is not empty. *)
Theorem kept_container_holds_filtered_children q P fuel k v p :
  js_repr_opt P = true -> schema_ok (entries_of P) = true ->
  plain_keys (entries_of P) = true -> height_opt P < fuel ->
  In (k, v) (entries_of P) -> child_map jview v = Some p ->
  exists F md Fc mdc,
    filterSchemaJ fuel P q = Return (F, md) /\
    filterSchemaJ fuel p q = Return (Fc, mdc) /\
    (own Fc <> [] ->
     exists copy, In (k, copy) (own F) /\
                  (forall x, In (k, x) (own F) -> x = copy) /\
                  children copy = own Fc).
Proof.
  intros Hr Hs Hp Hh Hin Ec.
  destruct (schema_ok_In _ k v Hs Hin) as [Hnv Hsc].
  destruct (plain_keys_In _ k v Hp Hin) as [Hpk Hpc].
  assert (Hv : js_repr v = true) by (eapply js_repr_entries_of; eassumption).
  pose proof (js_repr_child_map v p Hv Ec) as Hrp.
  pose proof (child_map_height v p Ec) as Hlt.
  pose proof (entries_of_height P k v Hin) as Hle.
  rewrite (children_some v p Ec) in Hsc, Hpc.
  destruct fuel as [|fuel']; [lia|].
  assert (Hfc : height_opt p < fuel') by lia.
  destruct (filterProperties_returns q fuel' p 0 0 Hsc Hpc Hfc) as [[Fc mdc] Ec0].
  assert (Ec1 : filterSchemaJ (S fuel') p q = Return (Fc, mdc)).
  { rewrite filterSchemaJ_eq. unfold filterPropertiesJ in *.
    rewrite (filterProperties_le json jview jalloc fuel' (S fuel') q
               (Nat.le_succ_diag_r fuel') p 0 0); [exact Ec0|].
    rewrite Ec0. discriminate. }
  pose proof (filterProperties_refines fuel' q p 0 0 Fc mdc Hrp Ec0) as Hown.
  destruct (any_match q (children v)) eqn:Ea.
  - destruct (container_copy_frame q P (S fuel') k v Hr Hs Hp Hh Hin Ea)
      as [F [md [copy [E [Hc1 [Hc2 [Hc3 _]]]]]]].
    exists F, md, Fc, mdc. split; [exact E|]. split; [exact Ec1|].
    intros _. exists copy. split; [exact Hc1|]. split; [exact Hc2|].
    rewrite Hc3, Hown. cbn [pred]. now rewrite (children_some v p Ec).
  - destruct (retained_iff_subtree_matches q P (S fuel') Hr Hs Hp Hh)
      as [F [md [E _]]].
    exists F, md, Fc, mdc. split; [exact E|]. split; [exact Ec1|].
    intros Hne. exfalso. apply Hne. rewrite Hown.
    rewrite (children_some v p Ec) in Ea.
    pose proof (filtered_entries_any_match fuel' q (entries_of p)) as Hm.
    rewrite Ea in Hm.
    destruct (filtered_entries fuel' q (entries_of p)); [reflexivity|].
    discriminate Hm; try assumption.
    pose proof (height_props_entries_of p). lia.
Qed.

Lemma kept_container_holds_filtered_children_witness :
  exists F md Fc mdc,
    filterSchemaJ 8 (Some sample_schema) "id" = Return (F, md) /\
    filterSchemaJ 8 (Some address_properties) "id" = Return (Fc, mdc) /\
    (own Fc <> [] ->
     exists copy, In ("address", copy) (own F) /\
                  (forall x, In ("address", x) (own F) -> x = copy) /\
                  children copy = own Fc).
Proof.
  apply (kept_container_holds_filtered_children "id" (Some sample_schema) 8
           "address" address_node (Some address_properties));
    try reflexivity.
  - vm_compute; lia.
  - vm_compute; tauto.
Defined.

Lemma nodup_keys_app (ks1 ks2 : list string) :
  nodup_keys (ks1 ++ ks2) = true ->
  nodup_keys ks1 = true /\ nodup_keys ks2 = true.
Proof.
  induction ks1 as [|k ks1 IH]; simpl; [now split|].
  rewrite existsb_app, negb_orb, !andb_true_iff.
  intros [[H1 _] H2]. destruct (IH H2) as [H3 H4]. now repeat split.
Qed.

Lemma ordered_keys_app (ks1 ks2 : list string) :
  ordered_keys (ks1 ++ ks2) = true ->
  ordered_keys ks1 = true /\ ordered_keys ks2 = true.
Proof.
  induction ks1 as [|k ks1 IH]; simpl; [now split|].
  rewrite forallb_app, !andb_true_iff.
  intros [[H1 _] H2]. destruct (IH H2) as [H3 H4]. now repeat split.
Qed.

Lemma js_repr_app (es1 es2 : props json) :
  js_repr (JObj (es1 ++ es2)) = true ->
  js_repr (JObj es1) = true /\ js_repr (JObj es2) = true.
Proof.
  cbn [js_repr]. unfold object_repr. rewrite keys_app, forallb_app.
  rewrite !andb_true_iff. intros [[Hd Ho] [H1 H2]].
  apply nodup_keys_app in Hd as [Hd1 Hd2].
  apply ordered_keys_app in Ho as [Ho1 Ho2]. now repeat split.
Qed.

Lemma height_props_app (es1 es2 : props json) :
  height_props (es1 ++ es2) = Nat.max (height_props es1) (height_props es2).
Proof.
  unfold height_props. induction es1 as [|[k v] es1 IH]; simpl; [reflexivity|].
  rewrite IH. lia.
Qed.

Lemma forallb_nodes_app (f : list string * json -> bool) (es1 es2 : props json) :
  forallb f (nodes (es1 ++ es2)) = forallb f (nodes es1) && forallb f (nodes es2).
Proof. now rewrite nodes_app, forallb_app. Qed.

Lemma max_direct_depth_app q es1 es2 :
  max_direct_depth q (es1 ++ es2) =
  Nat.max (max_direct_depth q es1) (max_direct_depth q es2).
Proof.
  unfold max_direct_depth.
  now rewrite nodes_app, filter_app, map_app, list_max_app.
Qed.

Lemma filtered_entries_app fuel q es1 es2 :
  filtered_entries fuel q (es1 ++ es2) =
  filtered_entries fuel q es1 ++ filtered_entries fuel q es2.
Proof. destruct fuel; [reflexivity|]. cbn [filtered_entries]. apply flat_map_app. Qed.

Lemma entries_of_object (es : props json) : entries_of (Some (JObj es)) = es.
Proof. reflexivity. Qed.

(** X11.  Each property is judged without regard to its siblings: on a
    schema of well-typed nodes with ordinary names, filtering a properties
    map that is two maps put together gives the two filtered maps put
    together, and the expansion depth is the greater of the two. *)
Theorem siblings_filtered_independently q es1 es2 fuel :
  js_repr (JObj (es1 ++ es2)) = true ->
  schema_ok (es1 ++ es2) = true -> plain_keys (es1 ++ es2) = true ->
  height (JObj (es1 ++ es2)) < fuel ->
  exists F1 md1 F2 md2 F md,
    filterSchemaJ fuel (Some (JObj es1)) q = Return (F1, md1) /\
    filterSchemaJ fuel (Some (JObj es2)) q = Return (F2, md2) /\
    filterSchemaJ fuel (Some (JObj (es1 ++ es2))) q = Return (F, md) /\
    own F = own F1 ++ own F2 /\ md = Nat.max md1 md2.
Proof.
  intros Hr Hs Hp Hh.
  destruct (js_repr_app es1 es2 Hr) as [Hr1 Hr2].
  unfold schema_ok, plain_keys in Hs, Hp.
  rewrite forallb_nodes_app in Hs, Hp.
  apply andb_prop in Hs as [Hs1 Hs2]. apply andb_prop in Hp as [Hp1 Hp2].
  assert (Hs12 : schema_ok (entries_of (Some (JObj (es1 ++ es2)))) = true)
    by (rewrite entries_of_object; unfold schema_ok;
        now rewrite forallb_nodes_app, Hs1, Hs2).
  change (height (JObj (es1 ++ es2))) with (S (height_props (es1 ++ es2))) in Hh.
  rewrite height_props_app in Hh.
  assert (Hh1 : height_opt (Some (JObj es1)) < fuel)
    by (change (height_opt (Some (JObj es1))) with (S (height_props es1)); lia).
  assert (Hh2 : height_opt (Some (JObj es2)) < fuel)
    by (change (height_opt (Some (JObj es2))) with (S (height_props es2)); lia).
  assert (Hh12 : height_opt (Some (JObj (es1 ++ es2))) < fuel).
  { change (height_opt (Some (JObj (es1 ++ es2))))
      with (S (height_props (es1 ++ es2))).
    rewrite height_props_app. exact Hh. }
  destruct (filterProperties_returns q fuel (Some (JObj es1)) 0 0 Hs1 Hp1 Hh1)
    as [[F1 md1] E1].
  destruct (filterProperties_returns q fuel (Some (JObj es2)) 0 0 Hs2 Hp2 Hh2)
    as [[F2 md2] E2].
  destruct (filterProperties_returns q fuel (Some (JObj (es1 ++ es2))) 0 0)
    as [[F md] E]; [exact Hs12| |exact Hh12|].
  { rewrite entries_of_object. unfold plain_keys.
    now rewrite forallb_nodes_app, Hp1, Hp2. }
  exists F1, md1, F2, md2, F, md. rewrite !filterSchemaJ_eq.
  split; [exact E1|]. split; [exact E2|]. split; [exact E|].
  pose proof (filterProperties_refines fuel q (Some (JObj es1)) 0 0 F1 md1 Hr1 E1)
    as H1.
  pose proof (filterProperties_refines fuel q (Some (JObj es2)) 0 0 F2 md2 Hr2 E2)
    as H2.
  pose proof (filterProperties_refines fuel q (Some (JObj (es1 ++ es2))) 0 0 F md
                Hr E) as H12.
  rewrite entries_of_object in H1, H2, H12. split.
  - now rewrite H12, H1, H2, filtered_entries_app.
  - apply (filterProperties_counts q fuel (Some (JObj es1)) 0 0 F1 md1 Hs1) in E1.
    apply (filterProperties_counts q fuel (Some (JObj es2)) 0 0 F2 md2 Hs2) in E2.
    apply (filterProperties_counts q fuel (Some (JObj (es1 ++ es2))) 0 0 F md Hs12)
      in E.
    rewrite Nat.max_0_l, <- max_direct_depth_deepest, entries_of_object in E1, E2, E.
    subst. apply max_direct_depth_app.
Qed.

Lemma siblings_filtered_independently_witness :
  exists F1 md1 F2 md2 F md,
    filterSchemaJ 8
      (Some (JObj [("id", JObj [("type", JStr "string");
                                ("description", JStr "the identifier")])])) "id"
      = Return (F1, md1) /\
    filterSchemaJ 8 (Some (JObj [("address", address_node)])) "id"
      = Return (F2, md2) /\
    filterSchemaJ 8
      (Some (JObj ([("id", JObj [("type", JStr "string");
                                 ("description", JStr "the identifier")])]
                   ++ [("address", address_node)]))) "id"
      = Return (F, md) /\
    own F = own F1 ++ own F2 /\ md = Nat.max md1 md2.
Proof.
  apply (siblings_filtered_independently "id"
           [("id", JObj [("type", JStr "string");
                         ("description", JStr "the identifier")])]
           [("address", address_node)] 8);
    try reflexivity.
  vm_compute; lia.
Defined.

(** ** No match is lost *)

Lemma node_at_any_match q es path x :
  node_at es path x -> direct_match q (last path "") x = true ->
  any_match q es = true.
Proof.
  intros Hn Hd. apply nodes_node_at in Hn. unfold any_match.
  apply existsb_exists. exists (path, x). split; [exact Hn|exact Hd].
Qed.

Lemma any_match_nonempty q es : any_match q es = true -> es <> [].
Proof. intros H ->. discriminate. Qed.

Lemma node_at_filtered_entries q es path x :
  node_at es path x -> direct_match q (last path "") x = true ->
  forall fuel,
    height_props es <= S fuel -> schema_ok es = true -> plain_keys es = true ->
    (forall k v, In (k, v) es -> js_repr v = true) ->
    exists x', node_at (filtered_entries (S fuel) q es) path x' /\
               fieldJ x' "description" = fieldJ x "description".
Proof.
  induction 1 as [es k v Hin|es k v path x Hin Hsub IH];
    intros Hd fuel Hh Hs Hp Hr.
  - cbn [last] in Hd. destruct (any_match q (children v)) eqn:Ea.
    + exists (with_children jview jalloc v
                (JObj (filtered_entries fuel q (children v)))).
      split.
      * constructor.
        apply (filtered_entries_plain fuel q es (k, _) Hh Hs Hp).
        exists v. split; [exact Hin|]. left. now split.
      * apply children_with_children; [eauto|].
        now apply (any_match_nonempty q).
    + exists v. split; [|reflexivity]. constructor.
      apply (filtered_entries_plain fuel q es (k, v) Hh Hs Hp).
      exists v. split; [exact Hin|]. right. now repeat split.
  - destruct (node_at_nonempty _ _ _ Hsub) as [Hne Hpath].
    assert (Hlast : last (k :: path) "" = last path "")
      by (cbn [last]; destruct path; [congruence|reflexivity]).
    rewrite Hlast in Hd.
    pose proof (node_at_any_match q _ _ _ Hsub Hd) as Ha.
    destruct (schema_ok_In _ k v Hs Hin) as [Hv Hsc].
    destruct (plain_keys_In _ k v Hp Hin) as [Hk Hpc].
    pose proof (children_height v) as Hc.
    assert (Hhv : height v <= S fuel) by (rewrite height_props_le in Hh; eauto).
    destruct fuel as [|fuel].
    { destruct (children v) as [|[k0 v0] l]; [congruence|].
      simpl in Hc. pose proof (height_pos v0). lia. }
    destruct (IH Hd fuel) as [x' [Hx' Hdx]]; try assumption; [lia| |].
    { intros k0 v0 H0. eapply js_repr_children; [|exact H0]. eauto. }
    exists x'. split; [|exact Hdx].
    apply (node_below _ k
             (with_children jview jalloc v
                (JObj (filtered_entries (S fuel) q (children v))))).
    + apply (filtered_entries_plain (S fuel) q es (k, _) Hh Hs Hp).
      exists v. split; [exact Hin|]. left. now split.
    + destruct (children_with_children v
                  (filtered_entries (S fuel) q (children v))) as [Hcc _];
        [eauto|exact Hne|].
      now rewrite Hcc.
Qed.

(** X12.  No match is lost, at any depth: on a schema of well-typed nodes
    with ordinary names, every node of the original tree that matches
    directly is found in the filtered tree under the same path. *)
Theorem direct_matches_are_all_retained q P fuel path x :
  js_repr_opt P = true -> schema_ok (entries_of P) = true ->
  plain_keys (entries_of P) = true -> height_opt P < fuel ->
  In (path, x) (nodes (entries_of P)) ->
  direct_match q (node_key (path, x)) x = true ->
  exists F md x',
    filterSchemaJ fuel P q = Return (F, md) /\ In (path, x') (nodes (own F)).
Proof.
  intros Hr Hs Hp Hh Hin Hd.
  pose proof (filterSchemaJ_outcome fuel P q Hh) as Ho.
  destruct (filterSchemaJ fuel P q) as [[F md]|e|] eqn:E;
    [|now rewrite Hs, Hp in Ho|contradiction].
  destruct (filterSchemaJ_entries fuel P q F md Hr E) as [fuel' [-> Hown]].
  apply nodes_node_at in Hin.
  destruct (node_at_filtered_entries q _ _ _ Hin Hd fuel') as [x' [Hx' _]];
    try assumption.
  - pose proof (height_props_entries_of P). lia.
  - intros k v. now apply js_repr_entries_of.
  - exists F, md, x'. split; [reflexivity|]. rewrite Hown.
    now apply nodes_node_at.
Qed.

Lemma direct_matches_are_all_retained_witness :
  exists F md x',
    filterSchemaJ 8 (Some sample_schema) "id" = Return (F, md) /\
    In (["address"; "geo"; "grid_id"], x') (nodes (own F)).
Proof.
  apply (direct_matches_are_all_retained "id" (Some sample_schema) 8
           ["address"; "geo"; "grid_id"] (JObj [("type", JStr "string")]));
    try reflexivity.
  - vm_compute; lia.
  - vm_compute; tauto.
Defined.

(** ** Kept containers *)




(** ** Properties named [__proto__] *)

Lemma kept_proto_key q sub v :
  kept q sub ("__proto__", v) <> [] ->
  sub <> [] /\
  has_own_property jview (with_children jview jalloc v (JObj sub)) "__proto__"
    = true.
Proof.
  unfold kept. cbn [String.eqb Ascii.eqb Bool.eqb].
  destruct sub as [|e sub]; [intros H; now contradiction H|].
  cbn [List.length Nat.ltb Nat.leb andb].
  destruct (has_own_property jview _ "__proto__"); [now split|].
  intros H. now contradiction H.
Qed.

(** X14.  A property named [__proto__] is dropped whatever the query is,
    also when it matches, unless it is a container with a matching
    descendant that has itself a field named [__proto__]: whenever the
    filter returns, the key [__proto__] is absent from the result if the
    property has no child properties or no field of that name. *)
Theorem proto_named_property_dropped q P fuel F md v :
  js_repr_opt P = true ->
  filterSchemaJ fuel P q = Return (F, md) ->
  In ("__proto__", v) (entries_of P) ->
  children v = [] \/ fieldJ v "__proto__" = None ->
  ~ In "__proto__" (keys (own F)).
Proof.
  intros Hr E Hin Hcase Hk.
  destruct (filterSchemaJ_entries fuel P q F md Hr E) as [fuel' [-> Hown]].
  rewrite Hown in Hk. cbn [filtered_entries] in Hk.
  unfold keys in Hk. apply in_map_iff in Hk as [[k' x] [Hk' Hx]].
  cbn [fst] in Hk'. subst k'.
  apply in_flat_map in Hx as [[k' v'] [Hin' Hx]]. cbn [snd] in Hx.
  assert (k' = "__proto__").
  { destruct (kept_one q (filtered_entries fuel' q (children v')) k' v')
      as [He|[y He]]; rewrite He in Hx; [destruct Hx|].
    destruct Hx as [[= -> _]|[]]. reflexivity. }
  subst k'.
  assert (v' = v).
  { apply (In_same_key (entries_of P) "__proto__"); try assumption.
    pose proof (object_repr_entries_of P Hr) as Hrepr.
    unfold object_repr in Hrepr. now apply andb_prop in Hrepr as [Hrepr _]. }
  subst v'.
  destruct (kept_proto_key q (filtered_entries fuel' q (children v)) v)
    as [Hne Hown']; [intros He; now rewrite He in Hx|].
  apply filtered_entries_nonempty in Hne as Hch.
  destruct Hcase as [Hc|Hf]; [contradiction|].
  assert (Hv : js_repr v = true) by (eapply js_repr_entries_of; eassumption).
  destruct (children_nonempty_child_map v Hch) as [p [Ec He]].
  assert (Hpe : entries_of p <> []) by now rewrite He.
  destruct (container_of_child_map v p Hv Ec Hpe)
    as [pp [rebuild [_ [_ [Hcont Hw]]]]].
  rewrite Hw in Hown'.
  destruct Hcont as [fields pp' Ht Hp|fields ifields pp' Ht Hi Hp];
    cbn [has_own_property jview] in Hown';
    rewrite has_own_obj_set in Hown' by discriminate;
    unfold fieldJ, field in Hf; cbn [jview] in Hf;
    rewrite lookup_has_own, Hf in Hown'; discriminate.
Qed.

Lemma proto_named_property_dropped_witness :
  filterSchemaJ 3 (Some proto_schema) "xx" =
    Return (MkObject [] (NodePrototype (JObj [("description", JStr "xx")])), 0) /\
  ~ In "__proto__"
      (keys (own (MkObject [] (NodePrototype (JObj [("description", JStr "xx")]))))).
Proof.
  split; [reflexivity|].
  apply (proto_named_property_dropped "xx" (Some proto_schema) 3 _ 0
           (JObj [("description", JStr "xx")]));
    [reflexivity|reflexivity|now left|now left].
Defined.

(** ** Properties named [hasOwnProperty] *)

Lemma place_direct_shadowed (t : object json) k v :
  has_own "hasOwnProperty" (own t) = true ->
  place_direct jview t k v true = Throw TypeError /\
  place_direct jview t k v false = Return t.
Proof.
  intros H. unfold place_direct, call_hasOwnProperty. now rewrite H.
Qed.

Lemma assign_keeps_shadow (t : object json) k c :
  plain_key k = true -> has_own "hasOwnProperty" (own t) = true ->
  has_own "hasOwnProperty" (own (assign jview t k c)) = true.
Proof.
  unfold plain_key, assign. intros Hk H. apply andb_prop in Hk as [Hk1 Hk2].
  rewrite Hk1. cbn [own]. rewrite has_own_obj_set; [exact H|].
  intros <-. now rewrite String.eqb_refl in Hk2.
Qed.

(** What the recursive call returns for the children of a well-typed node
    with ordinary names below it: something exactly when a node below
    matches. *)
Lemma children_call q fuel v p d m :
  js_repr v = true -> schema_ok (children v) = true ->
  plain_keys (children v) = true -> height v <= fuel ->
  child_map jview v = Some p ->
  exists fc m2,
    filterPropertiesJ fuel q p d m = Return (fc, m2) /\
    (0 <? List.length (keys (own fc)))%nat = any_match q (children v).
Proof.
  intros Hv Hsc Hpc Hh Ec.
  pose proof (child_map_height v p Ec) as Hlt.
  pose proof (js_repr_child_map v p Hv Ec) as Hrp.
  rewrite (children_some v p Ec) in *.
  destruct (filterProperties_returns q fuel p d m Hsc Hpc) as [[fc m2] Hr];
    [lia|].
  exists fc, m2. split; [exact Hr|].
  rewrite (filterProperties_refines fuel q p d m fc m2 Hrp Hr).
  unfold keys. rewrite length_map.
  destruct fuel as [|fuel]; [lia|].
  apply filtered_entries_any_match; try assumption.
  pose proof (height_props_entries_of p). lia.
Qed.

(** Once [filtered] has a property named [hasOwnProperty], an entry that is
    to be kept throws and any other entry leaves [filtered] as it is. *)
Lemma filterEntry_shadowed q fuel d t m k v :
  plain_key k = true -> node_ok v = true -> js_repr v = true ->
  schema_ok (children v) = true -> plain_keys (children v) = true ->
  height v <= fuel ->
  has_own "hasOwnProperty" (own t) = true ->
  if subtree_matches q k v
  then filterEntry jview jalloc (filterPropertiesJ fuel q) q d (t, m) (k, v)
       = Throw TypeError
  else exists m',
       filterEntry jview jalloc (filterPropertiesJ fuel q) q d (t, m) (k, v)
       = Return (t, m').
Proof.
  intros Hk Hnv Hv Hsc Hpc Hh Ht. rewrite filterEntry_eq.
  rewrite include_of_node_ok by exact Hnv. cbn [bind].
  rewrite get_not_null by (intros ->; discriminate). cbn [bind]. cbv zeta.
  unfold subtree_matches.
  destruct (child_map jview v) as [p|] eqn:Ec.
  - destruct (children_call q fuel v p (d + 1)
                (raise_depth (direct_match q k v) d m) Hv Hsc Hpc Hh Ec)
      as [fc [m2 [Hr Hlen]]].
    rewrite Hr. cbn [bind]. rewrite Hlen.
    destruct (any_match q (children v)).
    + rewrite orb_true_r.
      match goal with
      | |- context [place_direct jview ?o k v true] =>
          destruct (place_direct_shadowed o k v) as [Hp _]
      end; [now apply assign_keeps_shadow|].
      now rewrite Hp.
    + rewrite orb_false_r. destruct (place_direct_shadowed t k v Ht) as [H1 H2].
      destruct (direct_match q k v); [now rewrite H1|].
      rewrite H2. cbn [bind]. now eexists.
  - rewrite (children_none v Ec). change (any_match q []) with false.
    rewrite orb_false_r. destruct (place_direct_shadowed t k v Ht) as [H1 H2].
    destruct (direct_match q k v); [now rewrite H1|].
    rewrite H2. cbn [bind]. now eexists.
Qed.

Lemma for_of_shadowed q fuel d es :
  schema_ok es = true -> plain_keys es = true ->
  (forall k v, In (k, v) es -> js_repr v = true) ->
  height_props es <= fuel -> any_match q es = true ->
  forall t m, has_own "hasOwnProperty" (own t) = true ->
    for_of es (filterEntry jview jalloc (filterPropertiesJ fuel q) q d) (t, m)
    = Throw TypeError.
Proof.
  induction es as [|[k v] es IH]; intros Hs Hp Hr Hh Ha t m Ht; [discriminate|].
  destruct (schema_ok_In _ k v Hs (or_introl eq_refl)) as [Hnv Hsc].
  destruct (plain_keys_In _ k v Hp (or_introl eq_refl)) as [Hk Hpc].
  unfold schema_ok, plain_keys in Hs, Hp.
  rewrite (forallb_nodes_cons (fun _ v => node_ok v)) in Hs.
  rewrite (forallb_nodes_cons (fun k _ => plain_key k)) in Hp.
  apply andb_prop in Hs as [_ Hs]. apply andb_prop in Hp as [_ Hp].
  simpl in Hh. rewrite any_match_cons in Ha. cbn [for_of].
  pose proof (@filterEntry_shadowed q fuel d t m k v Hk Hnv
                (Hr k v (or_introl eq_refl)) Hsc Hpc) as He.
  destruct (subtree_matches q k v).
  - rewrite He; [reflexivity|lia|exact Ht].
  - destruct He as [m' He]; [lia|exact Ht|]. rewrite He. cbn [bind].
    apply IH; try assumption; [|lia].
    intros k0 v0 H0. apply (Hr k0 v0). now right.
Qed.

Lemma for_of_pristine q fuel d es :
  schema_ok es = true -> plain_keys es = true -> height_props es <= fuel ->
  forall t m, pristine t ->
    exists t' m',
      for_of es (filterEntry jview jalloc (filterPropertiesJ fuel q) q d) (t, m)
      = Return (t', m') /\ pristine t'.
Proof.
  induction es as [|[k v] es IHes]; intros Hs Hp Hh t m Ht;
    cbn [for_of]; [now exists t, m|].
  destruct (schema_ok_In _ k v Hs (or_introl eq_refl)) as [Hv Hsc].
  destruct (plain_keys_In _ k v Hp (or_introl eq_refl)) as [Hk Hpc].
  unfold schema_ok, plain_keys in Hs, Hp.
  rewrite (forallb_nodes_cons (fun _ v => node_ok v)) in Hs.
  rewrite (forallb_nodes_cons (fun k _ => plain_key k)) in Hp.
  apply andb_prop in Hs as [_ Hs]. apply andb_prop in Hp as [_ Hp].
  simpl in Hh.
  destruct (@filterEntry_returns q fuel d t m k v
              (fun p d m => filterProperties_returns q fuel p d m)
              Hk Hv Hsc Hpc) as [t' [m' [He Ht']]]; [lia|exact Ht|].
  rewrite He. cbn [bind]. apply IHes; [exact Hs|exact Hp|lia|exact Ht'].
Qed.

(** The entry named [hasOwnProperty] itself, when it is to be kept: it
    throws at once as a container with a matching descendant, and becomes
    a property of [filtered] otherwise. *)
Lemma filterEntry_hasOwnProperty q fuel d t m v :
  node_ok v = true -> js_repr v = true ->
  schema_ok (children v) = true -> plain_keys (children v) = true ->
  height v <= fuel -> pristine t ->
  subtree_matches q "hasOwnProperty" v = true ->
  filterEntry jview jalloc (filterPropertiesJ fuel q) q d (t, m)
    ("hasOwnProperty", v) = Throw TypeError \/
  exists t' m',
    filterEntry jview jalloc (filterPropertiesJ fuel q) q d (t, m)
      ("hasOwnProperty", v) = Return (t', m') /\
    has_own "hasOwnProperty" (own t') = true.
Proof.
  intros Hnv Hv Hsc Hpc Hh [Hproto Hown] Hm. rewrite filterEntry_eq.
  rewrite include_of_node_ok by exact Hnv. cbn [bind].
  rewrite get_not_null by (intros ->; discriminate). cbn [bind]. cbv zeta.
  unfold subtree_matches in Hm.
  assert (Hset : forall c,
            has_own "hasOwnProperty"
              (own (assign jview t "hasOwnProperty" c)) = true).
  { intros c. unfold assign. cbn [String.eqb Ascii.eqb Bool.eqb negb own].
    apply has_own_In, keys_obj_set. now left. }
  assert (Hdirect :
            direct_match q "hasOwnProperty" v = true ->
            place_direct jview t "hasOwnProperty" v
              (direct_match q "hasOwnProperty" v)
            = Return (assign jview t "hasOwnProperty" v)).
  { intros ->. unfold place_direct, call_hasOwnProperty.
    now rewrite Hown, Hproto. }
  destruct (child_map jview v) as [p|] eqn:Ec.
  - destruct (children_call q fuel v p (d + 1)
                (raise_depth (direct_match q "hasOwnProperty" v) d m)
                Hv Hsc Hpc Hh Ec) as [fc [m2 [Hr Hlen]]].
    rewrite Hr. cbn [bind]. rewrite Hlen.
    destruct (any_match q (children v)).
    + left.
      match goal with
      | |- context [place_direct jview ?o _ v true] =>
          destruct (place_direct_shadowed o "hasOwnProperty" v) as [Hp _]
      end; [apply Hset|].
      now rewrite Hp.
    + rewrite orb_false_r in Hm. right. rewrite (Hdirect Hm). cbn [bind].
      eexists _, _. split; [reflexivity|apply Hset].
  - rewrite (children_none v Ec) in Hm. change (any_match q []) with false in Hm.
    rewrite orb_false_r in Hm. right. rewrite (Hdirect Hm). cbn [bind].
    eexists _, _. split; [reflexivity|apply Hset].
Qed.

(** X15.  A property named [hasOwnProperty] that is kept breaks the filter
    for the properties after it: on a schema of well-typed nodes whose other
    names are ordinary, if the property named [hasOwnProperty] matches
    (itself or below) and a property enumerated after it matches too, then
    [filterSchema] throws a [TypeError], since [filtered.hasOwnProperty] is
    no longer the method. *)
Theorem hasOwnProperty_named_property_breaks_later_matches q es1 v es2 fuel :
  js_repr (JObj (es1 ++ ("hasOwnProperty", v) :: es2)) = true ->
  schema_ok (es1 ++ ("hasOwnProperty", v) :: es2) = true ->
  plain_keys es1 = true -> plain_keys (children v) = true ->
  plain_keys es2 = true ->
  height (JObj (es1 ++ ("hasOwnProperty", v) :: es2)) < fuel ->
  subtree_matches q "hasOwnProperty" v = true ->
  any_match q es2 = true ->
  filterSchemaJ fuel (Some (JObj (es1 ++ ("hasOwnProperty", v) :: es2))) q
    = Throw TypeError.
Proof.
  intros Hr Hs Hp1 Hpv Hp2 Hh Hm Ha.
  destruct fuel as [|fuel]; [lia|].
  change (height (JObj (es1 ++ ("hasOwnProperty", v) :: es2)))
    with (S (height_props (es1 ++ ("hasOwnProperty", v) :: es2))) in Hh.
  rewrite height_props_app in Hh.
  change (height_props (("hasOwnProperty", v) :: es2))
    with (Nat.max (height v) (height_props es2)) in Hh.
  unfold schema_ok in Hs. rewrite forallb_nodes_app in Hs.
  apply andb_prop in Hs as [Hs1 Hs2].
  rewrite (forallb_nodes_cons (fun _ v => node_ok v)) in Hs2.
  apply andb_prop in Hs2 as [Hs2 Hs3]. apply andb_prop in Hs2 as [Hnv Hsc].
  assert (Hvals : forall k x, In (k, x) (es1 ++ ("hasOwnProperty", v) :: es2) ->
                              js_repr x = true)
    by (intros k x; apply (js_repr_field _ k x Hr)).
  rewrite filterSchemaJ_eq. unfold filterPropertiesJ.
  cbn [filterProperties truthy jview negb own_entries].
  rewrite for_of_app.
  destruct (for_of_pristine q fuel 0 es1 Hs1 Hp1) with (t := empty_object json)
    (m := 0) as [t1 [m1 [E1 Ht1]]]; [lia|split; reflexivity|].
  unfold filterPropertiesJ in E1. rewrite E1. cbn [bind for_of].
  destruct (filterEntry_hasOwnProperty q fuel 0 t1 m1 v) as [E2|[t2 [m2 [E2 Ht2]]]];
    try assumption.
  - apply (Hvals "hasOwnProperty"). apply in_or_app. right. now left.
  - lia.
  - unfold filterPropertiesJ in E2. now rewrite E2.
  - unfold filterPropertiesJ in E2. rewrite E2. cbn [bind].
    apply (for_of_shadowed q fuel 0 es2); try assumption; [|lia].
    intros k x Hin. apply (Hvals k). apply in_or_app. right. now right.
Qed.

Lemma hasOwnProperty_named_property_breaks_later_matches_witness :
  filterSchemaJ 4 (Some shadowing_schema) "xx" = Throw TypeError.
Proof.
  apply (hasOwnProperty_named_property_breaks_later_matches "xx" []
           (JObj [("description", JStr "xx")]) [("axx", JObj [])] 4);
    try reflexivity.
  vm_compute; lia.
Defined.

(** ** The second pass *)

(** A node of the filtered tree is the node of the original tree at the
    same path, or a copy of it: it has the same description and is not
    [null] unless the original is. *)
Lemma nodes_filtered_entries_ok fuel q es path x :
  (forall kv, In kv es -> js_repr (snd kv) = true) ->
  In (path, x) (nodes (filtered_entries fuel q es)) ->
  exists v, In (path, v) (nodes es) /\
            fieldJ x "description" = fieldJ v "description" /\
            (x = JNull -> v = JNull).
Proof.
  revert es path x. induction fuel as [|fuel IH]; intros es path x Hes;
    [simpl; tauto|].
  cbn [filtered_entries].
  induction es as [|[k v] es IHes]; [simpl; tauto|].
  cbn [flat_map]. rewrite nodes_app, nodes_cons. intros Hin.
  apply in_app_or in Hin as [Hin|Hin].
  2:{ destruct IHes as [v' [Hv' Hd]]; [|exact Hin|].
      - intros kv Hkv. apply Hes. now right.
      - exists v'. split; [|exact Hd]. right. apply in_or_app. now right. }
  assert (Hv : js_repr v = true) by (apply (Hes (k, v)); now left).
  cbn [snd] in Hin.
  destruct (kept_cases q (filtered_entries fuel q (children v)) k v)
    as [Hk|[Hk|[Hne [_ Hk]]]]; rewrite Hk in Hin.
  - simpl in Hin. tauto.
  - rewrite nodes_single in Hin. exists x. split; [|now split].
    destruct Hin as [Hin|Hin]; [now left|]. right. apply in_or_app. now left.
  - rewrite nodes_single in Hin.
    apply filtered_entries_nonempty in Hne as Hch.
    destruct (children_with_children v (filtered_entries fuel q (children v)) Hv Hch)
      as [Hsub Hdesc].
    destruct Hin as [[= <- <-]|Hin].
    + exists v. split; [now left|]. split; [exact Hdesc|].
      destruct (children_nonempty_child_map v Hch) as [p [Ec _]].
      destruct (with_children_object v p
                  (JObj (filtered_entries fuel q (children v))) Ec) as [cf Hcf].
      rewrite Hcf. discriminate.
    + rewrite Hsub in Hin.
      apply in_map_iff in Hin as [[p' y] [[= <- <-] Hin]].
      apply IH in Hin as [v' [Hv' Hd]].
      * exists v'. split; [|exact Hd]. right. apply in_or_app. left.
        apply in_map_iff. now exists (p', v').
      * intros [k' x'] Hkx. eapply js_repr_children; eassumption.
Qed.

Lemma node_ok_same_description x v :
  fieldJ x "description" = fieldJ v "description" -> (x = JNull -> v = JNull) ->
  node_ok v = true -> node_ok x = true.
Proof.
  unfold node_ok. intros Hd Hn Hv.
  destruct x; [now rewrite Hn in Hv|..]; rewrite Hd;
    destruct v; try discriminate; exact Hv.
Qed.

(** The filter keeps a schema well-typed and its names ordinary. *)
Lemma filtered_entries_schema_ok fuel q es :
  (forall kv, In kv es -> js_repr (snd kv) = true) ->
  schema_ok es = true -> plain_keys es = true ->
  schema_ok (filtered_entries fuel q es) = true /\
  plain_keys (filtered_entries fuel q es) = true.
Proof.
  intros Hr Hs Hp. unfold schema_ok, plain_keys in *.
  rewrite forallb_forall in Hs, Hp. split; apply forallb_forall;
    intros [path x] Hin;
    destruct (nodes_filtered_entries_ok fuel q es path x Hr Hin)
      as [v [Hv [Hd Hn]]].
  - cbn [snd]. apply (node_ok_same_description x v Hd Hn).
    exact (Hs (path, v) Hv).
  - exact (Hp (path, v) Hv).
Qed.

(** The direct matches of the filtered tree lie as deep as those of the
    original tree. *)
Lemma max_direct_depth_filtered_entries fuel q es :
  height_props es <= S fuel -> schema_ok es = true -> plain_keys es = true ->
  (forall k v, In (k, v) es -> js_repr v = true) ->
  max_direct_depth q (filtered_entries (S fuel) q es) = max_direct_depth q es.
Proof.
  intros Hh Hs Hp Hr. unfold max_direct_depth. apply Nat.le_antisymm.
  - apply list_max_le, Forall_forall. intros d Hd.
    apply in_map_iff in Hd as [[path x] [<- Hn]].
    apply filter_In in Hn as [Hin Hm].
    destruct (nodes_filtered_entries_ok (S fuel) q es path x) as [v [Hv [Hd _]]];
      [intros [k0 v0]; apply Hr|exact Hin|].
    apply In_list_max.
    change (node_depth (path, x)) with (node_depth (path, v)).
    apply in_map, filter_In. split; [exact Hv|].
    change (node_key (path, v)) with (node_key (path, x)). cbn [snd] in *.
    now rewrite <- (direct_match_same_description q _ x v Hd).
  - apply list_max_le, Forall_forall. intros d Hd.
    apply in_map_iff in Hd as [[path x] [<- Hn]].
    apply filter_In in Hn as [Hin Hm].
    apply nodes_node_at in Hin.
    destruct (node_at_filtered_entries q es path x Hin Hm fuel Hh Hs Hp Hr)
      as [x' [Hx' Hd]].
    apply nodes_node_at in Hx'. apply In_list_max.
    change (node_depth (path, x)) with (node_depth (path, x')).
    apply in_map, filter_In. split; [exact Hx'|].
    change (node_key (path, x')) with (node_key (path, x)). cbn [snd] in *.
    now rewrite (direct_match_same_description q _ x' x Hd).
Qed.

(** X16.  Filtering the filtered schema again changes nothing, the
    expansion depth included: on a schema of well-typed nodes with ordinary
    names the second pass returns the same properties and the same
    [maxDepth] as the first. *)
Theorem second_pass_finds_same_depth q P fuel :
  js_repr_opt P = true -> schema_ok (entries_of P) = true ->
  plain_keys (entries_of P) = true -> height_opt P < fuel ->
  exists F md F2,
    filterSchemaJ fuel P q = Return (F, md) /\
    filterSchemaJ fuel (Some (as_node jalloc F)) q = Return (F2, md) /\
    own F2 = own F.
Proof.
  intros Hr Hs Hp Hh.
  pose proof (filterSchemaJ_outcome fuel P q Hh) as Ho.
  destruct (filterSchemaJ fuel P q) as [[F md]|e|] eqn:E;
    [|now rewrite Hs, Hp in Ho|contradiction].
  destruct (filterSchemaJ_entries fuel P q F md Hr E) as [fuel' [-> Hown]].
  rewrite filterSchemaJ_eq in E.
  destruct (filterProperties_idem (S fuel') q P 0 0 F md Hr E 0 0)
    as [F2 [md2 [E2 Hown2]]].
  pose proof (filterProperties_counts q (S fuel') P 0 0 F md Hs E) as Hmd.
  rewrite Nat.max_0_l, <- max_direct_depth_deepest in Hmd.
  assert (Hvals : forall k v, In (k, v) (entries_of P) -> js_repr v = true)
    by (intros k v; now apply js_repr_entries_of).
  assert (Hhp : height_props (entries_of P) <= S fuel')
    by (pose proof (height_props_entries_of P); lia).
  destruct (filtered_entries_schema_ok (S fuel') q (entries_of P)) as [Hs2 _];
    [intros [k v]; apply Hvals|exact Hs|exact Hp|].
  rewrite <- Hown in Hs2.
  pose proof (filterProperties_counts q (S fuel') (Some (JObj (own F))) 0 0 F2 md2
                Hs2 E2) as Hmd2.
  rewrite Nat.max_0_l, <- max_direct_depth_deepest in Hmd2.
  change (entries_of (Some (JObj (own F)))) with (own F) in Hmd2.
  rewrite Hown, max_direct_depth_filtered_entries in Hmd2 by assumption.
  exists F, md, F2. split; [reflexivity|]. split; [|exact Hown2].
  rewrite filterSchemaJ_eq. change (as_node jalloc F) with (JObj (own F)).
  rewrite E2. now rewrite Hmd, Hmd2.
Qed.

Lemma second_pass_finds_same_depth_witness :
  exists F md F2,
    filterSchemaJ 8 (Some sample_schema) "id" = Return (F, md) /\
    filterSchemaJ 8 (Some (as_node jalloc F)) "id" = Return (F2, md) /\
    own F2 = own F.
Proof.
  apply (second_pass_finds_same_depth "id" (Some sample_schema) 8);
    try reflexivity.
  vm_compute; lia.
Defined.

(** * The components around the filter *)

(** ** Choosing an example *)

Import ModelExamples.

Lemma digits_of_uint_acc (d : Decimal.uint) (acc : positive) :
  digits (NilEmpty.string_of_uint d) (Npos acc) true =
  Some (Npos (Pos.of_uint_acc d acc)).
Proof.
  revert acc. induction d as [|d IH|d IH|d IH|d IH|d IH|d IH|d IH|d IH|d IH|d IH];
    intros acc; [reflexivity|..];
    cbn [NilEmpty.string_of_uint digits Pos.of_uint_acc];
    match goal with
    | |- context [digit_of ?c] =>
        let v := eval vm_compute in (digit_of c) in
        change (digit_of c) with v
    end;
    cbv iota; rewrite <- IH; f_equal; lia.
Qed.

Lemma digits_of_uint (d : Decimal.uint) :
  digits (NilEmpty.string_of_uint d) 0 true = Some (Pos.of_uint d).
Proof.
  induction d as [|d IH|d IH|d IH|d IH|d IH|d IH|d IH|d IH|d IH|d IH];
    [reflexivity|exact IH|..];
    cbn [NilEmpty.string_of_uint digits Pos.of_uint];
    match goal with
    | |- context [digit_of ?c] =>
        let v := eval vm_compute in (digit_of c) in
        change (digit_of c) with v
    end;
    cbv iota;
    match goal with
    | |- digits _ ?a true = _ =>
        let v := eval vm_compute in a in change a with v
    end;
    apply digits_of_uint_acc.
Qed.

Lemma parseInt_string_of_uint (d : Decimal.uint) :
  d <> Decimal.Nil ->
  parseInt (NilEmpty.string_of_uint d) = Int (Z.of_N (N.of_uint d)).
Proof.
  intros Hd. pose proof (digits_of_uint d) as H.
  unfold parseInt.
  destruct d; [congruence|..]; cbn [NilEmpty.string_of_uint] in *;
    cbn [trim_start]; change (is_white_space _) with false; cbv iota;
    cbn [digits] in *;
    match goal with
    | |- context [digit_of ?c] =>
        let v := eval vm_compute in (digit_of c) in
        change (digit_of c) with v in *
    end;
    cbv iota in *; rewrite H; reflexivity.
Qed.

(** [parseInt(String(i), 10)] gives back the index [i]. *)
Lemma parseInt_string_of_nat (i : nat) :
  parseInt (string_of_nat i) = Int (Z.of_nat i).
Proof.
  unfold string_of_nat. rewrite parseInt_string_of_uint.
  - rewrite DecimalN.Unsigned.of_to. f_equal. lia.
  - destruct (N.of_nat i) as [|p]; [discriminate|].
    cbn [N.to_uint]. intros H.
    pose proof (DecimalPos.Unsigned.of_to p) as Hp. rewrite H in Hp.
    discriminate.
Qed.

Lemma nth_error_options_from (examples : list Example) (j i : nat) :
  nth_error (options_from j examples) i =
  option_map (fun e => (VNum (Int (Z.of_nat (j + i))), label e))
             (nth_error examples i).
Proof.
  revert j i. induction examples as [|e examples IH]; intros j [|i];
    cbn [options_from nth_error option_map]; try reflexivity.
  - now rewrite Nat.add_0_r.
  - rewrite IH. now rewrite <- plus_n_Sm.
Qed.

Lemma string_of_number_index (i : nat) :
  string_of_number (Int (Z.of_nat i)) = string_of_nat i.
Proof.
  unfold string_of_number.
  destruct (Z.ltb_spec (Z.of_nat i) 0) as [H|H]; [lia|].
  now rewrite Nat2Z.id.
Qed.

Lemma at_index_nat {A : Type} (l : list A) (i : nat) :
  at_index l (Int (Z.of_nat i)) = nth_error l i.
Proof.
  unfold at_index.
  destruct (Z.ltb_spec (Z.of_nat i) 0) as [H|H]; [lia|].
  now rewrite Nat2Z.id.
Qed.

(** X17.  The select and its handler fit together.  The option offered
    for the example at position [i] has the value [i]; choosing it, whether
    the select reports the value or its string form, stores [i] again
    ([parseInt(String(i), 10)] is [i]), so that the example selected is the
    one whose label was chosen, and the select shows that option. *)
Theorem chosen_option_selects_its_example examples st i e v :
  nth_error examples i = Some e ->
  v = VNum (Int (Z.of_nat i)) \/ v = VStr (string_of_nat i) ->
  nth_error (options_from 0 examples) i
    = Some (VNum (Int (Z.of_nat i)), label e) /\
  chosenExampleIndex (step st (SelectChange v)) = Int (Z.of_nat i) /\
  selectedExample examples (step st (SelectChange v)) = Some (data e) /\
  string_of_number (chosenExampleIndex (step st (SelectChange v)))
    = string_of_nat i.
Proof.
  intros He Hv.
  assert (Hc : chosenExampleIndex (step st (SelectChange v)) = Int (Z.of_nat i)).
  { cbn [step chosenExampleIndex].
    destruct Hv as [->| ->]; cbn [String_];
      rewrite ?string_of_number_index; apply parseInt_string_of_nat. }
  split; [now rewrite nth_error_options_from, He|].
  split; [exact Hc|]. unfold selectedExample. rewrite Hc. split.
  - now rewrite at_index_nat, He.
  - apply string_of_number_index.
Qed.

Lemma chosen_option_selects_its_example_witness :
  selectedExample
    [MkExample "default" "{}"; MkExample "full" "{ id: 1 }"]
    (step initial (SelectChange (VStr "1"))) = Some "{ id: 1 }".
Proof.
  apply (chosen_option_selects_its_example
           [MkExample "default" "{}"; MkExample "full" "{ id: 1 }"]
           initial 1 (MkExample "full" "{ id: 1 }") (VStr "1"));
    [reflexivity|now right].
Defined.

(** ** Loading an example that exceeds the size limit *)

Lemma step_keeps_shown (st : State) (e : event) :
  show st = true /\ loading st = true ->
  show (step st e) = true /\ loading (step st e) = true.
Proof.
  intros [Hs Hl]. destruct e; cbn [step]; [now split| |now split].
  destruct (timers st); now split.
Qed.

Lemma run_keeps_shown (trace : list event) (st : State) :
  show st = true /\ loading st = true ->
  show (run st trace) = true /\ loading (run st trace) = true.
Proof.
  revert st. induction trace as [|e trace IH]; intros st H; [exact H|].
  cbn [run fold_left]. apply IH. now apply step_keeps_shown.
Qed.

(** X18.  Load more reveals for good.  Once the button has been pressed
    and its timer has fired, the code viewer is rendered, and it stays
    rendered whatever happens next and whatever the examples are: another
    example that exceeds the size limit is shown at once, and the load
    button does not come back. *)
Theorem load_more_reveals_for_good exceedsSize st trace examples :
  let shown := run (step (step st LoadMorePress) TimerFires) trace in
  show shown = true /\
  panelContent (render exceedsSize examples shown)
    = CodeViewer (selectedExample examples shown).
Proof.
  cbv zeta.
  destruct (run_keeps_shown trace (step (step st LoadMorePress) TimerFires))
    as [Hs _]; [now split|].
  split; [exact Hs|]. cbn [render panelContent]. now rewrite Hs.
Qed.

(** ** The layout of the model page *)

(** X19.  The examples panel is rendered once: under the description in
    the compact layout, in the right column otherwise, in neither place
    when [hideModelExamples] is set, and never in both. *)
Theorem examples_rendered_in_one_column (p : ModelComponent.Props) :
  let v := ModelComponent.render p in
  let hidden :=
    ModelComponent.flag (ModelComponent.layoutOptions p)
      ModelComponent.hideModelExamples in
  ModelComponent.examplesLeft v = ModelComponent.isCompact p && negb hidden /\
  ModelComponent.examplesRight v = negb (ModelComponent.isCompact p) && negb hidden /\
  ModelComponent.examplesLeft v && ModelComponent.examplesRight v = false /\
  ModelComponent.examplesLeft v || ModelComponent.examplesRight v = negb hidden.
Proof.
  cbv zeta. cbn [ModelComponent.render ModelComponent.examplesLeft
                   ModelComponent.examplesRight].
  destruct (ModelComponent.isCompact p),
    (ModelComponent.flag (ModelComponent.layoutOptions p)
       ModelComponent.hideModelExamples); repeat split.
Qed.

(** X20.  The header row can be rendered with nothing in it: no title, no
    badge and no export button.  This happens exactly for a model that is
    neither deprecated nor internal, with [noHeading] off, in two cases: the
    title is the empty string (which [??] keeps and [title !== undefined]
    accepts) and no export button is due, or there is no title and the
    export button that called for the header is left out because the layout
    is compact. *)
Theorem header_rendered_empty (p : ModelComponent.Props) :
  let v := ModelComponent.render p in
  let hideExport :=
    ModelComponent.flag (ModelComponent.layoutOptions p)
      ModelComponent.hideExport in
  (ModelComponent.header v = true /\
   ModelComponent.heading v = false /\
   ModelComponent.deprecatedBadge v = false /\
   ModelComponent.internalBadge v = false /\
   ModelComponent.exportButton v = false)
  <->
  (ModelComponent.isDeprecated p = false /\
   ModelComponent.isInternal p = false /\
   ModelComponent.flag (ModelComponent.layoutOptions p)
     ModelComponent.noHeading = false /\
   ((ModelComponent.title p = Some "" /\
     (ModelComponent.exportProps p = false \/ hideExport = true \/
      ModelComponent.isCompact p = true)) \/
    (ModelComponent.title p = None /\
     ModelComponent.exportProps p = true /\ hideExport = false /\
     ModelComponent.isCompact p = true))).
Proof.
  cbv zeta.
  cbn [ModelComponent.render ModelComponent.header ModelComponent.heading
         ModelComponent.deprecatedBadge ModelComponent.internalBadge
         ModelComponent.exportButton].
  unfold ModelComponent.shouldDisplayHeader.
  destruct (ModelComponent.isDeprecated p), (ModelComponent.isInternal p),
    (ModelComponent.flag (ModelComponent.layoutOptions p) ModelComponent.noHeading),
    (ModelComponent.flag (ModelComponent.layoutOptions p) ModelComponent.hideExport),
    (ModelComponent.exportProps p), (ModelComponent.isCompact p),
    (ModelComponent.title p) as [[|c t]|];
    cbn; intuition (discriminate || congruence).
Qed.
